(** * CESR decoder: a shallow embedding of the decoding modules

    The JavaScript sources embedded here are
    - [docs/assets/local/modules/base64.js], the class [Base64];
    - [docs/assets/local/modules/hex.js], the class [Hex], and the stream
      decoder that follows it there ([Group], [Frame], [DecoderState],
      [CesrDecoder]);
    - [docs/assets/common/modules/converters.js], [readInt];
    - [docs/assets/common/modules/cesr.js], the errors, the headers and the
      abstract protocol and code table;
    - the class [Utf8] (the unnamed part 000);
    - the two parser modules: the older one (the unnamed part 002) and the
      newer one (the unnamed part 003).

    JavaScript numbers that the code uses as integers are [Z]; a
    [Uint8Array] is a [list Z] whose elements are bytes; a string is the list
    of its UTF-16 code units.  A function that can throw returns a [result].
    The built-in functions that the code calls ([atob], [btoa], [parseInt],
    [TextEncoder], [TextDecoder], [slice], [substring]) are given as their
    standards define them. *)

From Stdlib Require Import ZArith List String Ascii Bool Lia.
Import ListNotations.
Open Scope Z_scope.

Set Implicit Arguments.

(** ** Values shared by all modules *)

(** The elements of a [Uint8Array]. *)
Definition bytes := list Z.

(** A JavaScript string, as its UTF-16 code units. *)
Definition jsstring := list Z.

Definition is_byte (b : Z) : Prop := 0 <= b < 256.
Definition is_ascii (c : Z) : Prop := 0 <= c < 128.

(** A string literal of the source. *)
Definition str (s : string) : jsstring :=
  map (fun a => Z.of_N (N_of_ascii a)) (list_ascii_of_string s).

Definition len {A} (l : list A) : Z := Z.of_nat (List.length l).

(** [Array.prototype.slice], [TypedArray.prototype.slice] and
    [String.prototype.slice]: a negative index counts from the end, and both
    indices are clamped to the length. *)
Definition rel_index (n i : Z) : Z :=
  if i <? 0 then Z.max (n + i) 0 else Z.min i n.

Definition slice {A} (l : list A) (s e : Z) : list A :=
  let k := rel_index (len l) s in
  let f := rel_index (len l) e in
  firstn (Z.to_nat (f - k)) (skipn (Z.to_nat k) l).

(** [x.slice(s)], the end index left out. *)
Definition slice_from {A} (l : list A) (s : Z) : list A := slice l s (len l).

(** [String.prototype.substring]: indices are clamped to [0, length] and
    swapped when the first exceeds the second. *)
Definition clamp (n i : Z) : Z := Z.min (Z.max i 0) n.

Definition substring (l : jsstring) (s e : Z) : jsstring :=
  let a := clamp (len l) s in
  let b := clamp (len l) e in
  firstn (Z.to_nat (Z.max a b - Z.min a b)) (skipn (Z.to_nat (Z.min a b)) l).

Definition substring_from (l : jsstring) (s : Z) : jsstring :=
  substring l s (len l).

(** [ToInt32]: the operands and the result of [<<], [>>], [|] and [&] are
    32-bit two's complement integers. *)
Definition to_int32 (z : Z) : Z := (z + 2 ^ 31) mod 2 ^ 32 - 2 ^ 31.

Definition js_shl (a n : Z) : Z := to_int32 (Z.shiftl (to_int32 a) (n mod 32)).
Definition js_shr (a n : Z) : Z := Z.shiftr (to_int32 a) (n mod 32).
Definition js_or (a b : Z) : Z := Z.lor (to_int32 a) (to_int32 b).
Definition js_and (a b : Z) : Z := Z.land (to_int32 a) (to_int32 b).

(** [a % b] of JavaScript takes the sign of the dividend. *)
Definition js_rem (a b : Z) : Z := Z.rem a b.

(** [String.prototype.indexOf] for a one-unit needle, from position [i]. *)
Fixpoint indexOf (ch : Z) (s : jsstring) (i : Z) : Z :=
  match s with
  | [] => -1
  | c :: s' => if c =? ch then i else indexOf ch s' (i + 1)
  end.

(** [s.replace(/a/g, 'b')] for one-unit [a] and [b]. *)
Definition replace_all (a b : Z) (s : jsstring) : jsstring :=
  map (fun c => if c =? a then b else c) s.

(** [String.prototype.repeat] of a one-unit string, and
    [new Uint8Array(n).fill(c)]. *)
Definition repeat_unit (c : Z) (n : Z) : list Z := repeat c (Z.to_nat n).

(** ** Headers ([cesr.js]) *)

(** [CesrVersionHeader], as [getJsonFrame] builds it: [table] is
    [undefined], and [size] is the getter [Hex.toInt(this.digits)], given as
    [vh_size] below, after [Hex]. *)
Record CesrVersionHeader : Type := mkVersionHeader
  { vh_value : jsstring;
    vh_serial : jsstring;
    vh_proto : jsstring;
    vh_digits : jsstring }.

(** [CesrDerivationCode].  An [undefined] field is [None].  [serial] is the
    property the stream decoder adds.  The back reference [table] is left
    out: none of the functions embedded here reads it. *)
Record CesrDerivationCode : Type := mkDerivationCode
  { value : jsstring;
    selector : jsstring;
    type_ : jsstring;
    digits : option jsstring;
    typeName : option jsstring;
    leadBytes : option Z;
    size : option Z;
    count : option Z;
    quadlets : option Z;
    version : option jsstring;
    index : option Z;
    ondex : option Z;
    serial : option jsstring }.

Inductive Header : Type :=
| VersionHeader (h : CesrVersionHeader)
| DerivationCode (c : CesrDerivationCode).

(** ** Thrown values *)

(** A template literal is kept as its fragments, so that the interpolated
    values stay values; [FJson h] is [JSON.stringify(h)]. *)
Inductive frag : Type :=
| FText (s : string)
| FNum (z : Z)
| FStr (s : jsstring)
| FBytes (b : bytes)
| FJson (h : Header)
| FUndefined.

Definition message := list frag.

(** The error classes of [cesr.js], and the built-in ones the code meets.
    [ShortageError(message, length, expected)] keeps the two optional
    arguments; an argument left out is [undefined], here [None]. *)
Inductive exn : Type :=
| Error (msg : message)
| TypeError (msg : message)
| RangeError
| InvalidCharacterError
| ConversionError (msg : message)
| UnknownCodeError (msg : message) (code : frag)
| UnexpectedCountCodeError (msg : message)
| UnexpectedOpCodeError (msg : message)
| UnexpectedCodeError (msg : message)
| ShortageError (msg : message) (length_ expected : option Z).

Inductive result (A : Type) : Type :=
| Ok (a : A)
| Throw (e : exn).

Arguments Ok {A} a.
Arguments Throw {A} e.

Definition bind {A B} (r : result A) (k : A -> result B) : result B :=
  match r with
  | Ok a => k a
  | Throw e => Throw e
  end.

Notation "x <- r ;; k" := (bind r (fun x => k))
  (at level 61, r at next level, right associativity).

Notation "' p <- r ;; k" := (bind r (fun x => let p := x in k))
  (at level 61, p pattern, r at next level, right associativity).

Definition is_ok {A} (r : result A) : bool :=
  match r with Ok _ => true | Throw _ => false end.

(** ** [Utf8]: the platform's [TextEncoder] and [TextDecoder] *)

Module Utf8.

Definition is_high (c : Z) : bool := (0xD800 <=? c) && (c <=? 0xDBFF).
Definition is_low (c : Z) : bool := (0xDC00 <=? c) && (c <=? 0xDFFF).

Definition utf8_of_cp (cp : Z) : bytes :=
  if cp <? 0x80 then [cp]
  else if cp <? 0x800 then [0xC0 + cp / 64; 0x80 + cp mod 64]
  else if cp <? 0x10000 then
    [0xE0 + cp / 4096; 0x80 + (cp / 64) mod 64; 0x80 + cp mod 64]
  else
    [0xF0 + cp / 262144; 0x80 + (cp / 4096) mod 64;
     0x80 + (cp / 64) mod 64; 0x80 + cp mod 64].

(** [encoder.encode(value)]: the string is read as scalar values, a lone
    surrogate becoming U+FFFD, and written as UTF-8. *)
Fixpoint encode (value : jsstring) : bytes :=
  match value with
  | [] => []
  | c :: rest =>
      if is_high c then
        match rest with
        | d :: rest' =>
            if is_low d
            then utf8_of_cp (0x10000 + (c - 0xD800) * 1024 + (d - 0xDC00))
                   ++ encode rest'
            else utf8_of_cp 0xFFFD ++ encode rest
        | [] => utf8_of_cp 0xFFFD
        end
      else if is_low c then utf8_of_cp 0xFFFD ++ encode rest
      else utf8_of_cp c ++ encode rest
  end.

(** The state of the UTF-8 decoder of the Encoding standard. *)
Record dstate : Type := mkD
  { d_cp : Z; d_seen : Z; d_needed : Z; d_lower : Z; d_upper : Z }.

Definition d0 : dstate := mkD 0 0 0 0x80 0xBF.

Definition lead (b : Z) : list Z * dstate :=
  if b <=? 0x7F then ([b], d0)
  else if (0xC2 <=? b) && (b <=? 0xDF) then ([], mkD (b mod 32) 0 1 0x80 0xBF)
  else if (0xE0 <=? b) && (b <=? 0xEF) then
    ([], mkD (b mod 16) 0 2 (if b =? 0xE0 then 0xA0 else 0x80)
                          (if b =? 0xED then 0x9F else 0xBF))
  else if (0xF0 <=? b) && (b <=? 0xF4) then
    ([], mkD (b mod 8) 0 3 (if b =? 0xF0 then 0x90 else 0x80)
                         (if b =? 0xF4 then 0x8F else 0xBF))
  else ([0xFFFD], d0).

Definition dstep (st : dstate) (b : Z) : list Z * dstate :=
  if d_needed st =? 0 then lead b
  else if (b <? d_lower st) || (d_upper st <? b) then
    let '(out, st') := lead b in (0xFFFD :: out, st')
  else
    let cp := d_cp st * 64 + b mod 64 in
    if d_seen st + 1 =? d_needed st then ([cp], d0)
    else ([], mkD cp (d_seen st + 1) (d_needed st) 0x80 0xBF).

Fixpoint code_points (st : dstate) (bs : bytes) : list Z :=
  match bs with
  | [] => if d_needed st =? 0 then [] else [0xFFFD]
  | b :: rest => let '(out, st') := dstep st b in out ++ code_points st' rest
  end.

Definition utf16_of_cp (cp : Z) : jsstring :=
  if cp <? 0x10000 then [cp]
  else [0xD800 + (cp - 0x10000) / 1024; 0xDC00 + (cp - 0x10000) mod 1024].

(** [decoder.decode(value)]: malformed input is replaced by U+FFFD and a
    leading byte order mark is dropped (the decoder is built with no
    options). *)
Definition decode (value : bytes) : jsstring :=
  let cps := code_points d0 value in
  let cps :=
    match cps with
    | c :: r => if c =? 0xFEFF then r else cps
    | [] => cps
    end in
  flat_map utf16_of_cp cps.

End Utf8.

(** ** [Base64] *)

Module Base64.

Definition BASE64 : jsstring :=
  str "ABCDEFGHIJKLMNOPQRSTUVWXYZabcdefghijklmnopqrstuvwxyz0123456789-_".

Definition valueOf (ch : Z) : result Z :=
  let r := indexOf ch BASE64 0 in
  if r =? -1 then Throw (Error []) else Ok r.

(** The loop of [toInt]; [res] is the variable [result]. *)
Fixpoint toInt_from (res : Z) (value : jsstring) : result Z :=
  match value with
  | [] => Ok res
  | ch :: rest =>
      let res := js_shl res 6 in
      v <- valueOf ch ;;
      toInt_from (js_or res v) rest
  end.

Definition toInt (value : jsstring) : result Z := toInt_from 0 value.

Definition toInt1 (value : jsstring) := toInt (slice value 0 1).
Definition toInt2 (value : jsstring) := toInt (slice value 0 2).
Definition toInt3 (value : jsstring) := toInt (slice value 0 3).
Definition toInt4 (value : jsstring) := toInt (slice value 0 4).

(** *** The platform's [btoa] and [atob] *)

Definition STD64 : jsstring :=
  str "ABCDEFGHIJKLMNOPQRSTUVWXYZabcdefghijklmnopqrstuvwxyz0123456789+/".

Definition std_char (v : Z) : Z := nth (Z.to_nat v) STD64 0.

Definition std_value (c : Z) : option Z :=
  let r := indexOf c STD64 0 in
  if r =? -1 then None else Some r.

(** Base64 of RFC 4648 with padding, three bytes to four characters. *)
Fixpoint btoa_units (l : list Z) : jsstring :=
  match l with
  | [] => []
  | [a] => [std_char (a / 4); std_char (a mod 4 * 16); 61; 61]
  | [a; b] =>
      [std_char (a / 4); std_char (a mod 4 * 16 + b / 16);
       std_char (b mod 16 * 4); 61]
  | a :: b :: c :: rest =>
      std_char (a / 4) :: std_char (a mod 4 * 16 + b / 16)
      :: std_char (b mod 16 * 4 + c / 64) :: std_char (c mod 64)
      :: btoa_units rest
  end.

(** [btoa(data)] throws when a code unit is above U+00FF. *)
Definition btoa (data : jsstring) : result jsstring :=
  if forallb (fun c => c <=? 255) data then Ok (btoa_units data)
  else Throw InvalidCharacterError.

Definition is_ascii_whitespace (c : Z) : bool :=
  (c =? 9) || (c =? 10) || (c =? 12) || (c =? 13) || (c =? 32).

(** One or two trailing ['='] are removed. *)
Definition remove_padding (d : jsstring) : jsstring :=
  match rev d with
  | a :: b :: r =>
      if (a =? 61) && (b =? 61) then rev r
      else if a =? 61 then rev (b :: r)
      else d
  | [a] => if a =? 61 then [] else d
  | [] => d
  end.

Fixpoint std_values (d : jsstring) : option (list Z) :=
  match d with
  | [] => Some []
  | c :: rest =>
      match std_value c, std_values rest with
      | Some v, Some vs => Some (v :: vs)
      | _, _ => None
      end
  end.

(** Four 6-bit values to three bytes; the bits left over by a last group of
    two or three values are dropped. *)
Fixpoint atob_units (vs : list Z) : jsstring :=
  match vs with
  | v0 :: v1 :: v2 :: v3 :: rest =>
      (v0 * 4 + v1 / 16) :: (v1 mod 16 * 16 + v2 / 4)
      :: (v2 mod 4 * 64 + v3) :: atob_units rest
  | [v0; v1; v2] => [v0 * 4 + v1 / 16; v1 mod 16 * 16 + v2 / 4]
  | [v0; v1] => [v0 * 4 + v1 / 16]
  | _ => []
  end.

(** [atob(data)], the forgiving-base64 decode of the platform: ASCII
    whitespace is removed, then padding when the length is a multiple of 4;
    a length of 1 modulo 4 and a character outside the alphabet throw. *)
Definition atob (data : jsstring) : result jsstring :=
  let data := filter (fun c => negb (is_ascii_whitespace c)) data in
  let data := if len data mod 4 =? 0 then remove_padding data else data in
  if len data mod 4 =? 1 then Throw InvalidCharacterError
  else match std_values data with
       | Some vs => Ok (atob_units vs)
       | None => Throw InvalidCharacterError
       end.

(** *** The codec of [base64.js] *)

Definition decodeBase64Url (array : bytes) : result bytes :=
  let base64UrlString := array in
  let base64String := replace_all 95 47 (replace_all 45 43 base64UrlString) in
  let modRemainder := js_rem (len base64String) 4 in
  let padCharCount := if 0 <? modRemainder then 4 - modRemainder else 0 in
  let paddedB64Str := base64String ++ repeat_unit 61 padCharCount in
  binaryString <- atob paddedB64Str ;;
  Ok binaryString.

(** [s.replace(/=+$/, '')]. *)
Fixpoint drop_eq (r : jsstring) : jsstring :=
  match r with
  | c :: r' => if c =? 61 then drop_eq r' else r
  | [] => []
  end.

Definition strip_trailing_eq (s : jsstring) : jsstring := rev (drop_eq (rev s)).

Definition encodeBase64Url (array : bytes) (strip : bool) : result jsstring :=
  let binaryString := array in
  base64String <- btoa binaryString ;;
  let base64UrlString := replace_all 47 95 (replace_all 43 45 base64String) in
  if strip then Ok (strip_trailing_eq base64UrlString)
  else Ok base64UrlString.

End Base64.

(** ** [Hex] *)

Module Hex.

Definition HEX : jsstring := str "0123456789ABCDEF".

Definition valueOf (ch : Z) : result Z :=
  let r := indexOf ch HEX 0 in
  if r =? -1 then Throw (Error []) else Ok r.

(** [String.prototype.toUpperCase] on the ASCII letters; [toInt] is called
    on the [\w] characters of a version string only. *)
Definition toUpperCase (s : jsstring) : jsstring :=
  map (fun c => if (97 <=? c) && (c <=? 122) then c - 32 else c) s.

Fixpoint toInt_from (res : Z) (value : jsstring) : result Z :=
  match value with
  | [] => Ok res
  | ch :: rest =>
      let res := js_shl res 4 in
      v <- valueOf ch ;;
      toInt_from (js_or res v) rest
  end.

Definition toInt (value : jsstring) : result Z :=
  toInt_from 0 (toUpperCase value).

Definition digit16 (d : Z) : Z := nth (Z.to_nat d) (str "0123456789abcdef") 0.

(** [byte.toString(16).padStart(2, '0')] for a byte. *)
Definition byte_hex (byte : Z) : jsstring :=
  if byte <? 16 then [48; digit16 byte]
  else [digit16 (byte / 16); digit16 (byte mod 16)].

Definition encode (uint8Array : bytes) : jsstring :=
  flat_map byte_hex uint8Array.

(** *** [parseInt(s, 16)] *)

(** The white space and line terminators that [parseInt] skips. *)
Definition is_js_space (c : Z) : bool :=
  (c =? 9) || (c =? 10) || (c =? 11) || (c =? 12) || (c =? 13) || (c =? 32)
  || (c =? 0xA0) || (c =? 0x1680) || ((0x2000 <=? c) && (c <=? 0x200A))
  || (c =? 0x2028) || (c =? 0x2029) || (c =? 0x202F) || (c =? 0x205F)
  || (c =? 0x3000) || (c =? 0xFEFF).

Fixpoint skip_space (s : jsstring) : jsstring :=
  match s with
  | c :: s' => if is_js_space c then skip_space s' else s
  | [] => []
  end.

Definition hex_digit (c : Z) : option Z :=
  if (48 <=? c) && (c <=? 57) then Some (c - 48)
  else if (65 <=? c) && (c <=? 70) then Some (c - 55)
  else if (97 <=? c) && (c <=? 102) then Some (c - 87)
  else None.

(** The digits of the longest valid prefix, read from the left; [None]
    when there is no digit. *)
Fixpoint digits_from (acc : option Z) (s : jsstring) : option Z :=
  match s with
  | [] => acc
  | c :: s' =>
      match hex_digit c with
      | Some d =>
          digits_from (Some (match acc with Some a => a * 16 + d | None => d end)) s'
      | None => acc
      end
  end.

(** [parseInt(s, 16)]; [None] is [NaN].  The value is the exact integer,
    which is what JavaScript returns below 2^53, that is for up to 13
    digits; the statements about [decode] read at most two digits or state
    the length and the range of the bytes only. *)
Definition parseInt16 (s : jsstring) : option Z :=
  let s := skip_space s in
  let '(sign, s) :=
    match s with
    | 45 :: s' => (-1, s')
    | 43 :: s' => (1, s')
    | _ => (1, s)
    end in
  let s :=
    match s with
    | 48 :: 120 :: s' => s'
    | 48 :: 88 :: s' => s'
    | _ => s
    end in
  match digits_from None s with
  | Some n => Some (sign * n)
  | None => None
  end.

(** Storing a number into a [Uint8Array]: [NaN] is stored as 0 and an
    integer modulo 2^8. *)
Definition to_uint8 (v : option Z) : Z :=
  match v with
  | Some n => n mod 256
  | None => 0
  end.

(** The loop of [decode]: [i] advances by 2, [n] pairs are left. *)
Fixpoint decode_from (hexString : jsstring) (i : Z) (n : nat) : bytes :=
  match n with
  | O => []
  | S n' =>
      to_uint8 (parseInt16 (substring hexString i 2))
      :: decode_from hexString (i + 2) n'
  end.

Definition decode (hexString : jsstring) : result bytes :=
  if negb (js_rem (len hexString) 2 =? 0)
  then Throw (Error [FText "Invalid hex string"])
  else Ok (decode_from hexString 0 (Z.to_nat (len hexString / 2))).

End Hex.

(** ** [converters.js] *)

(** [readInt]: the bytes as a big-endian number.  The value is the exact
    integer, which is what JavaScript computes below 2^53, that is for up to
    six bytes; from seven bytes on the code rounds to a double, and the
    statements about the value are made for up to six bytes. *)
Fixpoint readInt_from (value : Z) (array : bytes) : Z :=
  match array with
  | [] => value
  | b :: rest => readInt_from (value * 256 + b) rest
  end.

Definition readInt (array : bytes) : Z := readInt_from 0 array.

(** ** Values, code tables and protocols ([cesr.js]) *)

(** [get length()] of both header classes. *)
Definition header_length (h : Header) : Z :=
  match h with
  | VersionHeader v => len (vh_value v)
  | DerivationCode c => len (value c)
  end.

(** The getter [size] of a version header. *)
Definition vh_size (h : CesrVersionHeader) : result Z := Hex.toInt (vh_digits h).

Definition Serials_json : jsstring := str "JSON".

(** [CesrValue]; its [length] is [value.length]. *)
Record CesrValue : Type := mkCesrValue
  { header : Header;
    cv_value : bytes }.

Definition cv_length (v : CesrValue) : Z := len (cv_value v).

(** [table.spec.sizes]; [fs] may be [null] or absent. *)
Record Sizes : Type := mkSizes
  { hs : Z; ss : Z; fs : option Z; ls : Z }.

(** A code table as the parser uses it: the overridable members of
    [CesrCodeTable], each of which may throw, and the [spec.sizes] that
    [fromMatterQB64b] and [toMatterQB64b] read. *)
Record CesrCodeTable : Type := mkCodeTable
  { codeSize : result Z;
    mapCodeHeader : jsstring -> result CesrDerivationCode;
    getTotalLength : CesrDerivationCode -> result Z;
    sizes : Sizes }.

(** A protocol, the overridable members of [CesrProtocol]. *)
#[local] Unset Elimination Schemes.
Inductive CesrProtocol : Type := mkProtocol
  { name : jsstring;
    getSelectorSize : jsstring -> Z;
    getCodeTable : jsstring -> result CesrCodeTable;
    isFrame : CesrDerivationCode -> bool;
    isGroup : CesrDerivationCode -> bool;
    hasContext : CesrDerivationCode -> bool;
    getContext : CesrDerivationCode -> option CesrProtocol }.
#[local] Set Elimination Schemes.

(** The input of the exported functions: a string, a [Uint8Array], or
    anything else. *)
Inductive Input : Type :=
| InString (s : jsstring)
| InUint8Array (b : bytes)
| InOther.

Definition streq (a b : jsstring) : bool :=
  if list_eq_dec Z.eq_dec a b then true else false.

(** [\w] of a regular expression without flags. *)
Definition is_word (c : Z) : bool :=
  ((48 <=? c) && (c <=? 57)) || ((65 <=? c) && (c <=? 90))
  || (c =? 95) || ((97 <=? c) && (c <=? 122)).

(** [/^{"\w{1}":"(\w{16})_"/.exec(s)]: the first group of the match. *)
Definition versionStrPattern_exec (s : jsstring) : option jsstring :=
  match s with
  | 123 :: 34 :: w :: 34 :: 58 :: 34 :: rest =>
      let vs := firstn 16 rest in
      if is_word w && (List.length vs =? 16)%nat && forallb is_word vs then
        match skipn 16 rest with
        | 95 :: 34 :: _ => Some vs
        | _ => None
        end
      else None
  | _ => None
  end.

(** [String(typedArray)]: the bytes in decimal, joined by commas. *)
Definition decimal_byte (b : Z) : jsstring :=
  if b <? 10 then [48 + b]
  else if b <? 100 then [48 + b / 10; 48 + b mod 10]
  else [48 + b / 100; 48 + b / 10 mod 10; 48 + b mod 10].

Fixpoint typed_array_toString (a : bytes) : jsstring :=
  match a with
  | [] => []
  | b :: rest =>
      match rest with
      | [] => decimal_byte b
      | _ :: _ => decimal_byte b ++ 44 :: typed_array_toString rest
      end
  end.

(** The first element of an array, for [input[0]] in a message. *)
Definition frag_of_first (input : bytes) : frag :=
  match input with
  | b :: _ => FNum b
  | [] => FUndefined
  end.

(** ** The newer parser module *)

Module Parser.

Section Tables.

(** The constants imported from [cesr-tables.js], which is generated
    from the code tables and not part of the sources: the hard sizes by
    first character(s), and the two start characters. *)
Variable MatterHards : jsstring -> option Z.
Variable CounterHards : jsstring -> option Z.
Variable CountCodeStart : jsstring.
Variable OpCodeStart : jsstring.

Definition getCesrValue (protocol : CesrProtocol) (input : Input)
  : result CesrValue :=
  '(selector, input) <-
    match input with
    | InString s => Ok (slice s 0 8, Utf8.encode s)
    | InUint8Array b => let tmp := slice b 0 8 in Ok (Utf8.decode tmp, b)
    | InOther =>
        Throw (TypeError [FText "expected input 'string' or 'Uint8Array'"])
    end ;;
  let selectorSize := getSelectorSize protocol selector in
  if selectorSize >? len selector
  then Throw (UnknownCodeError [FText "getCesrValue "; FStr (name protocol)]
                (FStr selector))
  else
    table <- getCodeTable protocol (slice selector 0 selectorSize) ;;
    cs <- codeSize table ;;
    if cs >? len selector
    then Throw (UnknownCodeError [FText "getCesrValue "; FStr (name protocol)]
                  (FStr selector))
    else
      code <- mapCodeHeader table (slice selector 0 cs) ;;
      total <- getTotalLength table code ;;
      if total >? len input
      then Throw (UnknownCodeError [FText "getCesrValue "; FStr (name protocol)]
                    (FJson (DerivationCode code)))
      else
        let value := slice input 0 total in
        if negb (total =? len value)
        then Throw (UnknownCodeError
                      [FText "getCesrValue "; FStr (name protocol)]
                      (FJson (DerivationCode code)))
        else Ok (mkCesrValue (DerivationCode code) value).

(** The cold start tritets. *)
Definition ColdDex_Free : Z := 0.
Definition ColdDex_CtB64 : Z := 1.
Definition ColdDex_OpB64 : Z := 2.
Definition ColdDex_JSON : Z := 3.
Definition ColdDex_MGPK1 : Z := 4.
Definition ColdDex_CBOR : Z := 5.
Definition ColdDex_MGPK2 : Z := 6.
Definition ColdDex_CtOpB2 : Z := 7.

(** The full size [fs] that [fromMatterQB64b] computes: the one of the
    table, or the one that the size characters give. *)
Definition matter_full_size (table : CesrCodeTable) (qb64b : bytes) : result Z :=
  let '(mkSizes hs ss fs ls) := sizes table in
  let cs := hs + ss in
  match fs with
  | Some fs => Ok fs
  | None =>
      if negb (js_rem cs 4 =? 0)
      then Throw (Error [FText "fromMatterQB64b: Code size not divisible by 4"])
      else
        let sizeBytes := slice qb64b hs cs in
        let sizeChars := Utf8.decode sizeBytes in
        size <- Base64.toInt sizeChars ;;
        Ok (size * 4 + cs)
  end.

(** [fromMatterQB64b], up to the slice to the full size: the result is the
    hard code, the code size, the full size, the lead size and the sliced
    material. *)
Definition matter_frame (qb64b : Input) (protocol : CesrProtocol)
  : result (jsstring * Z * Z * Z * bytes) :=
  qb64b <-
    match qb64b with
    | InUint8Array b => Ok b
    | InString s => Ok (Utf8.encode s)
    | InOther =>
        Throw (TypeError
                 [FText "fromMatterQB64b: Expected Uint8Array or string, got ";
                  FText "typeof qb64b"])
    end ;;
  if len qb64b =? 0
  then Throw (ShortageError [FText "fromMatterQB64b: Empty material"] None None)
  else
    let first := Utf8.decode (slice qb64b 0 1) in
    match MatterHards first with
    | None =>
        if streq (slice first 0 1) CountCodeStart
        then Throw (UnexpectedCountCodeError
                      [FText "Unexpected count code start while extracting Matter."])
        else if streq (slice first 0 1) OpCodeStart
        then Throw (UnexpectedOpCodeError
                      [FText "Unexpected op code start while extracting Matter."])
        else Throw (UnexpectedCodeError
                      [FText "Unknown code '"; FStr (slice first 0 1);
                       FText "' start while extracting Matter."])
    | Some hardSize =>
        if len qb64b <? hardSize
        then Throw (ShortageError
                      [FText "fromMatterQB64b: Need "; FNum (hardSize - len qb64b);
                       FText " more characters."] None None)
        else
          let hardBytes := slice qb64b 0 hardSize in
          let hard := Utf8.decode hardBytes in
          table <- getCodeTable protocol hard ;;
          let '(mkSizes hs ss _ ls) := sizes table in
          let cs := hs + ss in
          fs <- matter_full_size table qb64b ;;
          if len qb64b <? fs
          then Throw (ShortageError
                        [FText "fromMatterQB64b: Need "; FNum (fs - len qb64b);
                         FText " more characters."] None None)
          else Ok (hard, cs, fs, ls, slice qb64b 0 fs)
    end.

(** The last check of [fromMatterQB64b], of the length of the raw bytes.
    The message interpolates [Utf8.encode(qb64b)]: the encoder is given a byte
    array, which it reads as the string of its decimal listing. *)
Definition matter_checked (hard : jsstring) (cs fs ls : Z) (qb64b raw : bytes)
  : result (jsstring * Z * bytes) :=
  if negb (len raw =? (len qb64b - cs) * 3 / 4 - ls)
  then Throw (ConversionError
                [FText "Improperly qualified material: ";
                 FBytes (Utf8.encode (typed_array_toString qb64b))])
  else Ok (hard, fs, raw).

(** The rest of [fromMatterQB64b]: the check of the pad bits or of the
    lead bytes, and of the length of the raw bytes. *)
Definition matter_raw (hard : jsstring) (cs fs ls : Z) (qb64b : bytes)
  : result (jsstring * Z * bytes) :=
  let ps := js_rem cs 4 in
  let pbs := 2 * (if negb (ps =? 0) then ps else ls) in
  raw <-
    (if ps >? 0 then
       let padding := repeat_unit 65 ps in
       let base := padding ++ slice_from qb64b cs in
       paw <- Base64.decodeBase64Url base ;;
       let pi := readInt (slice paw 0 ps) in
       if negb (js_and pi (2 ^ pbs - 1) =? 0)
       then Throw (Error
                     [FText "fromMatterQB64b: Non-zeroed pad bits = ";
                      FNum (js_and pi (2 ^ pbs - 1)); FText " in ";
                      FBytes (slice qb64b cs (cs + 1))])
       else Ok (slice_from paw ps)
     else
       let base := slice_from qb64b cs in
       paw <- Base64.decodeBase64Url base ;;
       let li := readInt (slice paw 0 ls) in
       if li >? 0 then
         if ls =? 1
         then Throw (Error
                       [FText "fromMatterQB64b: Non-zeroed lead byte = ";
                        FNum li; FText " in "; FBytes (slice qb64b cs (cs + 1))])
         else Throw (Error
                       [FText "fromMatterQB64b: Non-zeroed lead bytes = ";
                        FNum li; FText " in "; FBytes (slice qb64b cs (cs + ls))])
       else Ok (slice_from paw ls)) ;;
  matter_checked hard cs fs ls qb64b raw.

Definition fromMatterQB64b (qb64b : Input) (protocol : CesrProtocol)
  : result (jsstring * Z * bytes) :=
  '(hard, cs, fs, ls, qb64b) <- matter_frame qb64b protocol ;;
  matter_raw hard cs fs ls qb64b.

Definition parsePrefixQB64 (protocol : CesrProtocol) (input : Input) :=
  fromMatterQB64b input protocol.
Definition parseSeqnerQB64 (protocol : CesrProtocol) (input : Input) :=
  fromMatterQB64b input protocol.
Definition parseSaider (protocol : CesrProtocol) (input : Input) :=
  fromMatterQB64b input protocol.

(** [new Uint8Array(n)]: zeros, or a [RangeError] for a negative length. *)
Definition new_Uint8Array (n : Z) : result bytes :=
  if n <? 0 then Throw RangeError else Ok (repeat_unit 0 n).

Definition toMatterQB64b (raw : bytes) (code : jsstring) (protocol : CesrProtocol)
  : result bytes :=
  table <- getCodeTable protocol code ;;
  let '(mkSizes hs ss _ ls) := sizes table in
  let cs := hs + ss in
  let rs := len raw in
  let ps := js_rem (3 - js_rem (rs + ls) 3) 3 in
  if negb (js_rem cs 4 =? ps - ls)
  then Throw (Error [FText "Invalid code size and raw pad size "; FNum ps;
                     FText " given raw length "; FNum rs])
  else
    prepad <- new_Uint8Array (ps + ls) ;;
    let paddedRaw := prepad ++ raw in
    b64Padded <- Base64.encodeBase64Url paddedRaw true ;;
    let unpaddedB64 := substring_from b64Padded (js_rem cs 4) in
    Ok (Utf8.encode (code ++ unpaddedB64)).

Definition fromCounterQB64b (qb64b : Input) (protocol : CesrProtocol)
  : result (jsstring * Z) :=
  qb64b <-
    match qb64b with
    | InUint8Array b => Ok b
    | InString s => Ok (Utf8.encode s)
    | InOther =>
        Throw (TypeError
                 [FText "fromCounterQB64b: Expected Uint8Array or string, got ";
                  FText "typeof qb64b"])
    end ;;
  if len qb64b =? 0
  then Throw (ShortageError [FText "fromMatterQB64b: Empty material"] None None)
  else
    let first := Utf8.decode (slice qb64b 0 2) in
    match CounterHards first with
    | None =>
        if streq (slice first 0 1) OpCodeStart
        then Throw (UnexpectedOpCodeError
                      [FText "Unexpected op code start while extracting Counter."])
        else Throw (UnexpectedCodeError
                      [FText "Unknown code '"; FStr (slice first 0 1);
                       FText "' start while extracting Counter."])
    | Some hardSize =>
        if len qb64b <? hardSize
        then Throw (ShortageError
                      [FText "fromCounterQB64b: Need "; FNum (hardSize - len qb64b);
                       FText " more characters."] None None)
        else
          let hardBytes := slice qb64b 0 hardSize in
          let hard := Utf8.decode hardBytes in
          table <- getCodeTable protocol hard ;;
          let '(mkSizes hs _ fs _) := sizes table in
          match fs with
          | Some fs =>
              if len qb64b <? fs
              then Throw (ShortageError
                            [FText "fromCounterQB64b: Need ";
                             FNum (fs - len qb64b);
                             FText " more characters."] None None)
              else
                let countCodeB64 := slice qb64b hs fs in
                countInt <- Base64.toInt (Utf8.decode countCodeB64) ;;
                Ok (hard, countInt)
          | None =>
              (* [length < undefined] is false and [slice(hs, undefined)]
                 runs to the end *)
              let countCodeB64 := slice_from qb64b hs in
              countInt <- Base64.toInt (Utf8.decode countCodeB64) ;;
              Ok (hard, countInt)
          end
    end.

(** [getSealSourceTriples].  The loop reads the same triple [count] times:
    [triple] is not advanced; [n] iterations are left. *)
Fixpoint triples_from (protocol : CesrProtocol) (triple : bytes)
    (tripleSize : Z) (n : nat) : result Z :=
  match n with
  | O => Ok tripleSize
  | S n' =>
      '(_, prefix_size, _) <- parsePrefixQB64 protocol (InUint8Array triple) ;;
      let seqnerStartPosition := prefix_size in
      '(_, seqner_size, _) <-
        parseSeqnerQB64 protocol
          (InUint8Array (slice_from triple seqnerStartPosition)) ;;
      let saiderStartPosition := seqnerStartPosition + seqner_size in
      '(_, saider_size, _) <-
        parseSaider protocol
          (InUint8Array (slice_from triple saiderStartPosition)) ;;
      triples_from protocol triple
        (tripleSize + (prefix_size + seqner_size + saider_size)) n'
  end.

Definition getSealSourceTriples (cesrValue : CesrValue)
    (protocol : CesrProtocol) (input : bytes)
    (derivationCode : CesrDerivationCode) : result CesrValue :=
  table <- getCodeTable protocol (selector derivationCode) ;;
  fs <- getTotalLength table derivationCode ;;
  let triple := slice_from input fs in
  '(_, count) <- fromCounterQB64b (InUint8Array (slice input 0 fs)) protocol ;;
  tripleSize <- triples_from protocol triple 0 (Z.to_nat count) ;;
  let derivationCode :=
    mkDerivationCode (value derivationCode) (selector derivationCode)
      (type_ derivationCode) (digits derivationCode)
      (typeName derivationCode) (Some 0) (Some fs) (Some count)
      (quadlets derivationCode) (version derivationCode)
      (Some (-1)) (Some (-1)) (serial derivationCode) in
  Ok (mkCesrValue (DerivationCode derivationCode)
        (slice input 0 (fs + tripleSize))).

(** [getAttachedMaterialQuadlets]; an [undefined] count makes [size]
    [NaN]: the comparison is false and [slice(0, NaN)] is empty. *)
Definition getAttachedMaterialQuadlets (input : bytes)
    (derivationCode : CesrDerivationCode) (quadletCount : option Z)
    (codeLength : Z) : result CesrValue :=
  match quadletCount with
  | Some quadletCount =>
      let size := quadletCount * 4 + codeLength in
      if size >? len input
      then Throw (UnknownCodeError
                    [FText "getAttachedMaterialQuadlets not enough data for"]
                    (FJson (DerivationCode derivationCode)))
      else Ok (mkCesrValue (DerivationCode derivationCode) (slice input 0 size))
  | None => Ok (mkCesrValue (DerivationCode derivationCode) (slice input 0 0))
  end.

Definition getTextFrame (protocol : CesrProtocol) (input : bytes)
  : result CesrValue :=
  cesrValue <- getCesrValue protocol (InUint8Array input) ;;
  match header cesrValue with
  | DerivationCode code =>
      if streq (selector code) (str "-I")
      then getSealSourceTriples cesrValue protocol input code
      else if streq (selector code) (str "-V")
      then getAttachedMaterialQuadlets input code (count code)
             (header_length (header cesrValue))
      else if streq (selector code) (str "-0V")
      then getAttachedMaterialQuadlets input code (count code)
             (header_length (header cesrValue))
      else Throw (UnknownCodeError [FText "getTextFrame"]
                    (FJson (header cesrValue)))
  | VersionHeader _ =>
      (* no [selector]: the default case *)
      Throw (UnknownCodeError [FText "getTextFrame"] (FJson (header cesrValue)))
  end.

(** [getJsonFrame].  [JSON.stringify(code)] reads the enumerable getter
    [size], which throws on a digit that is not hexadecimal.  The error of
    the size check is built and dropped: there is no [throw]. *)
Definition getJsonFrame (input : bytes) : result CesrValue :=
  let versionStrHeader := Utf8.decode (slice input 0 24) in
  match versionStrPattern_exec versionStrHeader with
  | None =>
      Throw (UnknownCodeError [FText "getJsonFrame"] (FStr versionStrHeader))
  | Some versionStr =>
      let code :=
        mkVersionHeader versionStr (slice versionStr 6 10)
          (slice versionStr 0 6) (slice versionStr 10 16) in
      if negb (streq Serials_json (vh_serial code))
      then
        _ <- vh_size code ;;
        Throw (UnknownCodeError [FText "getJsonFrame"]
                 (FJson (VersionHeader code)))
      else
        code_size <- vh_size code ;;
        let _dropped :=
          if code_size >? len input
          then Some (UnknownCodeError [FText "getJsonFrame"]
                       (FJson (VersionHeader code)))
          else None in
        Ok (mkCesrValue (VersionHeader code) (slice input 0 code_size))
  end.

(** [input[0] >> 5]; [undefined >> 5] is 0. *)
Definition tritet_of (input : bytes) : Z :=
  match input with
  | b :: _ => js_shr b 5
  | [] => 0
  end.

Definition getCesrFrame (protocol : CesrProtocol) (input : Input)
  : result CesrValue :=
  input <-
    match input with
    | InString s => Ok (Utf8.encode s)
    | InUint8Array b => Ok b
    | InOther =>
        Throw (TypeError [FText "expected input 'string' or 'Uint8Array'"])
    end ;;
  let tritet := tritet_of input in
  if tritet =? ColdDex_CtB64 then getTextFrame protocol input
  else if tritet =? ColdDex_JSON then getJsonFrame input
  else Throw (UnknownCodeError [FText "getCesrFrame"] (frag_of_first input)).

End Tables.

End Parser.

(** ** The older parser module *)

Module OldParser.

Definition getCesrValue (protocol : CesrProtocol) (input : Input)
  : result CesrValue :=
  '(selector, input) <-
    match input with
    | InString s => Ok (slice s 0 8, Utf8.encode s)
    | InUint8Array b => let tmp := slice b 0 8 in Ok (Utf8.decode tmp, b)
    | InOther =>
        Throw (TypeError [FText "expected input 'string' or 'Uint8Array'"])
    end ;;
  let selectorSize := getSelectorSize protocol selector in
  if selectorSize >? len selector
  then Throw (UnknownCodeError [FText "getCesrValue "; FStr (name protocol)]
                (FStr selector))
  else
    table <- getCodeTable protocol (slice selector 0 selectorSize) ;;
    cs <- codeSize table ;;
    if cs >? len selector
    then Throw (UnknownCodeError [FText "getCesrValue "; FStr (name protocol)]
                  (FStr selector))
    else
      code <- mapCodeHeader table (slice selector 0 cs) ;;
      total <- getTotalLength table code ;;
      if total >? len input
      then Throw (UnknownCodeError [FText "getCesrValue "; FStr (name protocol)]
                    (FJson (DerivationCode code)))
      else
        let value := slice input 0 total in
        (* [!=] where the newer module has [!==]; both operands are numbers *)
        if negb (total =? len value)
        then Throw (UnknownCodeError
                      [FText "getCesrValue "; FStr (name protocol)]
                      (FJson (DerivationCode code)))
        else Ok (mkCesrValue (DerivationCode code) value).

Definition getJsonFrame (input : bytes) : result CesrValue :=
  let versionStrHeader := Utf8.decode (slice input 0 24) in
  match versionStrPattern_exec versionStrHeader with
  | None =>
      Throw (UnknownCodeError [FText "getJsonFrame"] (FStr versionStrHeader))
  | Some versionStr =>
      let code :=
        mkVersionHeader versionStr (slice versionStr 6 10)
          (slice versionStr 0 6) (slice versionStr 10 16) in
      if negb (streq Serials_json (vh_serial code))
      then
        _ <- vh_size code ;;
        Throw (UnknownCodeError [FText "getJsonFrame"]
                 (FJson (VersionHeader code)))
      else
        code_size <- vh_size code ;;
        let _dropped :=
          if code_size >? len input
          then Some (UnknownCodeError [FText "getJsonFrame"]
                       (FJson (VersionHeader code)))
          else None in
        Ok (mkCesrValue (VersionHeader code) (slice input 0 code_size))
  end.

Definition getTextFrame (protocol : CesrProtocol) (input : bytes)
  : result CesrValue :=
  value <- getCesrValue protocol (InUint8Array input) ;;
  match header value with
  | DerivationCode code =>
      if streq (selector code) (str "-V") || streq (selector code) (str "-0V")
      then
        match count code with
        | Some count =>
            let size := count * 4 + header_length (header value) in
            if size >? len input
            then Throw (UnknownCodeError [FText "getTextFrame"]
                          (FJson (header value)))
            else Ok (mkCesrValue (header value) (slice input 0 size))
        | None => Ok (mkCesrValue (header value) (slice input 0 0))
        end
      else Throw (UnknownCodeError [FText "getTextFrame"] (FJson (header value)))
  | VersionHeader _ =>
      Throw (UnknownCodeError [FText "getTextFrame"] (FJson (header value)))
  end.

Definition getCesrFrame (protocol : CesrProtocol) (input : Input)
  : result CesrValue :=
  input <-
    match input with
    | InString s => Ok (Utf8.encode s)
    | InUint8Array b => Ok b
    | InOther =>
        Throw (TypeError [FText "expected input 'string' or 'Uint8Array'"])
    end ;;
  let tritet := Parser.tritet_of input in
  if tritet =? 1 then getTextFrame protocol input
  else if tritet =? 3 then getJsonFrame input
  else Throw (UnknownCodeError [FText "getCesrFrame"] (frag_of_first input)).

End OldParser.

(** ** The stream decoder *)

Module Decoder.

(** A JavaScript object held by a frame or a group, or returned by a
    mapping hook: a decoded value, or anything else. *)
Inductive object : Type :=
| OValue (v : CesrValue)
| OOther (tag : Z).

(** [Frame.valueGetter] is one of the two exported parser functions. *)
Inductive ValueGetter : Type :=
| VG_getCesrValue
| VG_getCesrFrame.

(** [Group]; the chain of [next] references is the tail of a list, its end
    ([null] or [undefined]) the empty list. *)
Record Group : Type := mkGroup
  { g_protocol : option CesrProtocol;
    g_value : object }.

(** [Frame]; [f_end] is [None] for [undefined]. *)
Record Frame : Type := mkFrame
  { f_end : option Z;
    valueGetter : ValueGetter;
    group : list Group;
    f_value : object }.

(** [DecoderState]: the current frame, the frames reached through [next],
    and the cursor [start]. *)
Record DecoderState : Type := mkState
  { currentFrame : Frame;
    next_frames : list Frame;
    start : Z }.

Definition currentGroup (s : DecoderState) : list Group := group (currentFrame s).
Definition s_end (s : DecoderState) : option Z := f_end (currentFrame s).
Definition isEmpty (s : DecoderState) : bool :=
  match next_frames s with [] => true | _ => false end.

Definition new_DecoderState (value : object) : DecoderState :=
  mkState (mkFrame None VG_getCesrFrame [] value) [] 0.

Definition pushFrame (end_ : Z) (value : object) (s : DecoderState)
  : DecoderState :=
  mkState (mkFrame (Some end_) VG_getCesrValue [] value)
    (currentFrame s :: next_frames s) (start s).

Definition popFrame (s : DecoderState) : result DecoderState :=
  match next_frames s with
  | [] => Throw (Error [FText "DecoderState.popFrame"])
  | f :: rest => Ok (mkState f rest (start s))
  end.

Definition set_group (g : list Group) (s : DecoderState) : DecoderState :=
  let f := currentFrame s in
  mkState (mkFrame (f_end f) (valueGetter f) g (f_value f))
    (next_frames s) (start s).

(** The loop of [pushGroup], [n] iterations left. *)
Fixpoint pushGroup_from (n : nat) (protocol : option CesrProtocol)
    (value : object) (g : list Group) : list Group :=
  match n with
  | O => g
  | S n' => pushGroup_from n' protocol value (mkGroup protocol value :: g)
  end.

(** [pushGroup(count, protocol, value)]; with [count] [undefined] the
    loop condition is false at once. *)
Definition pushGroup (count : option Z) (protocol : option CesrProtocol)
    (value : object) (s : DecoderState) : DecoderState :=
  let n := match count with Some c => Z.to_nat c | None => O end in
  set_group (pushGroup_from n protocol value (currentGroup s)) s.

(** [popGroup()]: the group returned, [None] when there is none, and the
    state left. *)
Definition popGroup (s : DecoderState) : option Group * DecoderState :=
  match currentGroup s with
  | g :: rest => (Some g, set_group rest s)
  | [] => (None, s)
  end.

(** The four mapping hooks, which a subclass overrides; the arguments are
    the frame, the group, the value, and the offset [{start, length}]. *)
Record Hooks : Type := mkHooks
  { mapJsonFrame : Frame -> option Group -> CesrValue -> Z -> Z -> object;
    mapCesrFrame : Frame -> option Group -> CesrValue -> Z -> Z -> object;
    mapCesrGroup : Frame -> option Group -> CesrValue -> Z -> Z -> object;
    mapCesrLeaf : Frame -> option Group -> CesrValue -> Z -> Z -> object }.

Definition mapDefault (_ : Frame) (_ : option Group) (code : CesrValue)
    (_ _ : Z) : object := OValue code.

Definition default_hooks : Hooks :=
  mkHooks mapDefault mapDefault mapDefault mapDefault.

(** [CesrDecoder]: the private [#protocol] and the hooks. *)
Record CesrDecoder : Type := mkDecoder
  { d_protocol : CesrProtocol;
    d_hooks : Hooks }.

(** The loop of [nextSlice] over the frames: a frame with nothing left is
    popped, unless it is the last. *)
Fixpoint nextSlice_from (cur : Frame) (rest : list Frame) (start : Z)
    (input : bytes) : bytes * (Frame * list Frame) :=
  let sl :=
    match f_end cur with
    | Some e => slice input start e
    | None => slice_from input start
    end in
  if len sl >? 0 then (sl, (cur, rest))
  else match rest with
       | [] => (sl, (cur, rest))
       | f :: rest' => nextSlice_from f rest' start input
       end.

Definition nextSlice (s : DecoderState) (input : bytes)
  : bytes * DecoderState :=
  let '(sl, (cur, rest)) :=
    nextSlice_from (currentFrame s) (next_frames s) (start s) input in
  (sl, mkState cur rest (start s)).

Section Values.

Variable MatterHards : jsstring -> option Z.
Variable CounterHards : jsstring -> option Z.
Variable CountCodeStart : jsstring.
Variable OpCodeStart : jsstring.

Definition getValue (g : ValueGetter) : CesrProtocol -> Input -> result CesrValue :=
  match g with
  | VG_getCesrValue => Parser.getCesrValue
  | VG_getCesrFrame =>
      Parser.getCesrFrame MatterHards CounterHards CountCodeStart OpCodeStart
  end.

(** The hook that a turn calls. *)
Inductive HookName : Type :=
| JsonFrame
| CesrFrame
| CesrGroup
| CesrLeaf.

(** One turn of the loop of the generator [values], from its head to the
    [yield]: the generator ends, throws, or yields [res], which the hook
    [hook] made of the value [code]; [length_] is what the cursor advances
    by when the generator is resumed.  [serial] and [version] are the two
    local variables. *)
Inductive Turn : Type :=
| Finished (s : DecoderState)
| Thrown (e : exn) (s : DecoderState)
| Yielded (hook : HookName) (code : CesrValue) (res : object) (length_ : Z)
    (s : DecoderState) (serial version : jsstring).

(** The property [serial] of a header, and the truth value of a string
    that may be [undefined]. *)
Definition header_serial (h : Header) : option jsstring :=
  match h with
  | VersionHeader v => Some (vh_serial v)
  | DerivationCode c => serial c
  end.

Definition truthy (o : option jsstring) : bool :=
  match o with
  | Some s => negb (len s =? 0)
  | None => false
  end.

Definition default_str (o : option jsstring) : jsstring :=
  match o with Some s => s | None => [] end.

Definition set_serial_version (c : CesrDerivationCode) (serial version : jsstring)
  : CesrDerivationCode :=
  mkDerivationCode (value c) (selector c) (type_ c) (digits c) (typeName c)
    (leadBytes c) (size c) (count c) (quadlets c) (Some version)
    (index c) (ondex c) (Some serial).

Definition values_turn (this : CesrDecoder) (state : DecoderState)
    (serial version : jsstring) (input : bytes) : Turn :=
  let '(sl, state) := nextSlice state input in
  if len sl =? 0 then Finished state
  else
    let '(group, state) := popGroup state in
    let frame := currentFrame state in
    let protocol :=
      match group with
      | Some (mkGroup (Some p) _) => p
      | _ => d_protocol this
      end in
    match getValue (valueGetter frame) protocol (InUint8Array sl) with
    | Throw e => Thrown e state
    | Ok frameValue =>
        let '(serial, version) :=
          match header frameValue with
          | VersionHeader h => (vh_serial h, vh_proto h)
          | DerivationCode _ => (serial, version)
          end in
        let length_ := cv_length frameValue in
        if truthy (header_serial (header frameValue)) then
          if streq (default_str (header_serial (header frameValue))) Serials_json
          then Yielded JsonFrame frameValue
               (mapJsonFrame (d_hooks this) frame group frameValue
                    (start state) length_)
                 length_ state serial version
          else Thrown (Error [FText "Unsupported serialization type: ";
                              FStr (default_str (header_serial (header frameValue)))])
                 state
        else
          match header frameValue with
          | DerivationCode c =>
              if negb (len (selector c) =? 0) then
                let c := set_serial_version c serial version in
                let frameValue :=
                  mkCesrValue (DerivationCode c) (cv_value frameValue) in
                if isFrame protocol c then
                  let length_ := len (value c) in
                  let res := mapCesrFrame (d_hooks this) frame group frameValue
                               (start state) length_ in
                  Yielded CesrFrame frameValue res length_
                  (pushFrame (start state + cv_length frameValue) res state)
                    serial version
                else if isGroup protocol c then
                  let res := mapCesrGroup (d_hooks this) frame group frameValue
                               (start state) length_ in
                  let p := if hasContext protocol c then getContext protocol c
                           else None in
                  Yielded CesrGroup frameValue res length_ (pushGroup (count c) p res state)
                    serial version
                else
                  Yielded CesrLeaf frameValue
                  (mapCesrLeaf (d_hooks this) frame group frameValue
                       (start state) length_)
                    length_ state serial version
              else Thrown (Error [FText "Unsupported header type: ";
                                  FJson (header frameValue)]) state
          | VersionHeader _ =>
              Thrown (Error [FText "Unsupported header type: ";
                             FJson (header frameValue)]) state
          end
    end.

(** Resuming the generator after a [yield]: [state.start += length]. *)
Definition resume (state : DecoderState) (length_ : Z) : DecoderState :=
  mkState (currentFrame state) (next_frames state) (start state + length_).

(** The values yielded by at most [n] turns, with the state reached. *)
Fixpoint values (n : nat) (this : CesrDecoder) (state : DecoderState)
    (serial version : jsstring) (input : bytes)
  : list object * DecoderState :=
  match n with
  | O => ([], state)
  | S n' =>
      match values_turn this state serial version input with
      | Finished s => ([], s)
      | Thrown _ s => ([], s)
      | Yielded _ _ res length_ s serial version =>
          let '(l, s') := values n' this (resume s length_) serial version input in
          (res :: l, s')
      end
  end.

End Values.

End Decoder.

(** ** Sample tables

    The code tables and the hard-size tables are generated data that the
    sources only import.  The protocol below has a handful of entries, enough
    to run the parser and the decoder on concrete streams. *)

Module Sample.

Definition is_letter (c : Z) : bool :=
  ((65 <=? c) && (c <=? 90)) || ((97 <=? c) && (c <=? 122)).

(** Hard sizes of matter codes by first character: a letter has a
    one-character code, [0 4 5 6] a two-character code, [1 2 3 7 8 9] a
    four-character code. *)
Definition MatterHards (first : jsstring) : option Z :=
  match first with
  | [c] =>
      if is_letter c then Some 1
      else if (c =? 48) || (c =? 52) || (c =? 53) || (c =? 54) then Some 2
      else if (49 <=? c) && (c <=? 57) then Some 4
      else None
  | _ => None
  end.

(** Hard sizes of counter codes by the first two characters. *)
Definition CounterHards (first : jsstring) : option Z :=
  match first with
  | [45; c] => if is_letter c then Some 2 else if c =? 48 then Some 3 else None
  | _ => None
  end.

Definition CountCodeStart : jsstring := str "-".
Definition OpCodeStart : jsstring := str "_".

(** The header of a code of [hs] hard characters followed by digits. *)
Definition plain_header (hs : Z) (counter : bool) (code : jsstring)
  : result CesrDerivationCode :=
  let ds := slice_from code hs in
  n <- (if counter then (v <- Base64.toInt ds ;; Ok (Some v)) else Ok None) ;;
  Ok (mkDerivationCode code (slice code 0 hs) (slice code 0 hs)
        (if counter then Some ds else None) None None None n None None
        None None None).

Definition fixed_table (hs fs ls : Z) : CesrCodeTable :=
  mkCodeTable (Ok hs) (plain_header hs false) (fun _ => Ok fs)
    (mkSizes hs 0 (Some fs) ls).

Definition counter_table (hs ss : Z) : CesrCodeTable :=
  mkCodeTable (Ok (hs + ss)) (plain_header hs true) (fun _ => Ok (hs + ss))
    (mkSizes hs ss (Some (hs + ss)) 0).

(** The table of the variable-size code [4A]: two size characters. *)
Definition variable_table : CesrCodeTable :=
  mkCodeTable (Ok 4) (plain_header 2 true)
    (fun c => match count c with
              | Some n => Ok (4 + 4 * n)
              | None => Throw (UnknownCodeError [FText "Sample.getTotalLength"]
                                 (FStr (value c)))
              end)
    (mkSizes 2 2 None 0).

(** A protocol with a few codes: the digest [E], the short number [M], the
    salt [0A], the variable-size text [4A], the
    lead-byte codes [2___] and [3___], the quadlet counter [-V] and the group
    counters [-A] and [-C]. *)
Definition lookup (sel : jsstring) : result CesrCodeTable :=
  if streq (slice sel 0 1) (str "E") then Ok (fixed_table 1 44 0)
  else if streq (slice sel 0 1) (str "M") then Ok (fixed_table 1 4 0)
  else if streq (slice sel 0 2) (str "0A") then Ok (fixed_table 2 24 0)
  else if streq (slice sel 0 2) (str "4A") then Ok variable_table
  else if streq (slice sel 0 4) (str "2___") then Ok (fixed_table 4 8 1)
  else if streq (slice sel 0 4) (str "3___") then Ok (fixed_table 4 8 2)
  else if streq (slice sel 0 2) (str "-V") then Ok (counter_table 2 2)
  else if streq (slice sel 0 2) (str "-A") then Ok (counter_table 2 2)
  else if streq (slice sel 0 2) (str "-C") then Ok (counter_table 2 2)
  else Throw (UnknownCodeError [FText "Sample.getCodeTable"] (FStr sel)).

Definition is_group (c : CesrDerivationCode) : bool :=
  streq (selector c) (str "-A") || streq (selector c) (str "-C").

Definition is_frame (c : CesrDerivationCode) : bool :=
  streq (selector c) (str "-V").

Definition protocol : CesrProtocol :=
  mkProtocol (str "Sample") (fun _ => 8) lookup is_frame is_group
    (fun _ => false) (fun _ => None).

Definition decoder : Decoder.CesrDecoder :=
  Decoder.mkDecoder protocol Decoder.default_hooks.

(** The 24 characters of a version string window for [KERI10JSON0000fc_],
    written with the codes of the brace, the quotes and the colon. *)
Definition version_window : bytes :=
  [123; 34; 118; 34; 58; 34] ++ str "KERI10JSON0000fc_" ++ [34].

(** The parser and the decoder on the sample tables. *)
Definition getCesrFrame :=
  Parser.getCesrFrame MatterHards CounterHards CountCodeStart OpCodeStart.
Definition fromMatterQB64b :=
  Parser.fromMatterQB64b MatterHards CountCodeStart OpCodeStart.
Definition values_turn :=
  Decoder.values_turn MatterHards CounterHards CountCodeStart OpCodeStart.
Definition values :=
  Decoder.values MatterHards CounterHards CountCodeStart OpCodeStart.

End Sample.

(** ** Definitions used by the statements *)

(** The version header of the window of [KERI10JSON0000fc_]; its digits
    declare 252 bytes. *)
Definition window_header : CesrVersionHeader :=
  mkVersionHeader (str "KERI10JSON0000fc") (str "JSON") (str "KERI10")
    (str "0000fc").

(** A salt [0A] of 16 zero bytes, qualified: 24 characters. *)
Definition salt_stream : bytes := str "0AAAAAAAAAAAAAAAAAAAAAAA".

(** A nested frame of 76 bytes holding the group counter [-A] with count 3
    and three salts. *)
Definition group_stream : bytes :=
  str "-AAD" ++ salt_stream ++ salt_stream ++ salt_stream.

Definition group_state0 : Decoder.DecoderState :=
  Decoder.mkState
    (Decoder.mkFrame (Some 76) Decoder.VG_getCesrValue [] (Decoder.OOther 0))
    [Decoder.mkFrame None Decoder.VG_getCesrFrame [] (Decoder.OOther 0)] 0.

Definition is_sextet (v : Z) : Prop := 0 <= v < 64.

(** The 6-bit values that [btoa] writes, and the number of ['='] it adds. *)
Fixpoint sextets (l : list Z) : list Z :=
  match l with
  | [] => []
  | [a] => [a / 4; a mod 4 * 16]
  | [a; b] => [a / 4; a mod 4 * 16 + b / 16; b mod 16 * 4]
  | a :: b :: c :: rest =>
      a / 4 :: a mod 4 * 16 + b / 16 :: b mod 16 * 4 + c / 64 :: c mod 64
      :: sextets rest
  end.

Fixpoint padn (l : list Z) : nat :=
  match l with
  | [] => 0
  | [_] => 2
  | [_; _] => 1
  | _ :: _ :: _ :: rest => padn rest
  end.

(** What [encodeBase64Url] and [decodeBase64Url] do to one character when
    they move between the two alphabets. *)
Definition enc_unit (c : Z) : Z :=
  let c := if c =? 43 then 45 else c in if c =? 47 then 95 else c.

Definition dec_unit (c : Z) : Z :=
  let c := if c =? 45 then 43 else c in if c =? 95 then 47 else c.

(** A character of the alphabet is ASCII and is neither ['='] nor white
    space, before and after the move to the URL-safe alphabet. *)
Definition plain_unit (c : Z) : bool :=
  (0 <=? c) && (c <? 128) && negb (c =? 61)
  && negb (Base64.is_ascii_whitespace c).


(** The two generic errors of the pad check, told by their message. *)
Definition NonZeroPadBits (e : exn) : Prop :=
  exists rest,
    e = Error (FText "fromMatterQB64b: Non-zeroed pad bits = " :: rest).

Definition NonZeroLeadBytes (e : exn) : Prop :=
  exists rest,
    e = Error (FText "fromMatterQB64b: Non-zeroed lead byte = " :: rest)
    \/ e = Error (FText "fromMatterQB64b: Non-zeroed lead bytes = " :: rest).

(** A salt whose first character behind the code has its high bits set. *)
Definition bad_salt_stream : bytes := str "0A_AAAAAAAAAAAAAAAAAAAAA".

(** The error of [getCesrFrame] for a cold start that it does not support;
    [first] is [input[0]]. *)
Definition UnsupportedColdStart (first : frag) : exn :=
  UnknownCodeError [FText "getCesrFrame"] first.

(** The message of a shortage with its count. *)
Definition Shortage (need : Z) : exn :=
  ShortageError
    [FText "fromMatterQB64b: Need "; FNum need; FText " more characters."]
    None None.

(** The variable-size text [4A] of three zero bytes: size 1, 8 characters. *)
Definition text_stream : bytes := str "4AABAAAA".

Definition is_lower_hex (c : Z) : bool :=
  ((48 <=? c) && (c <=? 57)) || ((97 <=? c) && (c <=? 102)).







(** ** Definitions used by the further properties *)

(** The value of digits read from the left in a base: what [toInt] and
    [readInt] compute when nothing overflows. *)
Definition digits_value (base : Z) (ds : list Z) : Z :=
  fold_left (fun a d => a * base + d) ds 0.

(** The character of a 6-bit value in the alphabet of [Base64]. *)
Definition b64_digit (v : Z) : Z := nth (Z.to_nat v) Base64.BASE64 0.

Definition is_url_safe (c : Z) : bool := negb (indexOf c Base64.BASE64 0 =? -1).

(** The abstract class [CesrProtocol] of [cesr.js], with the members that a
    subclass overrides as the class has them. *)
Definition CesrProtocol_base : CesrProtocol :=
  mkProtocol (str "CesrProtocol") (fun _selector => 1)
    (fun selector =>
       Throw (UnknownCodeError
                [FStr (str "CesrProtocol"); FText ".getCodeTable"]
                (FStr selector)))
    (fun _ => false) (fun _ => false) (fun _ => false) (fun _ => None).

(** [CesrSchemaProtocol.getSelectorSize] of [cesr-schema.js]. *)
Definition CesrSchemaProtocol_getSelectorSize (_selector : jsstring) : Z := 8.

(** The bytes that the parser functions read from their input. *)
Definition input_bytes (input : Input) : bytes :=
  match input with
  | InString s => Utf8.encode s
  | InUint8Array b => b
  | InOther => []
  end.

Definition is_UnknownCodeError (e : exn) : Prop :=
  exists msg code, e = UnknownCodeError msg code.

(** Sizes as the comment in [fromMatterQB64b] assumes them: no negative
    size, at most five size characters (so that their number stays below
    2^31), and a full size that holds the code. *)
Definition sane_sizes (s : Sizes) : Prop :=
  0 <= hs s /\ 0 <= ss s <= 5
  /\ match fs s with Some f => hs s + ss s <= f | None => True end.


(** [nextSlice] as the source writes it, a loop that calls [popFrame];
    [fuel] bounds the turns of the loop, [None] is a loop that has not
    returned within them. *)
Fixpoint nextSlice_loop (fuel : nat) (state : Decoder.DecoderState)
    (input : bytes) : option (result (bytes * Decoder.DecoderState)) :=
  match fuel with
  | O => None
  | S fuel' =>
      let sl :=
        match Decoder.s_end state with
        | Some e => slice input (Decoder.start state) e
        | None => slice_from input (Decoder.start state)
        end in
      if len sl >? 0 then Some (Ok (sl, state))
      else if Decoder.isEmpty state then Some (Ok (sl, state))
      else
        match Decoder.popFrame state with
        | Ok state' => nextSlice_loop fuel' state' input
        | Throw e => Some (Throw e)
        end
  end.

(** The frame that [new DecoderState(value)] starts with. *)
Definition root_frame (value : Decoder.object) : Decoder.Frame :=
  Decoder.currentFrame (Decoder.new_DecoderState value).

(** The window of a version string that declares a size of 0. *)
Definition zero_window : bytes :=
  [123; 34; 118; 34; 58; 34] ++ str "KERI10JSON000000_" ++ [34].

(** The selector that [getCesrValue] reads: the first eight code units of
    a string, or of the text of the first eight bytes. *)
Definition input_selector (input : Input) : jsstring :=
  match input with
  | InString s => slice s 0 8
  | InUint8Array b => Utf8.decode (slice b 0 8)
  | InOther => []
  end.

(** * Properties *)

(** ** Checks of the embedding on the source's own examples *)

Example hex_toInt_0000fc : Hex.toInt (str "0000fc") = Ok 252.
Proof. reflexivity. Qed.

Example hex_encode_ex : Hex.encode [0; 15; 255; 171] = str "000fffab".
Proof. reflexivity. Qed.

Example base64_toInt_ex : Base64.toInt (str "AB") = Ok 1.
Proof. reflexivity. Qed.

Example base64_encode_ex :
  Base64.encodeBase64Url [255; 239; 190; 1] true = Ok (str "_---AQ").
Proof. reflexivity. Qed.

Example base64_decode_ex :
  Base64.decodeBase64Url (str "_---AQ") = Ok [255; 239; 190; 1].
Proof. reflexivity. Qed.

Example utf8_decode_ex :
  Utf8.decode [0x7B; 0xC3; 0xA9; 0xFF; 0xF0; 0x9F; 0x98; 0x80] =
  [0x7B; 0xE9; 0xFFFD; 0xD83D; 0xDE00].
Proof. reflexivity. Qed.

Example utf8_encode_ex :
  Utf8.encode [0x7B; 0xE9; 0xD83D; 0xDE00; 0xD800] =
  [0x7B; 0xC3; 0xA9; 0xF0; 0x9F; 0x98; 0x80; 0xEF; 0xBF; 0xBD].
Proof. reflexivity. Qed.

(** ** Lists and slices *)

Lemma len_nonneg {A} (l : list A) : 0 <= len l.
Proof. unfold len. lia. Qed.

Lemma len_app {A} (l1 l2 : list A) : len (l1 ++ l2) = len l1 + len l2.
Proof. unfold len. rewrite length_app. lia. Qed.

Lemma len_cons {A} (a : A) (l : list A) : len (a :: l) = 1 + len l.
Proof. unfold len. simpl List.length. lia. Qed.

Lemma len_repeat {A} (a : A) (n : nat) : len (repeat a n) = Z.of_nat n.
Proof. unfold len. now rewrite repeat_length. Qed.

Lemma slice_0 {A} (l : list A) (n : Z) :
  0 <= n -> slice l 0 n = firstn (Z.to_nat n) l.
Proof.
  intros Hn. unfold slice, rel_index.
  pose proof (len_nonneg l) as Hl.
  replace (0 <? 0) with false by reflexivity.
  destruct (n <? 0) eqn:E; [apply Z.ltb_lt in E; lia|].
  rewrite (Z.min_l 0) by lia. simpl skipn. rewrite Z.sub_0_r.
  destruct (Z.le_gt_cases n (len l)).
  - now rewrite Z.min_l by lia.
  - rewrite Z.min_r by lia. unfold len in *.
    rewrite Nat2Z.id, firstn_all. symmetry. apply firstn_all2. lia.
Qed.

Lemma slice_from_nonneg {A} (l : list A) (n : Z) :
  0 <= n -> slice_from l n = skipn (Z.to_nat n) l.
Proof.
  intros Hn. unfold slice_from, slice, rel_index.
  pose proof (len_nonneg l) as Hl.
  destruct (n <? 0) eqn:E; [apply Z.ltb_lt in E; lia|].
  destruct (len l <? 0) eqn:E'; [apply Z.ltb_lt in E'; lia|].
  rewrite (Z.min_l (len l)) by lia.
  destruct (Z.le_gt_cases n (len l)).
  - rewrite Z.min_l by lia. apply firstn_all2.
    rewrite length_skipn. unfold len in *. lia.
  - rewrite Z.min_r by lia. rewrite Z.sub_diag. simpl firstn.
    symmetry. apply skipn_all2. unfold len in *. lia.
Qed.

Lemma slice_from_0 {A} (l : list A) : slice_from l 0 = l.
Proof. now rewrite slice_from_nonneg by lia. Qed.

Lemma firstn_len {A} (l : list A) (n : Z) :
  0 <= n <= len l -> len (firstn (Z.to_nat n) l) = n.
Proof. intros H. unfold len in *. rewrite length_firstn. lia. Qed.

Lemma slice_app_prefix {A} (w rest : list A) :
  slice (w ++ rest) 0 (len w) = w.
Proof.
  rewrite slice_0 by apply len_nonneg. unfold len. rewrite Nat2Z.id.
  rewrite firstn_app, Nat.sub_diag, firstn_all. simpl. apply app_nil_r.
Qed.

Lemma to_int32_small (z : Z) :
  -2147483648 <= z < 2147483648 -> to_int32 z = z.
Proof.
  intros H. unfold to_int32.
  change (2 ^ 31) with 2147483648. change (2 ^ 32) with 4294967296.
  rewrite Z.mod_small; lia.
Qed.

(** ** The two parser modules agree *)

(** C10.  The older and the newer parser module agree: for every protocol
    and every input, their [getCesrValue] return the same value (the same
    header and the same bytes) or throw the same error, and so do their
    [getJsonFrame] for every input. *)
Theorem parser_modules_agree :
  (forall (protocol : CesrProtocol) (input : Input),
      OldParser.getCesrValue protocol input = Parser.getCesrValue protocol input)
  /\ (forall input : bytes,
         OldParser.getJsonFrame input = Parser.getJsonFrame input).
Proof.
  split.
  - intros protocol input.
    unfold OldParser.getCesrValue, Parser.getCesrValue.
    destruct input as [s | b |]; reflexivity.
  - intros input.
    unfold OldParser.getJsonFrame, Parser.getJsonFrame.
    destruct (versionStrPattern_exec _); reflexivity.
Qed.

(** ** Cold start *)

Section ColdStart.

Variable MatterHards : jsstring -> option Z.
Variable CounterHards : jsstring -> option Z.
Variable CountCodeStart : jsstring.
Variable OpCodeStart : jsstring.

Let getCesrFrame :=
  Parser.getCesrFrame MatterHards CounterHards CountCodeStart OpCodeStart.
Let values_turn :=
  Decoder.values_turn MatterHards CounterHards CountCodeStart OpCodeStart.

(** The tritet of a byte is one of the eight values of the codex. *)
Lemma tritet_range (b : Z) (rest : bytes) :
  is_byte b -> 0 <= Parser.tritet_of (b :: rest) <= 7.
Proof.
  unfold is_byte, Parser.tritet_of, js_shr. intros Hb.
  rewrite to_int32_small by lia.
  replace (5 mod 32) with 5 by reflexivity.
  rewrite Z.shiftr_div_pow2 by lia.
  change (2 ^ 5) with 32.
  assert (b / 32 < 8) by (apply Z.div_lt_upper_bound; lia).
  assert (0 <= b / 32) by (apply Z.div_pos; lia).
  lia.
Qed.

Lemma nextSlice_start (s : Decoder.DecoderState) (input : bytes) :
  Decoder.start (snd (Decoder.nextSlice s input)) = Decoder.start s.
Proof.
  unfold Decoder.nextSlice.
  destruct (Decoder.nextSlice_from _ _ _ _) as [sl [cur rest]]. reflexivity.
Qed.

Lemma popGroup_start (s : Decoder.DecoderState) :
  Decoder.start (snd (Decoder.popGroup s)) = Decoder.start s.
Proof.
  unfold Decoder.popGroup. destruct (Decoder.currentGroup s); reflexivity.
Qed.

Lemma popGroup_valueGetter (s : Decoder.DecoderState) :
  Decoder.valueGetter (Decoder.currentFrame (snd (Decoder.popGroup s))) =
  Decoder.valueGetter (Decoder.currentFrame s).
Proof.
  unfold Decoder.popGroup. destruct (Decoder.currentGroup s); reflexivity.
Qed.

(** C6.  An input whose first byte has a tritet other than 1 (CESR text
    start) and 3 (JSON start) makes [getCesrFrame] throw its error for an
    unsupported cold start, whether the input is a byte array or a string;
    and a turn of the stream decoder whose frame sniffs such a slice throws
    that error with the cursor where it was: no byte is consumed. *)
Theorem unsupported_cold_start :
  forall (protocol : CesrProtocol) (input : bytes),
    Parser.tritet_of input <> 1 ->
    Parser.tritet_of input <> 3 ->
    getCesrFrame protocol (InUint8Array input)
      = Throw (UnsupportedColdStart (frag_of_first input))
    /\ (forall s : jsstring,
           Utf8.encode s = input ->
           getCesrFrame protocol (InString s)
             = Throw (UnsupportedColdStart (frag_of_first input)))
    /\ (forall (this : Decoder.CesrDecoder) (state : Decoder.DecoderState)
               (serial version : jsstring) (stream : bytes),
           fst (Decoder.nextSlice state stream) = input ->
           input <> [] ->
           Decoder.valueGetter
             (Decoder.currentFrame (snd (Decoder.nextSlice state stream)))
             = Decoder.VG_getCesrFrame ->
           exists state',
             values_turn this state serial version stream
               = Decoder.Thrown
                   (UnsupportedColdStart (frag_of_first input)) state'
             /\ Decoder.start state' = Decoder.start state).
Proof.
  intros protocol input H1 H3.
  assert (Hframe : forall p, getCesrFrame p (InUint8Array input)
            = Throw (UnknownCodeError [FText "getCesrFrame"]
                       (frag_of_first input))).
  { intros p. unfold getCesrFrame, Parser.getCesrFrame. simpl bind.
    unfold Parser.ColdDex_CtB64, Parser.ColdDex_JSON.
    destruct (Parser.tritet_of input =? 1) eqn:E1;
      [apply Z.eqb_eq in E1; contradiction|].
    destruct (Parser.tritet_of input =? 3) eqn:E3;
      [apply Z.eqb_eq in E3; contradiction|].
    reflexivity. }
  split; [apply Hframe|]. split.
  - intros s Hs. specialize (Hframe protocol).
    unfold getCesrFrame, Parser.getCesrFrame in *. simpl bind in *.
    rewrite Hs. exact Hframe.
  - intros this state serial version stream Hsl Hne Hvg.
    unfold values_turn, Decoder.values_turn.
    pose proof (nextSlice_start state stream) as Hst.
    destruct (Decoder.nextSlice state stream) as [sl s1].
    simpl in Hsl, Hvg, Hst. subst sl.
    destruct (len input =? 0) eqn:El.
    { apply Z.eqb_eq in El. destruct input; [congruence|].
      rewrite len_cons in El. pose proof (len_nonneg input). lia. }
    pose proof (popGroup_start s1) as Hps.
    pose proof (popGroup_valueGetter s1) as Hpv.
    destruct (Decoder.popGroup s1) as [g s2]. simpl in Hps, Hpv.
    rewrite Hpv, Hvg. unfold Decoder.getValue.
    fold getCesrFrame. rewrite Hframe.
    eexists. split; [reflexivity|]. congruence.
Qed.

End ColdStart.

Lemma unsupported_cold_start_witness :
  Parser.tritet_of [128; 1] <> 1
  /\ Parser.tritet_of [128; 1] <> 3
  /\ Sample.getCesrFrame Sample.protocol (InUint8Array [128; 1])
     = Throw (UnsupportedColdStart (FNum 128)).
Proof.
  split; [vm_compute; lia|]. split; [vm_compute; lia|].
  apply (unsupported_cold_start Sample.MatterHards Sample.CounterHards
           Sample.CountCodeStart Sample.OpCodeStart Sample.protocol [128; 1]);
    vm_compute; lia.
Defined.

(** ** Structured-serialization frames *)

(** C5.  On the 24 bytes of the version string window of
    [KERI10JSON0000fc_], whose header declares 252 bytes, [getJsonFrame]
    does not throw: it returns a value of the 24 bytes there are. *)
Theorem getJsonFrame_short_input_returns :
  vh_size window_header = Ok 252
  /\ len Sample.version_window = 24
  /\ Parser.getJsonFrame Sample.version_window
     = Ok (mkCesrValue (VersionHeader window_header) Sample.version_window).
Proof. repeat split. Qed.

(** A window that matches, with the serialization [JSON] and hexadecimal
    digits: the value is the slice up to the declared size, whatever the
    length of the input. *)
Lemma getJsonFrame_json (input : bytes) (versionStr : jsstring) (n : Z) :
  versionStrPattern_exec (Utf8.decode (slice input 0 24)) = Some versionStr ->
  streq Serials_json (slice versionStr 6 10) = true ->
  Hex.toInt (slice versionStr 10 16) = Ok n ->
  Parser.getJsonFrame input
  = Ok (mkCesrValue
          (VersionHeader
             (mkVersionHeader versionStr (slice versionStr 6 10)
                (slice versionStr 0 6) (slice versionStr 10 16)))
          (slice input 0 n)).
Proof.
  intros Hm Hs Hn. unfold Parser.getJsonFrame. rewrite Hm.
  cbv zeta. simpl vh_serial. rewrite Hs. simpl negb. cbv iota.
  unfold vh_size. simpl vh_digits. rewrite Hn. reflexivity.
Qed.

Section FirstValue.

Variable MatterHards : jsstring -> option Z.
Variable CounterHards : jsstring -> option Z.
Variable CountCodeStart : jsstring.
Variable OpCodeStart : jsstring.

Let values_turn :=
  Decoder.values_turn MatterHards CounterHards CountCodeStart OpCodeStart.

Lemma getJsonFrame_window (rest : bytes) :
  252 <= len (Sample.version_window ++ rest) ->
  Parser.getJsonFrame (Sample.version_window ++ rest)
  = Ok (mkCesrValue (VersionHeader window_header)
          (firstn 252 (Sample.version_window ++ rest))).
Proof.
  intros Hlen.
  rewrite (@getJsonFrame_json (Sample.version_window ++ rest)
             (str "KERI10JSON0000fc") 252).
  - rewrite (slice_0 (Sample.version_window ++ rest)) by lia. reflexivity.
  - change 24 with (len Sample.version_window).
    rewrite slice_app_prefix. reflexivity.
  - reflexivity.
  - reflexivity.
Qed.

(** C2, for inputs that hold the bytes declared.  For every input that
    begins with the version string window of [KERI10JSON0000fc_] (so its
    first tritet is 3) and has at least the 252 bytes that the window
    declares, the first turn of the stream decoder yields what the JSON hook
    makes of a value whose header is the version header with protocol
    [KERI10] and serialization [JSON], over the first 252 bytes, and the
    cursor then advances by 252. *)
Theorem first_value_version_header :
  forall (this : Decoder.CesrDecoder) (value : Decoder.object) (rest : bytes),
    let input := Sample.version_window ++ rest in
    let root := Decoder.mkFrame None Decoder.VG_getCesrFrame [] value in
    let frameValue :=
      mkCesrValue (VersionHeader window_header) (firstn 252 input) in
    252 <= len input ->
    Parser.tritet_of input = 3
    /\ vh_proto window_header = str "KERI10"
    /\ vh_serial window_header = str "JSON"
    /\ cv_length frameValue = 252
    /\ values_turn this (Decoder.new_DecoderState value) (str "JSON") [] input
       = Decoder.Yielded Decoder.JsonFrame frameValue
           (Decoder.mapJsonFrame (Decoder.d_hooks this) root None frameValue
              0 252)
           252 (Decoder.new_DecoderState value) (str "JSON") (str "KERI10")
    /\ Decoder.start
         (Decoder.resume (Decoder.new_DecoderState value) 252) = 252.
Proof.
  intros this value rest input root frameValue Hlen.
  assert (Htri : Parser.tritet_of input = 3) by reflexivity.
  assert (Hjson : Parser.getJsonFrame input = Ok frameValue)
    by (apply getJsonFrame_window; exact Hlen).
  clearbody input.
  assert (Hcv : cv_length frameValue = 252).
  { change (len (firstn (Z.to_nat 252) input) = 252). apply firstn_len. lia. }
  repeat split; try assumption.
  unfold values_turn, Decoder.values_turn, Decoder.nextSlice.
  unfold Decoder.new_DecoderState.
  cbv [Decoder.currentFrame Decoder.next_frames Decoder.start
       Decoder.nextSlice_from Decoder.f_end].
  rewrite slice_from_0.
  destruct (len input >? 0) eqn:Epos; [|rewrite Z.gtb_ltb in Epos; apply Z.ltb_ge in Epos; lia].
  destruct (len input =? 0) eqn:Ez; [apply Z.eqb_eq in Ez; lia|].
  cbv [Decoder.popGroup Decoder.currentGroup Decoder.currentFrame Decoder.group
       Decoder.valueGetter Decoder.getValue Parser.getCesrFrame bind].
  unfold Parser.ColdDex_CtB64, Parser.ColdDex_JSON.
  rewrite Htri. cbv [Z.eqb Pos.eqb]. rewrite Hjson.
  change (header frameValue) with (VersionHeader window_header).
  cbv iota beta. rewrite Hcv. reflexivity.
Qed.

End FirstValue.

Lemma first_value_version_header_witness :
  252 <= len (Sample.version_window ++ repeat 32 228)
  /\ Sample.values_turn Sample.decoder
       (Decoder.new_DecoderState (Decoder.OOther 0)) (str "JSON") []
       (Sample.version_window ++ repeat 32 228)
     = Decoder.Yielded Decoder.JsonFrame
         (mkCesrValue (VersionHeader window_header)
            (Sample.version_window ++ repeat 32 228))
         (Decoder.OValue
            (mkCesrValue (VersionHeader window_header)
               (Sample.version_window ++ repeat 32 228)))
         252 (Decoder.new_DecoderState (Decoder.OOther 0))
         (str "JSON") (str "KERI10").
Proof.
  split; [vm_compute; discriminate|].
  apply (@first_value_version_header Sample.MatterHards Sample.CounterHards
           Sample.CountCodeStart Sample.OpCodeStart Sample.decoder
           (Decoder.OOther 0) (repeat 32 228)).
  vm_compute; discriminate.
Defined.

(** C2 on a short input: on the window alone the first value
    covers 24 bytes and the cursor advances by 24, not by 252. *)
Lemma first_value_short_input :
  Parser.tritet_of Sample.version_window = 3
  /\ Sample.values_turn Sample.decoder
       (Decoder.new_DecoderState (Decoder.OOther 0)) (str "JSON") []
       Sample.version_window
     = Decoder.Yielded Decoder.JsonFrame
         (mkCesrValue (VersionHeader window_header) Sample.version_window)
         (Decoder.OValue
            (mkCesrValue (VersionHeader window_header) Sample.version_window))
         24 (Decoder.new_DecoderState (Decoder.OOther 0))
         (str "JSON") (str "KERI10")
  /\ 24 <> 252.
Proof. repeat split. discriminate. Qed.

(** ** Hex *)

(** C7, on the inputs where the code departs from it.  [decode] reads
    [substring(i, 2)] where the pair at [i] is [substring(i, i + 2)], and
    [parseInt] does not reject a bad digit: the second byte of ["0a0b"] is
    read from the empty string and stored as 0, and ["0g"] decodes to the
    byte 0.  ["0f"] decodes to the byte 15 and ["abc"] is rejected for its
    length. *)
Theorem hex_decode_departs :
  Hex.decode (str "0a0b") = Ok [10; 0]
  /\ Hex.decode (str "0a0b0c") = Ok [10; 0; 11]
  /\ Hex.decode (str "0g") = Ok [0]
  /\ Hex.decode (str "0f") = Ok [15]
  /\ Hex.decode (str "abc") = Throw (Error [FText "Invalid hex string"]).
Proof. repeat split. Qed.

(** ** The group stack *)










Section Groups.

Variable MatterHards : jsstring -> option Z.
Variable CounterHards : jsstring -> option Z.
Variable CountCodeStart : jsstring.
Variable OpCodeStart : jsstring.

Let values_turn :=
  Decoder.values_turn MatterHards CounterHards CountCodeStart OpCodeStart.







End Groups.



(** ** Base64 *)

(** Induction on a list three elements at a time, the way Base64 reads
    bytes. *)
Lemma list_ind3 {A} (P : list A -> Prop) :
  P [] ->
  (forall a, P [a]) ->
  (forall a b, P [a; b]) ->
  (forall a b c l, P l -> P (a :: b :: c :: l)) ->
  forall l, P l.
Proof.
  intros H0 H1 H2 H3 l.
  assert (H : P l /\ (forall a, P (a :: l)) /\ (forall a b, P (a :: b :: l))).
  { induction l as [|x l IH].
    - auto.
    - destruct IH as (IH0 & IH1 & IH2). auto. }
  apply H.
Qed.

(** A property checked on every number below [n]. *)
Lemma below_forallb (P : Z -> bool) (n : nat) :
  forallb P (map Z.of_nat (seq 0 n)) = true ->
  forall v, 0 <= v < Z.of_nat n -> P v = true.
Proof.
  intros H v Hv. rewrite forallb_forall in H. apply H.
  apply in_map_iff. exists (Z.to_nat v). split; [lia|].
  apply in_seq. lia.
Qed.

Lemma btoa_units_sextets (l : list Z) :
  Base64.btoa_units l = map Base64.std_char (sextets l) ++ repeat 61 (padn l).
Proof.
  induction l as [|a|a b|a b c l IH] using list_ind3; try reflexivity.
  cbn [Base64.btoa_units sextets padn map app]. now rewrite IH.
Qed.

Lemma sextets_range (l : list Z) :
  Forall is_byte l -> Forall is_sextet (sextets l).
Proof.
  unfold is_byte, is_sextet.
  induction l as [|a|a b|a b c l IH] using list_ind3; intros H; cbn [sextets].
  - constructor.
  - inversion_clear H. repeat constructor; Z.div_mod_to_equations; lia.
  - inversion_clear H as [|? ? Ha H']. inversion_clear H' as [|? ? Hb _].
    repeat constructor; Z.div_mod_to_equations; lia.
  - inversion_clear H as [|? ? Ha H']. inversion_clear H' as [|? ? Hb H''].
    inversion_clear H'' as [|? ? Hc Hl].
    repeat (constructor; [Z.div_mod_to_equations; lia|]). auto.
Qed.

Lemma atob_units_sextets (l : list Z) :
  Forall is_byte l -> Base64.atob_units (sextets l) = l.
Proof.
  unfold is_byte.
  induction l as [|a|a b|a b c l IH] using list_ind3; intros H.
  - reflexivity.
  - inversion_clear H. cbn [sextets Base64.atob_units]. f_equal.
    Z.div_mod_to_equations; lia.
  - inversion_clear H as [|? ? Ha H']. inversion_clear H' as [|? ? Hb _].
    cbn [sextets Base64.atob_units].
    f_equal; [|f_equal]; Z.div_mod_to_equations; lia.
  - inversion_clear H as [|? ? Ha H']. inversion_clear H' as [|? ? Hb H''].
    inversion_clear H'' as [|? ? Hc Hl].
    cbn [sextets Base64.atob_units]. rewrite (IH Hl).
    f_equal; [|f_equal; [|f_equal]]; Z.div_mod_to_equations; lia.
Qed.

Lemma sextets_len (l : list Z) :
  (padn l <= 2)%nat
  /\ exists q, 0 <= q /\ len (sextets l) + Z.of_nat (padn l) = 4 * q.
Proof.
  induction l as [|a|a b|a b c l IH] using list_ind3.
  - split; [simpl; lia|]. exists 0. split; [lia|reflexivity].
  - split; [simpl; lia|]. exists 1. split; [lia|reflexivity].
  - split; [simpl; lia|]. exists 1. split; [lia|reflexivity].
  - destruct IH as [Hp (q & Hq & E)]. split; [exact Hp|].
    exists (q + 1). split; [lia|].
    cbn [sextets padn]. rewrite !len_cons. lia.
Qed.

Lemma replace_enc (s : jsstring) :
  replace_all 47 95 (replace_all 43 45 s) = map enc_unit s.
Proof. unfold replace_all. rewrite map_map. reflexivity. Qed.

Lemma replace_dec (s : jsstring) :
  replace_all 95 47 (replace_all 45 43 s) = map dec_unit s.
Proof. unfold replace_all. rewrite map_map. reflexivity. Qed.

Lemma std_value_char (v : Z) :
  is_sextet v -> Base64.std_value (Base64.std_char v) = Some v.
Proof.
  intros Hv.
  pose proof (@below_forallb
    (fun v => match Base64.std_value (Base64.std_char v) with
              | Some w => w =? v
              | None => false
              end) 64 eq_refl v Hv) as H.
  cbv beta in H. destruct (Base64.std_value _) as [w|]; [|discriminate].
  apply Z.eqb_eq in H. now subst.
Qed.

Lemma dec_enc_char (v : Z) :
  is_sextet v -> dec_unit (enc_unit (Base64.std_char v)) = Base64.std_char v.
Proof.
  intros Hv. apply Z.eqb_eq.
  exact (@below_forallb
    (fun v => dec_unit (enc_unit (Base64.std_char v)) =? Base64.std_char v)
    64 eq_refl v Hv).
Qed.

Lemma std_char_plain (v : Z) :
  is_sextet v -> plain_unit (Base64.std_char v) = true.
Proof.
  intros Hv.
  exact (@below_forallb (fun v => plain_unit (Base64.std_char v)) 64 eq_refl v Hv).
Qed.

Lemma enc_char_plain (v : Z) :
  is_sextet v -> plain_unit (enc_unit (Base64.std_char v)) = true.
Proof.
  intros Hv.
  exact (@below_forallb (fun v => plain_unit (enc_unit (Base64.std_char v)))
           64 eq_refl v Hv).
Qed.

Lemma plain_unit_spec (c : Z) :
  plain_unit c = true ->
  is_ascii c /\ c <> 61 /\ Base64.is_ascii_whitespace c = false.
Proof.
  unfold plain_unit, is_ascii. intros H.
  apply andb_prop in H as [H Hw]. apply andb_prop in H as [H He].
  apply andb_prop in H as [H0 H1].
  apply Z.leb_le in H0. apply Z.ltb_lt in H1.
  apply negb_true_iff in He, Hw. apply Z.eqb_neq in He. auto.
Qed.

Lemma std_values_chars (vs : list Z) :
  Forall is_sextet vs ->
  Base64.std_values (map Base64.std_char vs) = Some vs.
Proof.
  induction 1 as [|v vs Hv _ IH]; simpl.
  - reflexivity.
  - now rewrite (std_value_char Hv), IH.
Qed.

Lemma filter_plain (s : jsstring) :
  Forall (fun c => Base64.is_ascii_whitespace c = false) s ->
  filter (fun c => negb (Base64.is_ascii_whitespace c)) s = s.
Proof.
  induction 1 as [|c s Hc _ IH]; simpl.
  - reflexivity.
  - now rewrite Hc, IH.
Qed.

Lemma rev_repeat_unit {A} (a : A) (n : nat) : rev (repeat a n) = repeat a n.
Proof.
  induction n as [|n IH]; simpl.
  - reflexivity.
  - rewrite IH. symmetry. apply repeat_cons.
Qed.

Lemma remove_padding_body (body : jsstring) (k : nat) :
  Forall (fun c => c <> 61) body ->
  (k <= 2)%nat ->
  Base64.remove_padding (body ++ repeat 61 k) = body.
Proof.
  intros Hb Hk. unfold Base64.remove_padding.
  rewrite rev_app_distr, rev_repeat_unit.
  assert (Hr : Forall (fun c => c <> 61) (rev body)) by now apply Forall_rev.
  assert (Hbody : rev (rev body) = body) by apply rev_involutive.
  destruct k as [|[|[|k]]]; [| | |lia]; cbn [repeat app].
  - rewrite app_nil_r.
    destruct (rev body) as [|a [|b r]].
    + reflexivity.
    + inversion_clear Hr as [|? ? Ha _]. apply Z.eqb_neq in Ha. now rewrite Ha.
    + inversion_clear Hr as [|? ? Ha _]. apply Z.eqb_neq in Ha. now rewrite Ha.
  - destruct (rev body) as [|b r].
    + simpl in Hbody. subst body. reflexivity.
    + inversion_clear Hr as [|? ? Hb' _]. apply Z.eqb_neq in Hb'.
      rewrite Hb'. simpl. exact Hbody.
  - simpl. exact Hbody.
Qed.

Lemma drop_eq_repeat (k : nat) (r : jsstring) :
  Base64.drop_eq (repeat 61 k ++ r) = Base64.drop_eq r.
Proof. induction k as [|k IH]; simpl; auto. Qed.

Lemma strip_trailing_eq_body (body : jsstring) (k : nat) :
  Forall (fun c => c <> 61) body ->
  Base64.strip_trailing_eq (body ++ repeat 61 k) = body.
Proof.
  intros Hb. unfold Base64.strip_trailing_eq.
  rewrite rev_app_distr, rev_repeat_unit, drop_eq_repeat.
  assert (Hr : Forall (fun c => c <> 61) (rev body)) by now apply Forall_rev.
  destruct (rev body) as [|a r] eqn:E.
  - simpl. rewrite <- (rev_involutive body), E. reflexivity.
  - inversion_clear Hr as [|? ? Ha _]. apply Z.eqb_neq in Ha.
    simpl. rewrite Ha. rewrite <- E. apply rev_involutive.
Qed.

(** [atob] undoes [btoa]. *)
Lemma atob_padded (l : list Z) :
  Forall is_byte l ->
  Base64.atob (map Base64.std_char (sextets l) ++ repeat 61 (padn l)) = Ok l.
Proof.
  intros Hl. unfold Base64.atob.
  pose proof (sextets_range Hl) as Hs.
  destruct (sextets_len l) as [Hp (q & Hq & Hlen)].
  assert (Hplain : Forall (fun c => plain_unit c = true)
                     (map Base64.std_char (sextets l))).
  { apply Forall_map. eapply Forall_impl; [|exact Hs].
    intros v Hv. now apply std_char_plain. }
  rewrite filter_plain.
  2:{ apply Forall_app. split.
      - eapply Forall_impl; [|exact Hplain].
        intros c Hc. now apply plain_unit_spec in Hc.
      - apply Forall_forall. intros c Hc. apply repeat_spec in Hc. now subst. }
  assert (Hl4 : len (map Base64.std_char (sextets l) ++ repeat 61 (padn l))
                = 4 * q).
  { rewrite len_app, len_repeat. unfold len in *. rewrite length_map. exact Hlen. }
  rewrite Hl4.
  replace (4 * q mod 4) with 0 by (symmetry; rewrite Z.mul_comm; apply Z.mod_mul; lia).
  simpl (0 =? 0). cbv iota.
  rewrite remove_padding_body; [| |exact Hp].
  2:{ eapply Forall_impl; [|exact Hplain].
      intros c Hc. now apply plain_unit_spec in Hc. }
  assert (Hm : len (map Base64.std_char (sextets l)) mod 4 <> 1).
  { unfold len in *. rewrite length_map.
    destruct (padn l) as [|[|[|k]]]; [| | |lia];
      Z.div_mod_to_equations; lia. }
  apply Z.eqb_neq in Hm. rewrite Hm.
  rewrite (std_values_chars Hs). now rewrite atob_units_sextets.
Qed.

(** [TextEncoder] and [TextDecoder] leave ASCII as it is. *)
Lemma utf8_encode_ascii (s : jsstring) :
  Forall is_ascii s -> Utf8.encode s = s.
Proof.
  unfold is_ascii. induction 1 as [|c s Hc _ IH]; [reflexivity|].
  cbn [Utf8.encode]. unfold Utf8.is_high, Utf8.is_low, Utf8.utf8_of_cp.
  destruct (0xD800 <=? c) eqn:E1; [apply Z.leb_le in E1; lia|].
  destruct (0xDC00 <=? c) eqn:E2; [apply Z.leb_le in E2; lia|].
  destruct (c <? 0x80) eqn:E3; [|apply Z.ltb_ge in E3; lia].
  cbn [andb app]. now rewrite IH.
Qed.

Lemma utf8_code_points_ascii (bs : bytes) :
  Forall is_ascii bs -> Utf8.code_points Utf8.d0 bs = bs.
Proof.
  unfold is_ascii. induction 1 as [|b bs Hb _ IH]; [reflexivity|].
  cbn [Utf8.code_points]. unfold Utf8.dstep. simpl (Utf8.d_needed Utf8.d0 =? 0).
  cbv iota. unfold Utf8.lead.
  destruct (b <=? 0x7F) eqn:E; [|apply Z.leb_gt in E; lia].
  cbn [app]. now rewrite IH.
Qed.

Lemma utf8_decode_ascii (bs : bytes) :
  Forall is_ascii bs -> Utf8.decode bs = bs.
Proof.
  intros H. unfold Utf8.decode. rewrite (utf8_code_points_ascii H).
  assert (Hflat : forall l, Forall is_ascii l -> flat_map Utf8.utf16_of_cp l = l).
  { induction 1 as [|c l Hc _ IH]; [reflexivity|].
    change (flat_map Utf8.utf16_of_cp (c :: l))
      with (Utf8.utf16_of_cp c ++ flat_map Utf8.utf16_of_cp l).
    rewrite IH. unfold Utf8.utf16_of_cp. unfold is_ascii in Hc.
    destruct (c <? 0x10000) eqn:E; [|apply Z.ltb_ge in E; lia].
    reflexivity. }
  destruct H as [|b bs Hb Hbs]; [reflexivity|].
  unfold is_ascii in Hb.
  destruct (b =? 0xFEFF) eqn:E; [apply Z.eqb_eq in E; lia|].
  apply Hflat. now constructor.
Qed.

(** The text of [encodeBase64Url]: the URL-safe characters of the 6-bit
    values, and the padding unless it is stripped. *)
Lemma encodeBase64Url_text (b : bytes) (strip : bool) :
  Forall is_byte b ->
  Base64.encodeBase64Url b strip
  = Ok (map (fun v => enc_unit (Base64.std_char v)) (sextets b)
          ++ (if strip then [] else repeat 61 (padn b))).
Proof.
  intros Hb. unfold Base64.encodeBase64Url, Base64.btoa.
  replace (forallb (fun c => c <=? 255) b) with true.
  2:{ symmetry. apply forallb_forall. intros c Hc.
      rewrite Forall_forall in Hb. specialize (Hb c Hc).
      unfold is_byte in Hb. apply Z.leb_le. lia. }
  cbn [bind]. rewrite replace_enc, btoa_units_sextets, map_app, map_map.
  assert (Hrep : map enc_unit (repeat 61 (padn b)) = repeat 61 (padn b)).
  { induction (padn b) as [|k IH]; [reflexivity|]. simpl. now rewrite IH. }
  rewrite Hrep. destruct strip; [|reflexivity].
  rewrite strip_trailing_eq_body, app_nil_r; [reflexivity|].
  apply Forall_map. eapply Forall_impl; [|exact (sextets_range Hb)].
  intros v Hv. now destruct (plain_unit_spec _ (enc_char_plain Hv)) as (_ & H & _).
Qed.

Lemma decodeBase64Url_text (b : bytes) (strip : bool) :
  Forall is_byte b ->
  Base64.decodeBase64Url
    (map (fun v => enc_unit (Base64.std_char v)) (sextets b)
       ++ (if strip then [] else repeat 61 (padn b)))
  = Ok b.
Proof.
  intros Hb. unfold Base64.decodeBase64Url.
  pose proof (sextets_range Hb) as Hs.
  destruct (sextets_len b) as [Hp (q & Hq & Hlen)].
  rewrite replace_dec, map_app, map_map.
  assert (Hbody : map (fun v => dec_unit (enc_unit (Base64.std_char v))) (sextets b)
                  = map Base64.std_char (sextets b)).
  { apply map_ext_in. intros v Hv. apply dec_enc_char.
    rewrite Forall_forall in Hs. now apply Hs. }
  rewrite Hbody.
  assert (Hrep : forall k, map dec_unit (repeat 61 k) = repeat 61 k).
  { induction k as [|k IH]; [reflexivity|]. simpl. now rewrite IH. }
  assert (Hl : len (map Base64.std_char (sextets b)) = len (sextets b)).
  { unfold len. now rewrite length_map. }
  unfold js_rem, repeat_unit.
  destruct strip.
  - cbn [map]. rewrite app_nil_r, Hl.
    rewrite Z.rem_mod_nonneg by (pose proof (len_nonneg (sextets b)); lia).
    replace (if 0 <? len (sextets b) mod 4
             then 4 - len (sextets b) mod 4 else 0)
      with (Z.of_nat (padn b)).
    2:{ destruct (0 <? len (sextets b) mod 4) eqn:E;
          [apply Z.ltb_lt in E | apply Z.ltb_ge in E];
          destruct (padn b) as [|[|[|k]]]; try lia;
          Z.div_mod_to_equations; lia. }
    rewrite Nat2Z.id. cbn [bind].
    rewrite (atob_padded Hb). reflexivity.
  - rewrite Hrep, len_app, len_repeat, Hl, Hlen.
    rewrite Z.rem_mod_nonneg by lia.
    replace (4 * q mod 4) with 0
      by (symmetry; rewrite Z.mul_comm; apply Z.mod_mul; lia).
    simpl (0 <? 0). cbv iota. simpl (repeat 61 (Z.to_nat 0)).
    rewrite app_nil_r. cbn [bind]. rewrite (atob_padded Hb). reflexivity.
Qed.

Lemma std_values_none (c : Z) (d : jsstring) :
  In c d -> Base64.std_value c = None -> Base64.std_values d = None.
Proof.
  intros Hin Hc. induction d as [|x d IH]; [destruct Hin|].
  simpl. destruct Hin as [->|Hin].
  - now rewrite Hc.
  - rewrite (IH Hin). now destruct (Base64.std_value x).
Qed.






(** *** What [decodeBase64Url] returns *)

Lemma indexOf_range (c : Z) (s : jsstring) :
  forall i, indexOf c s i = -1 \/ i <= indexOf c s i < i + len s.
Proof.
  induction s as [|x s IH]; intros i; simpl.
  - now left.
  - rewrite len_cons. pose proof (len_nonneg s).
    destruct (x =? c); [right; lia|].
    destruct (IH (i + 1)) as [H1|H1]; [now left|right; lia].
Qed.

Lemma std_value_range (c v : Z) :
  Base64.std_value c = Some v -> is_sextet v.
Proof.
  unfold Base64.std_value, is_sextet. cbv zeta.
  pose proof (indexOf_range c Base64.STD64 0) as H.
  replace (len Base64.STD64) with 64 in H by reflexivity.
  remember (indexOf c Base64.STD64 0) as r eqn:Er. clear Er.
  destruct (r =? -1) eqn:E1; [discriminate|].
  apply Z.eqb_neq in E1. intros E. inversion E. subst. lia.
Qed.

Lemma std_values_range (d : jsstring) :
  forall vs, Base64.std_values d = Some vs -> Forall is_sextet vs.
Proof.
  induction d as [|c d IH]; intros vs; simpl.
  - intros E. inversion E. constructor.
  - destruct (Base64.std_value c) as [v|] eqn:Ev; [|discriminate].
    destruct (Base64.std_values d) as [vs'|]; [|discriminate].
    intros E. inversion E. subst. constructor.
    + now apply std_value_range in Ev.
    + now apply IH.
Qed.

Lemma std_values_app (d1 d2 : jsstring) (vs : list Z) :
  Base64.std_values (d1 ++ d2) = Some vs ->
  exists vs1 vs2, vs = vs1 ++ vs2
                  /\ Base64.std_values d1 = Some vs1
                  /\ Base64.std_values d2 = Some vs2.
Proof.
  revert vs. induction d1 as [|c d1 IH]; intros vs; simpl.
  - intros E. exists [], vs. auto.
  - destruct (Base64.std_value c) as [v|]; [|discriminate].
    destruct (Base64.std_values (d1 ++ d2)) as [vs'|] eqn:E'; [|discriminate].
    intros E. inversion E. subst.
    destruct (IH vs' eq_refl) as (vs1 & vs2 & -> & E1 & E2).
    exists (v :: vs1), vs2. rewrite E1. auto.
Qed.

Lemma atob_units_bytes (vs : list Z) :
  Forall is_sextet vs -> Forall is_byte (Base64.atob_units vs).
Proof.
  unfold is_sextet, is_byte.
  assert (H : forall n vs, (List.length vs <= n)%nat ->
                Forall (fun v => 0 <= v < 64) vs ->
                Forall (fun b => 0 <= b < 256) (Base64.atob_units vs)).
  { induction n as [|n IH]; intros l Hn Hl.
    - destruct l; [constructor|simpl in Hn; lia].
    - destruct l as [|v0 [|v1 [|v2 [|v3 rest]]]]; cbn [Base64.atob_units].
      + constructor.
      + constructor.
      + inversion_clear Hl as [|? ? H0 Hl']. inversion_clear Hl' as [|? ? H1 _].
        repeat constructor; Z.div_mod_to_equations; lia.
      + inversion_clear Hl as [|? ? H0 Hl']. inversion_clear Hl' as [|? ? H1 Hl''].
        inversion_clear Hl'' as [|? ? H2 _].
        repeat constructor; Z.div_mod_to_equations; lia.
      + inversion_clear Hl as [|? ? H0 Hl']. inversion_clear Hl' as [|? ? H1 Hl''].
        inversion_clear Hl'' as [|? ? H2 Hl']. inversion_clear Hl' as [|? ? H3 Hr].
        repeat (constructor; [Z.div_mod_to_equations; lia|]).
        apply IH; [simpl in Hn; lia|exact Hr]. }
  apply (H (List.length vs)). lia.
Qed.

(** The bytes of a successful [atob] come from 6-bit values. *)
Lemma atob_ok (data r : jsstring) :
  Base64.atob data = Ok r ->
  exists vs,
    r = Base64.atob_units vs
    /\ Base64.std_values
         (let d := filter (fun c => negb (Base64.is_ascii_whitespace c)) data in
          if len d mod 4 =? 0 then Base64.remove_padding d else d) = Some vs.
Proof.
  unfold Base64.atob. cbv zeta.
  destruct (len _ mod 4 =? 1); [discriminate|].
  destruct (Base64.std_values _) as [vs|]; [|discriminate].
  intros E. inversion E. now exists vs.
Qed.

Lemma decodeBase64Url_bytes (array paw : bytes) :
  Base64.decodeBase64Url array = Ok paw -> Forall is_byte paw.
Proof.
  unfold Base64.decodeBase64Url. cbv zeta.
  destruct (Base64.atob _) as [r|] eqn:E; [|discriminate].
  cbn [bind]. intros E'. inversion E'. subst.
  apply atob_ok in E as (vs & -> & Hvs).
  apply atob_units_bytes. now apply std_values_range in Hvs.
Qed.

Lemma readInt_from_nonneg (array : bytes) :
  forall value, 0 <= value -> Forall is_byte array ->
                value <= readInt_from value array.
Proof.
  unfold is_byte. induction array as [|b l IH]; intros value Hv Hl; simpl.
  - lia.
  - inversion_clear Hl as [|? ? Hb Hl']. specialize (IH (value * 256 + b)).
    assert (0 <= value * 256 + b) by lia. specialize (IH H Hl'). lia.
Qed.

Lemma readInt_nonneg (array : bytes) :
  Forall is_byte array -> 0 <= readInt array.
Proof. intros H. unfold readInt. now apply readInt_from_nonneg. Qed.

Lemma Forall_firstn {A} (P : A -> Prop) (n : nat) (l : list A) :
  Forall P l -> Forall P (firstn n l).
Proof.
  intros H. rewrite Forall_forall in *. intros x Hx. apply H.
  rewrite <- (firstn_skipn n l). apply in_or_app. now left.
Qed.

Lemma Forall_skipn {A} (P : A -> Prop) (n : nat) (l : list A) :
  Forall P l -> Forall P (skipn n l).
Proof.
  intros H. rewrite Forall_forall in *. intros x Hx. apply H.
  rewrite <- (firstn_skipn n l). apply in_or_app. now right.
Qed.

Lemma Forall_slice {A} (P : A -> Prop) (l : list A) (s e : Z) :
  Forall P l -> Forall P (slice l s e).
Proof. intros H. unfold slice. now apply Forall_firstn, Forall_skipn. Qed.

(** *** Pad bits *)

Lemma remove_padding_prefix (p rest : jsstring) :
  Forall (fun c => c <> 61) p ->
  exists rest', Base64.remove_padding (p ++ rest) = p ++ rest'.
Proof.
  intros Hp. unfold Base64.remove_padding. rewrite rev_app_distr.
  assert (Hq : Forall (fun c => c <> 61) (rev p)) by now apply Forall_rev.
  assert (Hpp : rev (rev p) = p) by apply rev_involutive.
  assert (Hrr : rev (rev rest) = rest) by apply rev_involutive.
  destruct (rev rest) as [|a [|b l2]]; cbn [app].
  - simpl in Hrr. subst rest. exists [].
    destruct (rev p) as [|a [|b r]]; try reflexivity;
      inversion_clear Hq as [|? ? Ha _]; apply Z.eqb_neq in Ha; now rewrite Ha.
  - destruct (rev p) as [|b r].
    + simpl in Hpp. subst p. destruct (a =? 61); [now exists []|now exists rest].
    + inversion_clear Hq as [|? ? Hb _]. apply Z.eqb_neq in Hb. rewrite Hb.
      rewrite andb_false_r. destruct (a =? 61); [|now exists rest].
      exists []. now rewrite Hpp, app_nil_r.
  - destruct ((a =? 61) && (b =? 61)).
    + exists (rev l2). now rewrite rev_app_distr, Hpp.
    + destruct (a =? 61); [|now exists rest].
      exists (rev l2 ++ [b]).
      change (b :: l2 ++ rev p) with ((b :: l2) ++ rev p).
      now rewrite rev_app_distr, Hpp.
Qed.

Lemma std_values_As (n : nat) :
  Base64.std_values (repeat 65 n) = Some (repeat 0 n).
Proof. induction n as [|n IH]; [reflexivity|]. cbn [repeat]. simpl. now rewrite IH. Qed.

(** Decoding material behind [ps] characters ['A']: the values decoded
    begin with [ps] zeros. *)
Lemma decode_padded_values (ps : nat) (m paw : bytes) :
  Base64.decodeBase64Url (repeat 65 ps ++ m) = Ok paw ->
  exists vs', Forall is_sextet vs'
              /\ paw = Base64.atob_units (repeat 0 ps ++ vs').
Proof.
  unfold Base64.decodeBase64Url. cbv zeta.
  destruct (Base64.atob _) as [r|] eqn:E; [|discriminate].
  cbn [bind]. intros E'. inversion E'. subst r. clear E'.
  apply atob_ok in E as (vs & -> & Hvs). cbv zeta in Hvs.
  rewrite replace_dec, map_app in Hvs.
  assert (Hrep : map dec_unit (repeat 65 ps) = repeat 65 ps).
  { clear. induction ps as [|k IH]; [reflexivity|]. simpl. now rewrite IH. }
  rewrite Hrep, <- app_assoc, filter_app in Hvs.
  assert (Hfil : filter (fun c => negb (Base64.is_ascii_whitespace c)) (repeat 65 ps)
                 = repeat 65 ps).
  { clear. induction ps as [|k IH]; [reflexivity|]. simpl. now rewrite IH. }
  rewrite Hfil in Hvs.
  assert (HA : Forall (fun c => c <> 61) (repeat 65 ps)).
  { apply Forall_forall. intros c Hc. apply repeat_spec in Hc. subst. lia. }
  match type of Hvs with
  | Base64.std_values (if _ then Base64.remove_padding (_ ++ ?rest) else _) = _ =>
      destruct (remove_padding_prefix rest HA) as (rest' & Hrp);
      assert (Hdata : exists rest'', Base64.std_values (repeat 65 ps ++ rest'') = Some vs)
  end.
  { destruct (len _ mod 4 =? 0).
    - rewrite Hrp in Hvs. now exists rest'.
    - eexists. exact Hvs. }
  destruct Hdata as (rest'' & Hd).
  apply std_values_app in Hd as (vs1 & vs2 & -> & H1 & H2).
  rewrite std_values_As in H1. inversion H1. subst vs1.
  exists vs2. split; [now apply std_values_range in H2|reflexivity].
Qed.

(** The integer of the first [ps] bytes behind [ps] zero values has
    [2 * ps] bits. *)
Lemma pad_int_bound (ps : nat) (vs' : list Z) :
  (1 <= ps <= 3)%nat ->
  Forall is_sextet vs' ->
  0 <= readInt (slice (Base64.atob_units (repeat 0 ps ++ vs')) 0 (Z.of_nat ps))
    < 2 ^ (2 * Z.of_nat ps).
Proof.
  unfold is_sextet. intros Hps Hvs.
  rewrite slice_0 by lia. rewrite Nat2Z.id.
  destruct ps as [|[|[|[|ps]]]]; try lia; cbn [repeat app].
  - change (2 ^ (2 * Z.of_nat 1)) with 4.
    destruct vs' as [|v1 [|v2 [|v3 r]]]; cbn [Base64.atob_units firstn];
      unfold readInt; cbn [readInt_from]; try lia;
      inversion_clear Hvs as [|? ? H1 _]; Z.div_mod_to_equations; lia.
  - change (2 ^ (2 * Z.of_nat 2)) with 16.
    destruct vs' as [|v2 [|v3 r]]; cbn [Base64.atob_units firstn];
      unfold readInt; cbn [readInt_from]; try lia;
      inversion_clear Hvs as [|? ? H2 _]; Z.div_mod_to_equations; lia.
  - change (2 ^ (2 * Z.of_nat 3)) with 64.
    destruct vs' as [|v3 r]; cbn [Base64.atob_units firstn];
      unfold readInt; cbn [readInt_from]; try lia;
      inversion_clear Hvs as [|? ? H3 _]; Z.div_mod_to_equations; lia.
Qed.

Lemma js_and_mask (pi ps : Z) :
  1 <= ps <= 3 -> 0 <= pi < 2 ^ (2 * ps) -> js_and pi (2 ^ (2 * ps) - 1) = pi.
Proof.
  intros Hps Hpi. unfold js_and.
  assert (Hpow : 2 ^ (2 * ps) <= 64).
  { change 64 with (2 ^ 6). apply Z.pow_le_mono_r; lia. }
  assert (0 < 2 ^ (2 * ps)) by (apply Z.pow_pos_nonneg; lia).
  rewrite !to_int32_small by lia.
  replace (2 ^ (2 * ps) - 1) with (Z.ones (2 * ps))
    by (rewrite Z.ones_equiv; lia).
  rewrite Z.land_ones by lia.
  apply Z.mod_small. lia.
Qed.

(** ** The primitive extractor *)

Lemma matter_checked_not_error (hard : jsstring) (cs fs ls : Z)
    (m raw : bytes) (e : exn) (msg : message) :
  Parser.matter_checked hard cs fs ls m raw = Throw e -> e <> Error msg.
Proof.
  unfold Parser.matter_checked. destruct (negb _); [|discriminate].
  intros E. inversion E. discriminate.
Qed.

Section Extractor.

Variable MatterHards : jsstring -> option Z.
Variable CountCodeStart : jsstring.
Variable OpCodeStart : jsstring.

Let matter_frame := Parser.matter_frame MatterHards CountCodeStart OpCodeStart.
Let fromMatterQB64b :=
  Parser.fromMatterQB64b MatterHards CountCodeStart OpCodeStart.

(** C4.  Once the material has its full size, with [ps] the code size
    modulo 4: when [ps > 0] the extractor decodes the material behind [ps]
    characters ['A'], throws the pad-bit error exactly when the integer of
    the first [ps] decoded bytes is not zero, and otherwise goes on with the
    bytes behind them; when [ps = 0] it decodes the material as it is, throws
    the lead-byte error exactly when the integer of the first [ls] bytes is
    not zero, and otherwise goes on with the bytes behind them. *)
Theorem pad_and_lead_validation :
  forall (q : Input) (protocol : CesrProtocol) (hard : jsstring)
         (cs fs ls : Z) (m : bytes),
    matter_frame q protocol = Ok (hard, cs, fs, ls, m) ->
    0 <= cs ->
    let ps := cs mod 4 in
    let r := fromMatterQB64b q protocol in
    (0 < ps ->
     forall paw : bytes,
       Base64.decodeBase64Url (repeat_unit 65 ps ++ slice_from m cs) = Ok paw ->
       let pi := readInt (slice paw 0 ps) in
       ((exists e, r = Throw e /\ NonZeroPadBits e) <-> pi <> 0)
       /\ (pi = 0 ->
           r = Parser.matter_checked hard cs fs ls m (slice_from paw ps)))
    /\ (ps = 0 ->
        forall paw : bytes,
          Base64.decodeBase64Url (slice_from m cs) = Ok paw ->
          let li := readInt (slice paw 0 ls) in
          ((exists e, r = Throw e /\ NonZeroLeadBytes e) <-> li <> 0)
          /\ (li = 0 ->
              r = Parser.matter_checked hard cs fs ls m (slice_from paw ls))).
Proof.
  intros q protocol hard cs fs ls m Hframe Hcs ps r.
  assert (Hps : 0 <= ps < 4) by (apply Z.mod_pos_bound; lia).
  assert (Hr : r = Parser.matter_raw hard cs fs ls m).
  { unfold r, fromMatterQB64b, Parser.fromMatterQB64b.
    fold matter_frame. now rewrite Hframe. }
  assert (Hrem : js_rem cs 4 = ps).
  { unfold js_rem. apply Z.rem_mod_nonneg; lia. }
  unfold Parser.matter_raw in Hr. rewrite Hrem in Hr. cbv zeta in Hr.
  split.
  - intros Hpos paw Hdec pi.
    destruct (ps >? 0) eqn:Eg; [|rewrite Z.gtb_ltb in Eg; apply Z.ltb_ge in Eg; lia].
    rewrite Hdec in Hr. cbn [bind] in Hr. fold pi in Hr.
    destruct (ps =? 0) eqn:E0; [apply Z.eqb_eq in E0; lia|].
    cbn [negb] in Hr.
    assert (Hpi : 0 <= pi < 2 ^ (2 * ps)).
    { unfold repeat_unit in Hdec.
      destruct (decode_padded_values _ _ Hdec) as (vs' & Hvs & ->).
      pose proof (@pad_int_bound (Z.to_nat ps) vs' ltac:(lia) Hvs) as Hb.
      rewrite Z2Nat.id in Hb by lia. exact Hb. }
    rewrite (@js_and_mask pi ps) in Hr by lia.
    destruct (pi =? 0) eqn:Ez.
    + apply Z.eqb_eq in Ez. cbn [negb bind] in Hr. split.
      * split; [|intros Hne; contradiction].
        intros (e & He & (rest & ->)). rewrite Hr in He.
        now apply matter_checked_not_error with (msg := FText "fromMatterQB64b: Non-zeroed pad bits = " :: rest) in He.
      * intros _. exact Hr.
    + apply Z.eqb_neq in Ez. cbn [negb bind] in Hr. split.
      * split; [intros _; exact Ez|].
        intros _. eexists. split; [exact Hr|]. eexists. reflexivity.
      * intros Hz. contradiction.
  - intros Hzero paw Hdec li.
    destruct (ps >? 0) eqn:Eg; [rewrite Z.gtb_ltb in Eg; apply Z.ltb_lt in Eg; lia|].
    rewrite Hdec in Hr. cbn [bind] in Hr. fold li in Hr.
    assert (Hli : 0 <= li).
    { apply readInt_nonneg, Forall_slice. now apply decodeBase64Url_bytes in Hdec. }
    destruct (li >? 0) eqn:El.
    + rewrite Z.gtb_ltb in El. apply Z.ltb_lt in El. split.
      * split; [intros _; lia|].
        intros _. destruct (ls =? 1); cbn [bind] in Hr;
          (eexists; split; [exact Hr|]); eexists; [left|right]; reflexivity.
      * intros Hz. lia.
    + rewrite Z.gtb_ltb in El. apply Z.ltb_ge in El.
      assert (Hz : li = 0) by lia. cbn [bind] in Hr. split.
      * split; [|intros Hne; contradiction].
        intros (e & He & (rest & [->| ->])); rewrite Hr in He.
        -- now apply matter_checked_not_error with (msg := FText "fromMatterQB64b: Non-zeroed lead byte = " :: rest) in He.
        -- now apply matter_checked_not_error with (msg := FText "fromMatterQB64b: Non-zeroed lead bytes = " :: rest) in He.
      * intros _. exact Hr.
Qed.

End Extractor.

Lemma pad_and_lead_validation_witness :
  Sample.fromMatterQB64b (InUint8Array salt_stream) Sample.protocol
  = Ok (str "0A", 24, repeat 0 16)
  /\ exists e,
       Sample.fromMatterQB64b (InUint8Array bad_salt_stream) Sample.protocol
       = Throw e /\ NonZeroPadBits e.
Proof.
  split.
  - destruct (@pad_and_lead_validation Sample.MatterHards Sample.CountCodeStart
                Sample.OpCodeStart (InUint8Array salt_stream) Sample.protocol
                (str "0A") 2 24 0 salt_stream eq_refl ltac:(lia)) as [Hpad _].
    destruct (Hpad ltac:(reflexivity) (repeat 0 18) eq_refl) as [_ Hz].
    exact (Hz eq_refl).
  - destruct (@pad_and_lead_validation Sample.MatterHards Sample.CountCodeStart
                Sample.OpCodeStart (InUint8Array bad_salt_stream) Sample.protocol
                (str "0A") 2 24 0 bad_salt_stream eq_refl ltac:(lia)) as [Hpad _].
    destruct (Hpad ltac:(reflexivity) (0 :: 15 :: 192 :: repeat 0 15) eq_refl)
      as [Hiff _].
    apply Hiff. vm_compute. discriminate.
Defined.

(** ** Shortage *)

Lemma slice_0_len {A} (q : list A) (k : Z) :
  0 <= k <= len q -> len (slice q 0 k) = k.
Proof. intros H. rewrite slice_0 by lia. now apply firstn_len. Qed.

Lemma slice_0_slice_0 {A} (q : list A) (k n : Z) :
  0 <= n <= k -> slice (slice q 0 k) 0 n = slice q 0 n.
Proof.
  intros H. rewrite !slice_0 by lia. rewrite firstn_firstn.
  f_equal. lia.
Qed.

Section Shortage.

Variable MatterHards : jsstring -> option Z.
Variable CountCodeStart : jsstring.
Variable OpCodeStart : jsstring.

Let fromMatterQB64b :=
  Parser.fromMatterQB64b MatterHards CountCodeStart OpCodeStart.

Lemma shortage_hard (q : bytes) (protocol : CesrProtocol) (hardSize : Z) :
  q <> [] ->
  MatterHards (Utf8.decode (slice q 0 1)) = Some hardSize ->
  len q < hardSize ->
  fromMatterQB64b (InUint8Array q) protocol = Throw (Shortage (hardSize - len q)).
Proof.
  intros Hq Hh Hlt.
  unfold fromMatterQB64b, Parser.fromMatterQB64b, Parser.matter_frame.
  cbn [bind].
  destruct (len q =? 0) eqn:E0.
  { apply Z.eqb_eq in E0. destruct q; [congruence|].
    rewrite len_cons in E0. pose proof (len_nonneg q). lia. }
  rewrite Hh. apply Z.ltb_lt in Hlt. rewrite Hlt. reflexivity.
Qed.

Lemma shortage_full (q : bytes) (protocol : CesrProtocol) (hardSize : Z)
    (table : CesrCodeTable) (fsz : Z) :
  q <> [] ->
  MatterHards (Utf8.decode (slice q 0 1)) = Some hardSize ->
  hardSize <= len q ->
  getCodeTable protocol (Utf8.decode (slice q 0 hardSize)) = Ok table ->
  Parser.matter_full_size table q = Ok fsz ->
  len q < fsz ->
  fromMatterQB64b (InUint8Array q) protocol = Throw (Shortage (fsz - len q)).
Proof.
  intros Hq Hh Hge Ht Hf Hlt.
  unfold fromMatterQB64b, Parser.fromMatterQB64b, Parser.matter_frame.
  cbn [bind].
  destruct (len q =? 0) eqn:E0.
  { apply Z.eqb_eq in E0. destruct q; [congruence|].
    rewrite len_cons in E0. pose proof (len_nonneg q). lia. }
  rewrite Hh. apply Z.ltb_ge in Hge. rewrite Hge.
  rewrite Ht. cbn [bind]. destruct (sizes table) as [hs ss fs ls].
  rewrite Hf. cbn [bind]. apply Z.ltb_lt in Hlt. rewrite Hlt. reflexivity.
Qed.

(** C3, as the code has it.  On a non-empty input with fewer bytes than the
    hard size of its first character, [fromMatterQB64b] throws a shortage
    whose count is the hard size less the bytes there are; with the hard
    code there and fewer bytes than the full size it computes, a shortage
    whose count is that size less the bytes there are.  Consequently a
    fixed-size primitive cut at [k] bytes, with [k] at least 1 and below its
    full size, gives a shortage whose count is the hard size less [k] when
    the cut is inside the hard code, and otherwise the full size less [k],
    the bytes missing to the end of the primitive. *)
Theorem shortage_need :
  (forall (q : bytes) (protocol : CesrProtocol) (hardSize : Z),
      q <> [] ->
      MatterHards (Utf8.decode (slice q 0 1)) = Some hardSize ->
      len q < hardSize ->
      fromMatterQB64b (InUint8Array q) protocol
      = Throw (Shortage (hardSize - len q)))
  /\ (forall (q : bytes) (protocol : CesrProtocol) (hardSize : Z)
             (table : CesrCodeTable) (fsz : Z),
         q <> [] ->
         MatterHards (Utf8.decode (slice q 0 1)) = Some hardSize ->
         hardSize <= len q ->
         getCodeTable protocol (Utf8.decode (slice q 0 hardSize)) = Ok table ->
         Parser.matter_full_size table q = Ok fsz ->
         len q < fsz ->
         fromMatterQB64b (InUint8Array q) protocol
         = Throw (Shortage (fsz - len q)))
  /\ (forall (q : bytes) (protocol : CesrProtocol) (hardSize : Z)
             (table : CesrCodeTable) (fsz k : Z),
         MatterHards (Utf8.decode (slice q 0 1)) = Some hardSize ->
         0 <= hardSize ->
         getCodeTable protocol (Utf8.decode (slice q 0 hardSize)) = Ok table ->
         fs (sizes table) = Some fsz ->
         1 <= k <= len q ->
         k < fsz ->
         fromMatterQB64b (InUint8Array (slice q 0 k)) protocol
         = Throw (Shortage (if k <? hardSize then hardSize - k else fsz - k))).
Proof.
  split; [exact shortage_hard|]. split; [exact shortage_full|].
  intros q protocol hardSize table fsz k Hh Hh0 Ht Hfs Hk Hlt.
  assert (Hlen : len (slice q 0 k) = k) by (apply slice_0_len; lia).
  assert (Hne : slice q 0 k <> []).
  { intros E. rewrite E in Hlen. unfold len in Hlen. simpl in Hlen. lia. }
  assert (Hfirst : slice (slice q 0 k) 0 1 = slice q 0 1)
    by (apply slice_0_slice_0; lia).
  destruct (k <? hardSize) eqn:Ek.
  - apply Z.ltb_lt in Ek. rewrite <- Hlen at 2.
    apply shortage_hard; [exact Hne|now rewrite Hfirst|lia].
  - apply Z.ltb_ge in Ek. rewrite <- Hlen at 2.
    apply shortage_full with (hardSize := hardSize) (table := table);
      try assumption; try lia.
    + now rewrite Hfirst.
    + rewrite slice_0_slice_0 by lia. exact Ht.
    + unfold Parser.matter_full_size.
      destruct (sizes table) as [hs ss f ls]. simpl in Hfs. now rewrite Hfs.
Qed.

End Shortage.

Lemma shortage_need_witness :
  Sample.fromMatterQB64b (InUint8Array (slice salt_stream 0 1)) Sample.protocol
  = Throw (Shortage 1)
  /\ Sample.fromMatterQB64b (InUint8Array (slice salt_stream 0 10)) Sample.protocol
     = Throw (Shortage 14)
  /\ Sample.fromMatterQB64b (InUint8Array (str "4AAB")) Sample.protocol
     = Throw (Shortage 4).
Proof.
  pose proof (@shortage_need Sample.MatterHards Sample.CountCodeStart
                Sample.OpCodeStart) as (_ & Hfull & Hcut).
  split; [|split].
  - apply (Hcut salt_stream Sample.protocol 2 (Sample.fixed_table 2 24 0) 24 1);
      try reflexivity; vm_compute; intuition discriminate.
  - apply (Hcut salt_stream Sample.protocol 2 (Sample.fixed_table 2 24 0) 24 10);
      try reflexivity; vm_compute; intuition discriminate.
  - apply (Hfull (str "4AAB") Sample.protocol 2 Sample.variable_table 8);
      try reflexivity; vm_compute; intuition discriminate.
Defined.

(** C3 on three cuts of valid primitives.  The whole salt and the
    whole text are extracted.  Cut at 0 bytes, the salt gives a shortage
    that carries no count; cut at 1 byte, inside its hard code, a count of 1
    where 23 bytes are missing; and the text cut at 3 bytes, inside its size
    characters, a count of 1 where 5 bytes are missing. *)
Lemma shortage_counts_off :
  Sample.fromMatterQB64b (InUint8Array salt_stream) Sample.protocol
  = Ok (str "0A", 24, repeat 0 16)
  /\ Sample.fromMatterQB64b (InUint8Array text_stream) Sample.protocol
     = Ok (str "4A", 8, [0; 0; 0])
  /\ Sample.fromMatterQB64b (InUint8Array (slice salt_stream 0 0)) Sample.protocol
     = Throw (ShortageError [FText "fromMatterQB64b: Empty material"] None None)
  /\ Sample.fromMatterQB64b (InUint8Array (slice salt_stream 0 1)) Sample.protocol
     = Throw (Shortage 1)
  /\ len salt_stream - 1 <> 1
  /\ Sample.fromMatterQB64b (InUint8Array (slice text_stream 0 3)) Sample.protocol
     = Throw (Shortage 1)
  /\ len text_stream - 3 <> 1.
Proof. repeat split; discriminate. Qed.

(** ** Round trip of matter primitives *)

Lemma substring_from_nonneg (l : jsstring) (n : Z) :
  0 <= n <= len l -> substring_from l n = skipn (Z.to_nat n) l.
Proof.
  intros H. unfold substring_from, substring, clamp.
  rewrite (Z.max_l n 0), (Z.min_l n (len l)) by lia.
  rewrite (Z.max_l (len l) 0), (Z.min_l (len l) (len l)) by lia.
  rewrite Z.max_r, Z.min_l by lia.
  apply firstn_all2. rewrite length_skipn. unfold len in *. lia.
Qed.

Lemma slice_all {A} (l : list A) : slice l 0 (len l) = l.
Proof.
  rewrite slice_0 by apply len_nonneg. unfold len. rewrite Nat2Z.id.
  apply firstn_all.
Qed.

Lemma slice_from_app {A} (w rest : list A) :
  slice_from (w ++ rest) (len w) = rest.
Proof.
  rewrite slice_from_nonneg by apply len_nonneg. unfold len.
  rewrite Nat2Z.id, skipn_app, skipn_all, Nat.sub_diag. reflexivity.
Qed.

Lemma slice_app_first {A} (w rest : list A) :
  w <> [] -> slice (w ++ rest) 0 1 = slice w 0 1.
Proof.
  intros Hw. rewrite !slice_0 by lia.
  destruct w as [|a w]; [congruence|reflexivity].
Qed.

(** With a whole number of byte triples, [btoa] writes four characters for
    three bytes. *)
Lemma sextets_len_exact (l : list Z) :
  len l mod 3 = 0 -> len (sextets l) = 4 * (len l / 3).
Proof.
  induction l as [|a|a b|a b c l IH] using list_ind3; intros H.
  - reflexivity.
  - discriminate H.
  - discriminate H.
  - cbn [sextets]. rewrite !len_cons in *.
    replace (1 + (1 + (1 + len l))) with (len l + 1 * 3) in * by lia.
    rewrite Z.mod_add in H by lia. rewrite Z.div_add by lia.
    rewrite (IH H). lia.
Qed.

Lemma readInt_zeros (n : nat) : readInt (repeat 0 n) = 0.
Proof.
  unfold readInt. induction n as [|n IH]; [reflexivity|exact IH].
Qed.

Section RoundTrip.

Variable MatterHards : jsstring -> option Z.
Variable CountCodeStart : jsstring.
Variable OpCodeStart : jsstring.

Let fromMatterQB64b :=
  Parser.fromMatterQB64b MatterHards CountCodeStart OpCodeStart.

(** The text that [encodeBase64Url] gives for the pre-padded raw bytes
    begins with [ps] characters ['A']. *)
Lemma padded_text_As (ps : Z) (raw : bytes) :
  0 <= ps <= 2 ->
  (ps + len raw) mod 3 = 0 ->
  let t := map (fun v => enc_unit (Base64.std_char v))
             (sextets (repeat_unit 0 ps ++ raw)) in
  t = repeat_unit 65 ps ++ skipn (Z.to_nat ps) t
  /\ len t = 4 * ((ps + len raw) / 3).
Proof.
  intros Hps Hmod t. split.
  - unfold t, repeat_unit.
    assert (Hcases : ps = 0 \/ ps = 1 \/ ps = 2) by lia.
    destruct Hcases as [->|[->| ->]].
    + reflexivity.
    + destruct raw as [|b [|c rest]].
      * discriminate Hmod.
      * discriminate Hmod.
      * reflexivity.
    + destruct raw as [|c rest].
      * discriminate Hmod.
      * reflexivity.
  - unfold t, len. rewrite length_map. fold (len (sextets (repeat_unit 0 ps ++ raw))).
    assert (Hl : len (repeat_unit 0 ps ++ raw) = ps + len raw).
    { rewrite len_app. unfold repeat_unit. rewrite len_repeat. lia. }
    rewrite sextets_len_exact; rewrite Hl; [reflexivity|exact Hmod].
Qed.

(** X14.  Round trip without lead bytes.  For a fixed-size code of hard size
    [hs] with no soft size and no lead bytes, whose first character has that
    hard size, and raw bytes whose pad size is [hs] modulo 4 and whose
    qualified length is the full size of the table: [toMatterQB64b] gives
    material that [fromMatterQB64b] turns back into the code, the full size
    and the raw bytes. *)
Lemma matter_round_trip_no_lead (raw : bytes) (code : jsstring)
    (protocol : CesrProtocol) (table : CesrCodeTable) (hs fsz : Z) :
  Forall is_byte raw ->
  Forall is_ascii code ->
  code <> [] ->
  hs = len code ->
  getCodeTable protocol code = Ok table ->
  sizes table = mkSizes hs 0 (Some fsz) 0 ->
  MatterHards (slice code 0 1) = Some hs ->
  (3 - len raw mod 3) mod 3 = hs mod 4 ->
  fsz = hs + 4 * ((hs mod 4 + len raw) / 3) - hs mod 4 ->
  exists q : bytes,
    Parser.toMatterQB64b raw code protocol = Ok q
    /\ fromMatterQB64b (InUint8Array q) protocol = Ok (code, fsz, raw).
Proof.
  intros Hraw Hcode Hne Hhs Ht Hsz HM Hpad Hfs.
  pose proof (len_nonneg raw) as Hrs. pose proof (len_nonneg code) as Hcs.
  set (ps := hs mod 4) in *.
  assert (Hps : 0 <= ps <= 2) by (rewrite <- Hpad; Z.div_mod_to_equations; lia).
  assert (Hmod : (ps + len raw) mod 3 = 0)
    by (rewrite <- Hpad; Z.div_mod_to_equations; lia).
  assert (Hbytes : Forall is_byte (repeat_unit 0 ps ++ raw)).
  { apply Forall_app. split; [|exact Hraw].
    apply Forall_forall. intros c Hc. apply repeat_spec in Hc. subst.
    unfold is_byte. lia. }
  destruct (padded_text_As raw Hps Hmod) as [HtA Htlen]. cbv zeta in HtA, Htlen.
  set (t := map (fun v => enc_unit (Base64.std_char v))
              (sextets (repeat_unit 0 ps ++ raw))) in *.
  assert (Htascii : Forall is_ascii t).
  { apply Forall_map. eapply Forall_impl; [|exact (sextets_range Hbytes)].
    intros v Hv. now destruct (plain_unit_spec _ (enc_char_plain Hv)) as (H & _). }
  set (mat := skipn (Z.to_nat ps) t) in *.
  assert (Hn : 3 * ((ps + len raw) / 3) = ps + len raw)
    by (Z.div_mod_to_equations; lia).
  assert (Hmatlen : len mat = len t - ps).
  { unfold mat. clearbody t ps. unfold len in *. rewrite length_skipn. lia. }
  assert (Hmascii : Forall is_ascii mat) by now apply Forall_skipn.
  exists (code ++ mat). split.
  - unfold Parser.toMatterQB64b. rewrite Ht. cbn [bind]. rewrite Hsz.
    rewrite !Z.add_0_r. unfold js_rem.
    rewrite (Z.rem_mod_nonneg (len raw) 3) by lia.
    rewrite (Z.rem_mod_nonneg (3 - len raw mod 3) 3)
      by (try lia; Z.div_mod_to_equations; lia).
    rewrite (Z.rem_mod_nonneg hs 4) by lia.
    rewrite Hpad. fold ps. rewrite Z.sub_0_r, Z.eqb_refl. cbn [negb].
    unfold Parser.new_Uint8Array.
    destruct (ps <? 0) eqn:E; [apply Z.ltb_lt in E; lia|]. cbn [bind].
    rewrite (encodeBase64Url_text true Hbytes). cbn [bind].
    rewrite app_nil_r. fold t.
    rewrite substring_from_nonneg by lia. fold mat.
    rewrite utf8_encode_ascii; [reflexivity|].
    apply Forall_app. now split.
  - assert (Hq : len (code ++ mat) = fsz) by (rewrite len_app; lia).
    unfold fromMatterQB64b, Parser.fromMatterQB64b, Parser.matter_frame.
    cbn [bind].
    destruct (len (code ++ mat) =? 0) eqn:E0.
    { apply Z.eqb_eq in E0. rewrite len_app in E0.
      destruct code; [congruence|]. rewrite len_cons in *.
      pose proof (len_nonneg mat). pose proof (len_nonneg code). lia. }
    rewrite (slice_app_first mat Hne).
    rewrite utf8_decode_ascii by now apply Forall_slice.
    rewrite HM.
    destruct (len (code ++ mat) <? hs) eqn:E1.
    { apply Z.ltb_lt in E1. rewrite len_app in E1.
      pose proof (len_nonneg mat). lia. }
    assert (Hhard : Utf8.decode (slice (code ++ mat) 0 hs) = code).
    { rewrite Hhs, slice_app_prefix. now apply utf8_decode_ascii. }
    rewrite !Hhard, Ht. cbn [bind]. rewrite Hsz.
    unfold Parser.matter_full_size. rewrite Hsz. cbn [bind].
    rewrite Hq, Z.ltb_irrefl. cbn [bind].
    replace (slice (code ++ mat) 0 fsz) with (code ++ mat)
      by (rewrite <- Hq; symmetry; apply slice_all).
    rewrite Z.add_0_r.
    unfold Parser.matter_raw. unfold js_rem.
    rewrite (Z.rem_mod_nonneg hs 4) by lia. fold ps.
    assert (Hdec : Base64.decodeBase64Url t = Ok (repeat_unit 0 ps ++ raw)).
    { pose proof (decodeBase64Url_text true Hbytes) as H.
      rewrite app_nil_r in H. exact H. }
    assert (Hslice : slice_from (code ++ mat) hs = mat)
      by (rewrite Hhs; apply slice_from_app).
    assert (Hchk : Parser.matter_checked code hs fsz 0 (code ++ mat) raw
                   = Ok (code, fsz, raw)).
    { unfold Parser.matter_checked. rewrite Hq.
      replace ((fsz - hs) * 3 / 4 - 0) with (len raw)
        by (rewrite Hfs; Z.div_mod_to_equations; lia).
      now rewrite Z.eqb_refl. }
    destruct (ps >? 0) eqn:Eg.
    + rewrite Z.gtb_ltb in Eg. apply Z.ltb_lt in Eg.
      rewrite Hslice, <- HtA, Hdec. cbn [bind].
      assert (Hfirst : slice (repeat_unit 0 ps ++ raw) 0 ps = repeat_unit 0 ps).
      { replace ps with (len (repeat_unit 0 ps)) at 2
          by (unfold repeat_unit; rewrite len_repeat; lia).
        apply slice_app_prefix. }
      rewrite Hfirst. unfold repeat_unit at 1. rewrite readInt_zeros.
      replace (js_and 0 _) with 0 by (unfold js_and; now rewrite to_int32_small by lia).
      cbn [Z.eqb negb].
      assert (Hrest : slice_from (repeat_unit 0 ps ++ raw) ps = raw).
      { replace ps with (len (repeat_unit 0 ps)) at 2
          by (unfold repeat_unit; rewrite len_repeat; lia).
        apply slice_from_app. }
      rewrite Hrest. cbn [bind]. exact Hchk.
    + rewrite Z.gtb_ltb in Eg. apply Z.ltb_ge in Eg.
      assert (Hz : ps = 0) by lia.
      assert (Hmt : mat = t) by (unfold mat; rewrite Hz; reflexivity).
      rewrite Hslice, Hmt, Hdec. cbn [bind]. rewrite <- Hmt, Hz.
      unfold repeat_unit. cbn [Z.to_nat repeat app].
      replace (readInt (slice raw 0 0)) with 0
        by (rewrite slice_0 by lia; reflexivity).
      cbn [Z.gtb Z.compare]. rewrite slice_from_0. cbn [bind]. exact Hchk.
Qed.

End RoundTrip.

(** The salt [0A] of eight bytes [7] and eight bytes [9] goes round. *)
Example matter_round_trip_salt :
  exists q : bytes,
    Parser.toMatterQB64b (repeat 7 8 ++ repeat 9 8) (str "0A") Sample.protocol
    = Ok q
    /\ Sample.fromMatterQB64b (InUint8Array q) Sample.protocol
       = Ok (str "0A", 24, repeat 7 8 ++ repeat 9 8).
Proof.
  apply (@matter_round_trip_no_lead Sample.MatterHards Sample.CountCodeStart
           Sample.OpCodeStart (repeat 7 8 ++ repeat 9 8) (str "0A")
           Sample.protocol (Sample.fixed_table 2 24 0) 2 24);
    try reflexivity.
  - repeat constructor; unfold is_byte; lia.
  - repeat constructor; unfold is_ascii; lia.
  - discriminate.
Defined.

(** C1, on a code with a lead byte.  With the sizes of the code [2___]
    (hard size 4, no soft size, full size 8, one lead byte) the check of
    [toMatterQB64b] lets a raw of one byte through, and the material it gives
    is extracted as two raw bytes: the byte is back behind a zero byte.  A raw
    of two bytes, which with the lead byte fills the full size, is refused by
    that check. *)
Theorem matter_round_trip_lead_byte :
  sizes (Sample.fixed_table 4 8 1) = mkSizes 4 0 (Some 8) 1
  /\ Parser.toMatterQB64b [1] (str "2___") Sample.protocol = Ok (str "2___AAAB")
  /\ Sample.fromMatterQB64b (InUint8Array (str "2___AAAB")) Sample.protocol
     = Ok (str "2___", 8, [0; 1])
  /\ Parser.toMatterQB64b [1; 2] (str "2___") Sample.protocol
     = Throw (Error [FText "Invalid code size and raw pad size "; FNum 0;
                     FText " given raw length "; FNum 2]).
Proof. repeat split. Qed.

(** ** Hex, the encoder *)

(** [Hex.encode] writes two lowercase digits for a byte, and they denote
    the byte. *)
Lemma byte_hex_spec (b : Z) :
  is_byte b ->
  len (Hex.byte_hex b) = 2
  /\ forallb is_lower_hex (Hex.byte_hex b) = true
  /\ Hex.toInt (Hex.byte_hex b) = Ok b.
Proof.
  intros Hb.
  pose proof (@below_forallb
    (fun b => (len (Hex.byte_hex b) =? 2)
              && forallb is_lower_hex (Hex.byte_hex b)
              && match Hex.toInt (Hex.byte_hex b) with
                 | Ok v => v =? b
                 | Throw _ => false
                 end) 256 ltac:(vm_compute; reflexivity) b Hb) as H.
  cbv beta in H. apply andb_prop in H as [H H3]. apply andb_prop in H as [H1 H2].
  apply Z.eqb_eq in H1. repeat split; try assumption.
  destruct (Hex.toInt (Hex.byte_hex b)) as [v|]; [|discriminate].
  apply Z.eqb_eq in H3. now subst.
Qed.

Lemma hex_encode_spec (bs : bytes) :
  Forall is_byte bs ->
  len (Hex.encode bs) = 2 * len bs
  /\ forallb is_lower_hex (Hex.encode bs) = true.
Proof.
  induction 1 as [|b bs Hb _ [IH1 IH2]]; [split; reflexivity|].
  destruct (byte_hex_spec Hb) as (H1 & H2 & _).
  change (Hex.encode (b :: bs)) with (Hex.byte_hex b ++ Hex.encode bs).
  rewrite len_app, len_cons, forallb_app, H1, H2, IH1, IH2. split; [lia|reflexivity].
Qed.

(** * Further properties of the code *)

(** ** Digits *)

Lemma land_shiftl_low (r v k : Z) :
  0 <= k -> 0 <= v < 2 ^ k -> Z.land (Z.shiftl r k) v = 0.
Proof.
  intros Hk Hv. apply Z.bits_inj'. intros n Hn.
  rewrite Z.land_spec, Z.bits_0.
  destruct (Z.lt_ge_cases n k) as [H|H].
  - now rewrite Z.shiftl_spec_low.
  - rewrite <- (Z.mod_small v (2 ^ k)) by lia.
    rewrite Z.mod_pow2_bits_high by lia. apply andb_false_r.
Qed.

(** One step of [toInt]: [result <<= k; result |= v] appends a digit when
    the result stays below 2^31. *)
Lemma js_or_shl (r v k : Z) :
  0 <= k < 32 -> 0 <= r -> 0 <= v < 2 ^ k -> r * 2 ^ k + v < 2147483648 ->
  js_or (js_shl r k) v = r * 2 ^ k + v.
Proof.
  intros Hk Hr Hv Hb. unfold js_or, js_shl.
  assert (H2 : 0 < 2 ^ k) by (apply Z.pow_pos_nonneg; lia).
  rewrite (Z.mod_small k 32) by lia.
  rewrite (@to_int32_small r) by nia.
  rewrite Z.shiftl_mul_pow2 by lia.
  rewrite !(@to_int32_small (r * 2 ^ k)) by nia.
  rewrite (@to_int32_small v) by nia.
  rewrite <- Z.shiftl_mul_pow2 by lia.
  rewrite <- Z.lxor_lor by (apply land_shiftl_low; lia).
  rewrite <- Z.add_nocarry_lxor by (apply land_shiftl_low; lia).
  reflexivity.
Qed.

Lemma base64_valueOf_digit (v : Z) :
  is_sextet v -> Base64.valueOf (b64_digit v) = Ok v.
Proof.
  intros Hv.
  pose proof (@below_forallb
    (fun v => match Base64.valueOf (b64_digit v) with
              | Ok w => w =? v
              | Throw _ => false
              end) 64 eq_refl v Hv) as H.
  cbv beta in H. destruct (Base64.valueOf _) as [w|]; [|discriminate].
  apply Z.eqb_eq in H. now subst.
Qed.

Lemma base64_toInt_from_value (vs : list Z) :
  forall acc,
    Forall is_sextet vs ->
    0 <= acc < 64 ^ (5 - len vs) ->
    len vs <= 5 ->
    Base64.toInt_from acc (map b64_digit vs)
    = Ok (fold_left (fun a d => a * 64 + d) vs acc).
Proof.
  induction vs as [|v vs IH]; intros acc Hvs Hacc Hlen; [reflexivity|].
  inversion_clear Hvs as [|? ? Hv Hvs'].
  cbn [map Base64.toInt_from fold_left]. rewrite (base64_valueOf_digit Hv).
  cbn [bind]. rewrite len_cons in *. pose proof (len_nonneg vs) as Hl.
  assert (Hpow : 64 ^ (5 - len vs) = 64 * 64 ^ (5 - (1 + len vs))).
  { rewrite <- Z.pow_succ_r by lia. f_equal. lia. }
  assert (Hle : 64 ^ (5 - len vs) <= 64 ^ 5) by (apply Z.pow_le_mono_r; lia).
  change (64 ^ 5) with 1073741824 in Hle.
  unfold is_sextet in Hv.
  rewrite (@js_or_shl acc v 6); change (2 ^ 6) with 64; try lia.
  apply IH; [exact Hvs'| |lia]. lia.
Qed.

Lemma base64_toInt_from_foreign (s : jsstring) :
  forall acc c,
    In c s -> indexOf c Base64.BASE64 0 = -1 ->
    Base64.toInt_from acc s = Throw (Error []).
Proof.
  induction s as [|x s IH]; intros acc c Hin Hc; [destruct Hin|].
  cbn [Base64.toInt_from]. unfold Base64.valueOf at 1. cbv zeta.
  destruct (indexOf x Base64.BASE64 0 =? -1) eqn:E; [reflexivity|].
  cbn [bind]. destruct Hin as [->|Hin].
  - rewrite Hc in E. discriminate.
  - now apply IH with (c := c).
Qed.

(** X1.  [Base64.toInt] reads up to five characters of the alphabet as a
    number in base 64, the first character the most significant; and it
    throws on a string that holds a character outside the alphabet. *)
Theorem base64_toInt_value :
  (forall vs : list Z,
      Forall is_sextet vs ->
      len vs <= 5 ->
      Base64.toInt (map b64_digit vs) = Ok (digits_value 64 vs))
  /\ (forall (s : jsstring) (c : Z),
         In c s ->
         is_url_safe c = false ->
         Base64.toInt s = Throw (Error [])).
Proof.
  split.
  - intros vs Hvs Hlen. unfold Base64.toInt, digits_value.
    apply base64_toInt_from_value; try assumption.
    pose proof (len_nonneg vs).
    split; [lia|]. apply Z.pow_pos_nonneg; lia.
  - intros s c Hin Hc. unfold Base64.toInt.
    apply base64_toInt_from_foreign with (c := c); [exact Hin|].
    unfold is_url_safe in Hc. apply negb_false_iff in Hc. now apply Z.eqb_eq.
Qed.

Lemma base64_toInt_value_witness :
  Base64.toInt (str "AD") = Ok 3
  /\ Base64.toInt (str "B_-a9") = Ok 33547965
  /\ Base64.toInt (str "A+") = Throw (Error []).
Proof.
  split; [|split].
  - apply (proj1 base64_toInt_value [0; 3]).
    + repeat constructor; unfold is_sextet; lia.
    + vm_compute. discriminate.
  - apply (proj1 base64_toInt_value [1; 63; 62; 26; 61]).
    + repeat constructor; unfold is_sextet; lia.
    + vm_compute. discriminate.
  - apply (proj2 base64_toInt_value (str "A+") 43).
    + simpl. auto.
    + reflexivity.
Defined.

(** ** Hex and [readInt] *)

Lemma hex_pair_values (b : Z) :
  is_byte b ->
  exists u1 u2,
    Hex.toUpperCase (Hex.byte_hex b) = [u1; u2]
    /\ Hex.valueOf u1 = Ok (b / 16)
    /\ Hex.valueOf u2 = Ok (b mod 16).
Proof.
  intros Hb.
  pose proof (@below_forallb
    (fun b => match Hex.toUpperCase (Hex.byte_hex b) with
              | [u1; u2] =>
                  match Hex.valueOf u1, Hex.valueOf u2 with
                  | Ok a, Ok c => (a =? b / 16) && (c =? b mod 16)
                  | _, _ => false
                  end
              | _ => false
              end) 256 ltac:(vm_compute; reflexivity) b Hb) as H.
  cbv beta in H.
  destruct (Hex.toUpperCase (Hex.byte_hex b)) as [|u1 [|u2 [|? ?]]];
    try discriminate.
  destruct (Hex.valueOf u1) as [a|] eqn:E1; [|discriminate].
  destruct (Hex.valueOf u2) as [c|] eqn:E2; [|discriminate].
  apply andb_prop in H as [H1 H2]. apply Z.eqb_eq in H1, H2. subst.
  exists u1, u2. now rewrite E1, E2.
Qed.

Lemma hex_toInt_from_bytes (bs : bytes) :
  forall acc,
    Forall is_byte bs ->
    0 <= acc < 256 ^ (3 - len bs) ->
    len bs <= 3 ->
    Hex.toInt_from acc (Hex.toUpperCase (Hex.encode bs))
    = Ok (readInt_from acc bs).
Proof.
  induction bs as [|b bs IH]; intros acc Hbs Hacc Hlen; [reflexivity|].
  inversion_clear Hbs as [|? ? Hb Hbs'].
  change (Hex.encode (b :: bs)) with (Hex.byte_hex b ++ Hex.encode bs).
  unfold Hex.toUpperCase in *. rewrite map_app.
  destruct (hex_pair_values Hb) as (u1 & u2 & Hu & H1 & H2).
  unfold Hex.toUpperCase in Hu. rewrite Hu.
  cbn [app Hex.toInt_from readInt_from]. rewrite H1. cbn [bind]. rewrite H2.
  cbn [bind]. rewrite len_cons in *. pose proof (len_nonneg bs) as Hl.
  assert (Hpow : 256 ^ (3 - len bs) = 256 * 256 ^ (3 - (1 + len bs))).
  { rewrite <- Z.pow_succ_r by lia. f_equal. lia. }
  assert (Hle : 256 ^ (3 - len bs) <= 256 ^ 3) by (apply Z.pow_le_mono_r; lia).
  change (256 ^ 3) with 16777216 in Hle.
  unfold is_byte in Hb.
  assert (Hq : 0 <= b / 16 < 16) by (Z.div_mod_to_equations; lia).
  assert (Hr : 0 <= b mod 16 < 16) by (Z.div_mod_to_equations; lia).
  rewrite (@js_or_shl acc (b / 16) 4); change (2 ^ 4) with 16; try lia.
  rewrite (@js_or_shl (acc * 16 + b / 16) (b mod 16) 4);
    change (2 ^ 4) with 16; try lia.
  replace ((acc * 16 + b / 16) * 16 + b mod 16) with (acc * 256 + b)
    by (Z.div_mod_to_equations; lia).
  apply IH; [exact Hbs'| |lia]. lia.
Qed.

(** X2.  The hexadecimal text that [Hex.encode] writes for up to three
    bytes is read by [Hex.toInt] as the number that [readInt] reads from the
    bytes. *)
Theorem hex_toInt_encode :
  forall bs : bytes,
    Forall is_byte bs ->
    len bs <= 3 ->
    Hex.toInt (Hex.encode bs) = Ok (readInt bs).
Proof.
  intros bs Hbs Hlen. unfold Hex.toInt, readInt.
  apply hex_toInt_from_bytes; try assumption.
  pose proof (len_nonneg bs). split; [lia|]. apply Z.pow_pos_nonneg; lia.
Qed.

Lemma hex_toInt_encode_witness :
  Hex.toInt (str "0000fc") = Ok 252 /\ readInt [0; 0; 252] = 252.
Proof.
  split; [|reflexivity].
  apply (@hex_toInt_encode [0; 0; 252]).
  - repeat constructor; unfold is_byte; lia.
  - vm_compute. discriminate.
Defined.

Lemma byte_hex_inj (a b : Z) :
  is_byte a -> is_byte b -> Hex.byte_hex a = Hex.byte_hex b -> a = b.
Proof.
  intros Ha Hb E.
  destruct (byte_hex_spec Ha) as (_ & _ & Ta).
  destruct (byte_hex_spec Hb) as (_ & _ & Tb).
  rewrite E in Ta. rewrite Ta in Tb. now inversion Tb.
Qed.

Lemma byte_hex_two (b : Z) :
  is_byte b -> exists c1 c2, Hex.byte_hex b = [c1; c2].
Proof.
  intros Hb. destruct (byte_hex_spec Hb) as (Hl & _ & _).
  destruct (Hex.byte_hex b) as [|c1 [|c2 [|c3 r]]]; try discriminate Hl.
  - now exists c1, c2.
  - exfalso. rewrite !len_cons in Hl. pose proof (len_nonneg r). lia.
Qed.

(** X3.  [Hex.encode] writes two lowercase hexadecimal digits for each
    byte, and two byte arrays with the same text are the same array. *)
Theorem hex_encode_shape :
  forall bs : bytes,
    Forall is_byte bs ->
    len (Hex.encode bs) = 2 * len bs
    /\ forallb is_lower_hex (Hex.encode bs) = true
    /\ (forall bs' : bytes,
           Forall is_byte bs' -> Hex.encode bs' = Hex.encode bs -> bs' = bs).
Proof.
  intros bs Hbs. destruct (hex_encode_spec Hbs) as [H1 H2].
  split; [exact H1|]. split; [exact H2|].
  clear H1 H2. induction Hbs as [|b bs Hb Hbs IH]; intros bs' Hbs' E.
  - destruct Hbs' as [|b' bs' Hb' _]; [reflexivity|].
    destruct (byte_hex_two Hb') as (c1 & c2 & Hc).
    change (Hex.encode (b' :: bs')) with (Hex.byte_hex b' ++ Hex.encode bs') in E.
    rewrite Hc in E. discriminate E.
  - destruct (byte_hex_two Hb) as (c1 & c2 & Hc).
    change (Hex.encode (b :: bs)) with (Hex.byte_hex b ++ Hex.encode bs) in E.
    rewrite Hc in E.
    destruct Hbs' as [|b' bs' Hb' Hbs']; [discriminate E|].
    destruct (byte_hex_two Hb') as (d1 & d2 & Hd).
    change (Hex.encode (b' :: bs')) with (Hex.byte_hex b' ++ Hex.encode bs') in E.
    rewrite Hd in E. cbn [app] in E. inversion E as [[E1 E2 E3]].
    f_equal.
    + apply byte_hex_inj; try assumption. rewrite Hc, Hd. now subst.
    + now apply IH.
Qed.

Lemma hex_encode_shape_witness :
  len (Hex.encode [0; 15; 255; 171]) = 8
  /\ Hex.encode [0; 15; 255; 171] = str "000fffab".
Proof.
  assert (H : Forall is_byte [0; 15; 255; 171])
    by (repeat constructor; unfold is_byte; lia).
  split; [|reflexivity].
  exact (proj1 (@hex_encode_shape [0; 15; 255; 171] H)).
Defined.

Lemma hex_decode_from_shape (s : jsstring) (n : nat) :
  forall i,
    List.length (Hex.decode_from s i n) = n
    /\ Forall is_byte (Hex.decode_from s i n).
Proof.
  induction n as [|n IH]; intros i; cbn [Hex.decode_from].
  - split; [reflexivity|constructor].
  - destruct (IH (i + 2)) as [IH1 IH2]. split; [simpl; now rewrite IH1|].
    constructor; [|exact IH2].
    unfold is_byte, Hex.to_uint8. destruct (Hex.parseInt16 _); [|lia].
    apply Z.mod_pos_bound. lia.
Qed.

(** X4.  [Hex.decode] throws on a string of odd length and on no other:
    a string of even length, whatever its characters, gives half as many
    bytes.  The text that [Hex.encode] writes for one byte decodes to that
    byte. *)
Theorem hex_decode_shape :
  (forall s : jsstring,
      len s mod 2 = 1 ->
      Hex.decode s = Throw (Error [FText "Invalid hex string"]))
  /\ (forall s : jsstring,
         len s mod 2 = 0 ->
         exists bs : bytes,
           Hex.decode s = Ok bs /\ len bs = len s / 2 /\ Forall is_byte bs)
  /\ (forall b : Z, is_byte b -> Hex.decode (Hex.encode [b]) = Ok [b]).
Proof.
  split; [|split].
  - intros s H. unfold Hex.decode, js_rem.
    rewrite Z.rem_mod_nonneg by (pose proof (len_nonneg s); lia).
    rewrite H. reflexivity.
  - intros s H. unfold Hex.decode, js_rem.
    rewrite Z.rem_mod_nonneg by (pose proof (len_nonneg s); lia).
    rewrite H. cbn [Z.eqb negb]. eexists. split; [reflexivity|].
    destruct (hex_decode_from_shape s (Z.to_nat (len s / 2)) 0) as [H1 H2].
    split; [|exact H2]. unfold len at 1. rewrite H1.
    pose proof (len_nonneg s). rewrite Z2Nat.id; [reflexivity|].
    apply Z.div_pos; lia.
  - intros b Hb.
    pose proof (@below_forallb
      (fun b => match Hex.decode (Hex.encode [b]) with
                | Ok [c] => c =? b
                | _ => false
                end) 256 ltac:(vm_compute; reflexivity) b Hb) as H.
    cbv beta in H.
    destruct (Hex.decode (Hex.encode [b])) as [[|c [|? ?]]|]; try discriminate.
    apply Z.eqb_eq in H. now subst.
Qed.

Lemma hex_decode_shape_witness :
  Hex.decode (str "abc") = Throw (Error [FText "Invalid hex string"])
  /\ (exists bs, Hex.decode (str "zz0g") = Ok bs /\ len bs = 2)
  /\ Hex.decode (Hex.encode [171]) = Ok [171].
Proof.
  destruct hex_decode_shape as (Hodd & Heven & Hone).
  split; [|split].
  - apply Hodd. reflexivity.
  - destruct (Heven (str "zz0g") eq_refl) as (bs & H1 & H2 & _).
    exists bs. split; [exact H1|exact H2].
  - apply Hone. unfold is_byte. lia.
Defined.

Lemma readInt_from_split (bs : bytes) :
  forall acc, readInt_from acc bs = acc * 256 ^ len bs + readInt bs.
Proof.
  unfold readInt. induction bs as [|b bs IH]; intros acc.
  - cbn [readInt_from]. change (len (@nil Z)) with 0. lia.
  - cbn [readInt_from]. rewrite (IH (acc * 256 + b)), (IH (0 * 256 + b)).
    rewrite len_cons. pose proof (len_nonneg bs).
    replace (1 + len bs) with (Z.succ (len bs)) by lia.
    rewrite Z.pow_succ_r by lia. lia.
Qed.

Lemma readInt_bound (bs : bytes) :
  Forall is_byte bs -> 0 <= readInt bs < 256 ^ len bs.
Proof.
  unfold is_byte. induction 1 as [|b bs Hb _ IH].
  - change (readInt []) with 0. change (len (@nil Z)) with 0. lia.
  - unfold readInt. cbn [readInt_from]. rewrite readInt_from_split.
    rewrite len_cons. pose proof (len_nonneg bs).
    replace (1 + len bs) with (Z.succ (len bs)) by lia.
    rewrite Z.pow_succ_r by lia.
    assert (0 < 256 ^ len bs) by (apply Z.pow_pos_nonneg; lia). nia.
Qed.

(** X5.  [readInt] reads up to six bytes, where the arithmetic of the code
    is exact, as a number in base 256, the first byte the most significant:
    the number of [n] bytes is below 256^n, the number of two arrays joined
    is the first shifted by the length of the second plus the second, and
    the number is 0 exactly when every byte is 0. *)
Theorem readInt_value :
  forall bs : bytes,
    Forall is_byte bs ->
    len bs <= 6 ->
    0 <= readInt bs < 256 ^ len bs
    /\ readInt bs < 2 ^ 53
    /\ (forall bs' : bytes,
           Forall is_byte bs' ->
           len bs' + len bs <= 6 ->
           readInt (bs' ++ bs) = readInt bs' * 256 ^ len bs + readInt bs)
    /\ (readInt bs = 0 <-> Forall (fun b => b = 0) bs).
Proof.
  intros bs Hbs Hlen. pose proof (readInt_bound Hbs) as Hr.
  split; [exact Hr|]. split.
  { assert (256 ^ len bs <= 256 ^ 6)
      by (apply Z.pow_le_mono_r; [lia|exact Hlen]).
    change (256 ^ 6) with 281474976710656 in *.
    change (2 ^ 53) with 9007199254740992. lia. }
  split.
  - intros bs' _ _. unfold readInt at 1.
    assert (H : forall l acc, readInt_from acc (l ++ bs)
                              = readInt_from (readInt_from acc l) bs).
    { induction l as [|x l IH]; intros acc; [reflexivity|].
      cbn [app readInt_from]. apply IH. }
    rewrite H. apply readInt_from_split.
  - clear Hlen Hr. induction Hbs as [|b bs Hb Hbs IH].
    + split; [constructor|reflexivity].
    + unfold readInt. cbn [readInt_from]. rewrite readInt_from_split.
      pose proof (readInt_bound Hbs) as Hr. unfold is_byte in Hb.
      assert (0 < 256 ^ len bs)
        by (apply Z.pow_pos_nonneg; [lia|apply len_nonneg]).
      split.
      * intros E. assert (b = 0) by nia. subst b.
        constructor; [reflexivity|]. apply IH. lia.
      * intros F. inversion_clear F as [|? ? Hb0 F']. subst b.
        apply IH in F'. lia.
Qed.

Lemma readInt_value_witness :
  readInt [1; 2; 3] = 66051 /\ readInt ([1] ++ [2; 3]) = 1 * 256 ^ 2 + 515.
Proof.
  assert (H : Forall is_byte [2; 3]) by (repeat constructor; unfold is_byte; lia).
  assert (H1 : Forall is_byte [1]) by (repeat constructor; unfold is_byte; lia).
  assert (L : len [2; 3] <= 6) by (vm_compute; discriminate).
  split; [reflexivity|].
  apply (proj1 (proj2 (proj2 (@readInt_value [2; 3] H L))) [1] H1).
  vm_compute. discriminate.
Defined.

(** ** The shape of the Base64 codec *)

Lemma list_ind4 {A} (P : list A -> Prop) :
  P [] ->
  (forall a, P [a]) ->
  (forall a b, P [a; b]) ->
  (forall a b c, P [a; b; c]) ->
  (forall a b c d l, P l -> P (a :: b :: c :: d :: l)) ->
  forall l, P l.
Proof.
  intros H0 H1 H2 H3 H4 l.
  assert (H : P l /\ (forall a, P (a :: l)) /\ (forall a b, P (a :: b :: l))
              /\ (forall a b c, P (a :: b :: c :: l))).
  { induction l as [|x l IH].
    - auto.
    - destruct IH as (I0 & I1 & I2 & I3). auto. }
  apply H.
Qed.

Lemma indexOf_nth (c : Z) (s : jsstring) :
  forall i,
    0 <= i ->
    indexOf c s i <> -1 ->
    nth (Z.to_nat (indexOf c s i - i)) s 0 = c.
Proof.
  induction s as [|x s IH]; intros i Hi H; cbn [indexOf] in *; [congruence|].
  destruct (x =? c) eqn:E.
  - apply Z.eqb_eq in E. rewrite Z.sub_diag. exact E.
  - destruct (indexOf_range c s (i + 1)) as [R|R]; [congruence|].
    replace (Z.to_nat (indexOf c s (i + 1) - i))
      with (S (Z.to_nat (indexOf c s (i + 1) - (i + 1)))) by lia.
    cbn [nth]. apply IH; [lia|exact H].
Qed.

Lemma url_safe_digit (c : Z) :
  is_url_safe c = true -> exists v, is_sextet v /\ c = b64_digit v.
Proof.
  unfold is_url_safe. intros H. apply negb_true_iff, Z.eqb_neq in H.
  exists (indexOf c Base64.BASE64 0). split.
  - destruct (indexOf_range c Base64.BASE64 0) as [R|R]; [congruence|].
    exact R.
  - unfold b64_digit. symmetry.
    replace (indexOf c Base64.BASE64 0) with (indexOf c Base64.BASE64 0 - 0)
      by lia.
    apply indexOf_nth; [lia|exact H].
Qed.

Lemma url_safe_digits (s : jsstring) :
  forallb is_url_safe s = true ->
  exists vs, Forall is_sextet vs /\ s = map b64_digit vs.
Proof.
  induction s as [|c s IH]; intros H.
  - exists []. split; [constructor|reflexivity].
  - cbn [forallb] in H. apply andb_prop in H as [Hc Hs].
    destruct (url_safe_digit _ Hc) as (v & Hv & ->).
    destruct (IH Hs) as (vs & Hvs & ->).
    exists (v :: vs). split; [now constructor|reflexivity].
Qed.

Lemma b64_digit_enc (v : Z) :
  is_sextet v ->
  b64_digit v = enc_unit (Base64.std_char v)
  /\ dec_unit (b64_digit v) = Base64.std_char v
  /\ is_url_safe (b64_digit v) = true.
Proof.
  intros Hv.
  pose proof (@below_forallb
    (fun v => (b64_digit v =? enc_unit (Base64.std_char v))
              && (dec_unit (b64_digit v) =? Base64.std_char v)
              && is_url_safe (b64_digit v)) 64 eq_refl v Hv) as H.
  cbv beta in H. apply andb_prop in H as [H H3]. apply andb_prop in H as [H1 H2].
  apply Z.eqb_eq in H1, H2. auto.
Qed.

Lemma sextets_len_pad (l : list Z) :
  len (sextets l) = (4 * len l + 2) / 3
  /\ Z.of_nat (padn l) = (3 - len l mod 3) mod 3.
Proof.
  induction l as [|a|a b|a b c l [IH1 IH2]] using list_ind3;
    try (split; reflexivity).
  cbn [sextets padn]. rewrite !len_cons, IH1, IH2.
  pose proof (len_nonneg l). split; Z.div_mod_to_equations; lia.
Qed.

(** X6.  [encodeBase64Url] writes characters of the URL-safe alphabet only,
    as many as the bits of the bytes need (the ceiling of 4n/3), and, when it
    does not strip, pads with ['='] to a multiple of four characters. *)
Theorem base64_encode_shape :
  forall b : bytes,
    Forall is_byte b ->
    exists text : jsstring,
      Base64.encodeBase64Url b true = Ok text
      /\ Base64.encodeBase64Url b false
         = Ok (text ++ repeat_unit 61 ((3 - len b mod 3) mod 3))
      /\ len text = (4 * len b + 2) / 3
      /\ forallb is_url_safe text = true.
Proof.
  intros b Hb. pose proof (sextets_range Hb) as Hs.
  destruct (sextets_len_pad b) as [L P].
  exists (map (fun v => enc_unit (Base64.std_char v)) (sextets b)).
  rewrite !encodeBase64Url_text by exact Hb.
  split; [now rewrite app_nil_r|]. split.
  { unfold repeat_unit. now rewrite <- P, Nat2Z.id. }
  split.
  - unfold len in *. now rewrite length_map.
  - apply forallb_forall. intros c Hc. apply in_map_iff in Hc.
    destruct Hc as (v & <- & Hin). rewrite Forall_forall in Hs.
    destruct (b64_digit_enc (Hs v Hin)) as (E & _ & U). now rewrite <- E.
Qed.

Lemma base64_encode_shape_witness :
  exists text : jsstring,
    Base64.encodeBase64Url [255; 254] true = Ok text
    /\ Base64.encodeBase64Url [255; 254] false = Ok (text ++ [61])
    /\ len text = 3
    /\ forallb is_url_safe text = true.
Proof.
  apply (@base64_encode_shape [255; 254]).
  repeat constructor; unfold is_byte; lia.
Defined.

Lemma atob_units_len (vs : list Z) :
  len (Base64.atob_units vs) = 3 * len vs / 4.
Proof.
  induction vs as [|a|a b|a b c|a b c d vs IH] using list_ind4;
    try reflexivity.
  cbn [Base64.atob_units]. rewrite !len_cons, IH.
  pose proof (len_nonneg vs). Z.div_mod_to_equations; lia.
Qed.

Lemma std_chars_plain (vs : list Z) :
  Forall is_sextet vs ->
  Forall (fun c => c <> 61) (map Base64.std_char vs)
  /\ Forall (fun c => Base64.is_ascii_whitespace c = false)
       (map Base64.std_char vs).
Proof.
  intros Hs.
  assert (Hplain : Forall (fun c => plain_unit c = true)
                     (map Base64.std_char vs)).
  { apply Forall_map. eapply Forall_impl; [|exact Hs].
    intros v Hv. now apply std_char_plain. }
  split; (eapply Forall_impl; [|exact Hplain]);
    intros c Hc; now apply plain_unit_spec in Hc.
Qed.

(** [atob] on characters of the alphabet followed by the padding that
    [decodeBase64Url] adds. *)
Lemma atob_body (vs : list Z) (k : nat) :
  Forall is_sextet vs ->
  (k <= 3)%nat ->
  (len vs + Z.of_nat k) mod 4 = 0 ->
  Base64.atob (map Base64.std_char vs ++ repeat 61 k)
  = if Nat.eqb k 3 then Throw InvalidCharacterError
    else Ok (Base64.atob_units vs).
Proof.
  intros Hs Hk Hm. destruct (std_chars_plain Hs) as [Hne Hws].
  unfold Base64.atob.
  rewrite filter_plain.
  2:{ apply Forall_app. split; [exact Hws|].
      apply Forall_forall. intros c Hc. apply repeat_spec in Hc. now subst. }
  assert (Hl : len (map Base64.std_char vs) = len vs)
    by (unfold len; now rewrite length_map).
  rewrite len_app, len_repeat, Hl, Hm. simpl (0 =? 0). cbv iota.
  destruct (Nat.eqb k 3) eqn:E.
  - apply Nat.eqb_eq in E. subst k.
    assert (R : Base64.remove_padding (map Base64.std_char vs ++ repeat 61 3)
                = map Base64.std_char vs ++ [61]).
    { unfold Base64.remove_padding. rewrite rev_app_distr. simpl.
      now rewrite rev_involutive. }
    rewrite R, len_app, Hl. change (len [61]) with 1.
    replace ((len vs + 1) mod 4 =? 1) with false
      by (symmetry; apply Z.eqb_neq; change (Z.of_nat 3) with 3 in Hm;
          Z.div_mod_to_equations; lia).
    rewrite (@std_values_none 61 (map Base64.std_char vs ++ [61]));
      [reflexivity| |reflexivity].
    apply in_or_app. right. now left.
  - apply Nat.eqb_neq in E.
    rewrite remove_padding_body by (try exact Hne; lia).
    rewrite Hl.
    replace (len vs mod 4 =? 1) with false
      by (symmetry; apply Z.eqb_neq; Z.div_mod_to_equations; lia).
    now rewrite (std_values_chars Hs).
Qed.

Lemma decodeBase64Url_digits (vs : list Z) :
  Forall is_sextet vs ->
  Base64.decodeBase64Url (map b64_digit vs)
  = if len vs mod 4 =? 1 then Throw InvalidCharacterError
    else Ok (Base64.atob_units vs).
Proof.
  intros Hs. unfold Base64.decodeBase64Url.
  rewrite replace_dec, map_map.
  assert (Hbody : map (fun v => dec_unit (b64_digit v)) vs
                  = map Base64.std_char vs).
  { apply map_ext_in. intros v Hv. rewrite Forall_forall in Hs.
    apply (b64_digit_enc (Hs v Hv)). }
  rewrite Hbody.
  assert (Hl : len (map Base64.std_char vs) = len vs)
    by (unfold len; now rewrite length_map).
  pose proof (len_nonneg vs) as Hn.
  unfold js_rem, repeat_unit. rewrite Hl, Z.rem_mod_nonneg by lia.
  pose proof (Z.mod_pos_bound (len vs) 4 ltac:(lia)) as Hb.
  destruct (0 <? len vs mod 4) eqn:E;
    [apply Z.ltb_lt in E | apply Z.ltb_ge in E].
  - rewrite atob_body; [|exact Hs|lia|].
    2:{ rewrite Z2Nat.id by lia. Z.div_mod_to_equations; lia. }
    destruct (len vs mod 4 =? 1) eqn:E1;
      [apply Z.eqb_eq in E1 | apply Z.eqb_neq in E1].
    + rewrite E1. reflexivity.
    + replace (Nat.eqb (Z.to_nat (4 - len vs mod 4)) 3) with false
        by (symmetry; apply Nat.eqb_neq; lia).
      reflexivity.
  - replace (len vs mod 4) with 0 by lia. change (Z.to_nat 0) with 0%nat.
    rewrite (@atob_body vs 0 Hs); [reflexivity|lia|].
    rewrite Z.add_0_r. lia.
Qed.

(** X7.  On characters of the URL-safe alphabet [decodeBase64Url] depends
    on the length only: a length of 1 modulo 4 is refused with the
    platform's [InvalidCharacterError], every other length gives the floor
    of 3n/4 bytes, each in 0..255. *)
Theorem base64_decode_shape :
  forall s : bytes,
    forallb is_url_safe s = true ->
    (len s mod 4 = 1 ->
     Base64.decodeBase64Url s = Throw InvalidCharacterError)
    /\ (len s mod 4 <> 1 ->
        exists out : bytes,
          Base64.decodeBase64Url s = Ok out
          /\ len out = 3 * len s / 4
          /\ Forall is_byte out).
Proof.
  intros s Hs. destruct (url_safe_digits s Hs) as (vs & Hvs & ->).
  assert (Hl : len (map b64_digit vs) = len vs)
    by (unfold len; now rewrite length_map).
  rewrite Hl, (decodeBase64Url_digits Hvs). split; intros H.
  - now rewrite H.
  - apply Z.eqb_neq in H. rewrite H.
    exists (Base64.atob_units vs). split; [reflexivity|]. split.
    + apply atob_units_len.
    + now apply atob_units_bytes.
Qed.

Lemma base64_decode_shape_witness :
  Base64.decodeBase64Url (str "A-_4b") = Throw InvalidCharacterError
  /\ exists out : bytes,
       Base64.decodeBase64Url (str "-_4") = Ok out
       /\ len out = 3 * len (str "-_4") / 4
       /\ Forall is_byte out.
Proof.
  split.
  - apply (proj1 (@base64_decode_shape (str "A-_4b") eq_refl)). reflexivity.
  - apply (proj2 (@base64_decode_shape (str "-_4") eq_refl)).
    vm_compute. discriminate.
Defined.

Lemma readInt_from_atob_units (vs : list Z) :
  forall acc,
    len vs mod 4 = 0 ->
    readInt_from acc (Base64.atob_units vs)
    = fold_left (fun a d => a * 64 + d) vs acc.
Proof.
  induction vs as [|a|a b|a b c|a b c d vs IH] using list_ind4;
    intros acc H; try discriminate H; [reflexivity|].
  cbn [Base64.atob_units readInt_from fold_left].
  rewrite IH.
  - f_equal. Z.div_mod_to_equations; lia.
  - rewrite !len_cons in H. pose proof (len_nonneg vs).
    Z.div_mod_to_equations; lia.
Qed.

(** X8.  Four or eight characters of the alphabet decode to three or six
    bytes that, read by [readInt], are the characters read as a number in
    base 64; for four characters that number is what [Base64.toInt] gives.
    (From twelve characters on [readInt] rounds.) *)
Theorem base64_decode_toInt :
  forall vs : list Z,
    Forall is_sextet vs ->
    len vs mod 4 = 0 ->
    len vs <= 8 ->
    exists out : bytes,
      Base64.decodeBase64Url (map b64_digit vs) = Ok out
      /\ len out <= 6
      /\ readInt out = digits_value 64 vs
      /\ (len vs = 4 -> Base64.toInt (map b64_digit vs) = Ok (readInt out)).
Proof.
  intros vs Hvs Hm H8. exists (Base64.atob_units vs).
  rewrite (decodeBase64Url_digits Hvs), Hm.
  split; [reflexivity|]. split.
  { rewrite atob_units_len. pose proof (len_nonneg vs).
    Z.div_mod_to_equations; lia. }
  assert (E : readInt (Base64.atob_units vs) = digits_value 64 vs)
    by (apply readInt_from_atob_units; exact Hm).
  split; [exact E|]. intros H4. rewrite E.
  unfold Base64.toInt, digits_value.
  apply base64_toInt_from_value; [exact Hvs| |lia].
  rewrite H4. simpl. lia.
Qed.

Lemma base64_decode_toInt_witness :
  exists out : bytes,
    Base64.decodeBase64Url (str "B_-a") = Ok out
    /\ len out <= 6
    /\ readInt out = 524186
    /\ (len [1; 63; 62; 26] = 4 -> Base64.toInt (str "B_-a") = Ok (readInt out)).
Proof.
  apply (@base64_decode_toInt [1; 63; 62; 26]).
  - repeat constructor; unfold is_sextet; lia.
  - reflexivity.
  - vm_compute. discriminate.
Defined.

(** ** The length of decoded text *)

Lemma utf16_of_cp_len (cp : Z) : len (Utf8.utf16_of_cp cp) <= 2.
Proof.
  unfold Utf8.utf16_of_cp. destruct (cp <? 0x10000); unfold len; simpl; lia.
Qed.

Lemma utf8_lead_units (b : Z) :
  len (flat_map Utf8.utf16_of_cp (fst (Utf8.lead b)))
  + (if Utf8.d_needed (snd (Utf8.lead b)) =? 0 then 0 else 1) <= 1.
Proof.
  unfold Utf8.lead.
  destruct (b <=? 0x7F) eqn:E1.
  { cbn. unfold Utf8.utf16_of_cp. apply Z.leb_le in E1.
    destruct (b <? 0x10000) eqn:E2; [reflexivity|].
    apply Z.ltb_ge in E2. lia. }
  destruct ((0xC2 <=? b) && (b <=? 0xDF)); [cbn; lia|].
  destruct ((0xE0 <=? b) && (b <=? 0xEF)); [cbn; lia|].
  destruct ((0xF0 <=? b) && (b <=? 0xF4)); [cbn; lia|].
  cbn. lia.
Qed.

Lemma utf8_code_points_units (bs : bytes) :
  forall st,
    len (flat_map Utf8.utf16_of_cp (Utf8.code_points st bs))
    <= len bs + (if Utf8.d_needed st =? 0 then 0 else 1).
Proof.
  induction bs as [|b bs IH]; intros st.
  - cbn [Utf8.code_points]. destruct (Utf8.d_needed st =? 0); cbn; lia.
  - cbn [Utf8.code_points].
    destruct (Utf8.dstep st b) as [out st'] eqn:Ed.
    rewrite flat_map_app, len_app, len_cons. specialize (IH st').
    assert (Hstep : len (flat_map Utf8.utf16_of_cp out)
                    + (if Utf8.d_needed st' =? 0 then 0 else 1)
                    <= 1 + (if Utf8.d_needed st =? 0 then 0 else 1));
      [|lia].
    unfold Utf8.dstep in Ed. pose proof (utf8_lead_units b) as Hl.
    destruct (Utf8.d_needed st =? 0).
    + rewrite Ed in Hl. cbn [fst snd] in Hl. lia.
    + destruct ((b <? Utf8.d_lower st) || (Utf8.d_upper st <? b)).
      * destruct (Utf8.lead b) as [o s']. inversion Ed; subst.
        cbn [fst snd] in Hl.
        change (flat_map Utf8.utf16_of_cp (65533 :: o))
          with (Utf8.utf16_of_cp 65533 ++ flat_map Utf8.utf16_of_cp o).
        rewrite len_app. change (len (Utf8.utf16_of_cp 65533)) with 1. lia.
      * destruct (Utf8.d_seen st + 1 =? Utf8.d_needed st);
          inversion Ed; subst.
        -- cbn [flat_map]. rewrite app_nil_r.
           pose proof (utf16_of_cp_len (Utf8.d_cp st * 64 + b mod 64)).
           cbn. lia.
        -- cbn. destruct (Utf8.d_needed st =? 0); lia.
Qed.

(** [TextDecoder] gives at most one code unit for a byte. *)
Lemma utf8_decode_len (bs : bytes) : len (Utf8.decode bs) <= len bs.
Proof.
  unfold Utf8.decode. pose proof (utf8_code_points_units bs Utf8.d0) as H.
  cbn [Utf8.d_needed Utf8.d0 Z.eqb] in H.
  destruct (Utf8.code_points Utf8.d0 bs) as [|c r]; [cbn in *; lia|].
  destruct (c =? 0xFEFF); [|lia].
  change (flat_map Utf8.utf16_of_cp (c :: r))
    with (Utf8.utf16_of_cp c ++ flat_map Utf8.utf16_of_cp r) in H.
  rewrite len_app in H. pose proof (len_nonneg (Utf8.utf16_of_cp c)). lia.
Qed.

(** ** [getCesrValue] *)

(** X9.  A value that [getCesrValue] returns has for its header the
    derivation code that the table of the protocol for the selector maps the
    first characters of the selector to, as many as the code size of that
    table; its bytes are the first bytes of the input, as many as that table
    gives for the total length of the code, and the input has them. *)
Theorem getCesrValue_prefix :
  forall (protocol : CesrProtocol) (input : Input) (v : CesrValue),
    Parser.getCesrValue protocol input = Ok v ->
    exists (code : CesrDerivationCode) (table : CesrCodeTable) (cs : Z),
      getSelectorSize protocol (input_selector input)
      <= len (input_selector input)
      /\ getCodeTable protocol
           (slice (input_selector input) 0
              (getSelectorSize protocol (input_selector input)))
         = Ok table
      /\ codeSize table = Ok cs
      /\ cs <= len (input_selector input)
      /\ mapCodeHeader table (slice (input_selector input) 0 cs) = Ok code
      /\ header v = DerivationCode code
      /\ getTotalLength table code = Ok (cv_length v)
      /\ cv_length v <= len (input_bytes input)
      /\ cv_value v = firstn (Z.to_nat (cv_length v)) (input_bytes input).
Proof.
  intros protocol input v H. unfold Parser.getCesrValue in H.
  assert (Hin : match input with
                | InString s => Ok (slice s 0 8, Utf8.encode s)
                | InUint8Array b => Ok (Utf8.decode (slice b 0 8), b)
                | InOther =>
                    Throw (TypeError
                             [FText "expected input 'string' or 'Uint8Array'"])
                end = Ok (input_selector input, input_bytes input)).
  { destruct input as [s|b|]; [reflexivity..|discriminate H]. }
  cbv zeta in H. rewrite Hin in H. cbn [bind] in H.
  set (bs := input_bytes input) in *. clearbody bs.
  set (sel := input_selector input) in *. clearbody sel. clear Hin.
  destruct (getSelectorSize protocol sel >? len sel) eqn:Es; [discriminate|].
  destruct (getCodeTable protocol _) as [table|] eqn:Etab; [|discriminate].
  cbn [bind] in H. destruct (codeSize table) as [cs|] eqn:Ecs; [|discriminate].
  cbn [bind] in H. destruct (cs >? len sel) eqn:Ec; [discriminate|].
  destruct (mapCodeHeader table _) as [code|] eqn:Em; [|discriminate].
  cbn [bind] in H. destruct (getTotalLength table code) as [total|] eqn:Et;
    [|discriminate].
  cbn [bind] in H. destruct (total >? len bs) eqn:Eg; [discriminate|].
  destruct (total =? len (slice bs 0 total)) eqn:El; [|discriminate].
  cbn [negb] in H. inversion H; subst v; clear H.
  apply Z.eqb_eq in El. rewrite Z.gtb_ltb in Eg, Es, Ec.
  apply Z.ltb_ge in Eg, Es, Ec.
  exists code, table, cs. unfold cv_length. cbn [header cv_value].
  assert (H0 : 0 <= total) by (rewrite El; apply len_nonneg).
  rewrite <- El.
  repeat (split; [first [assumption | reflexivity]|]). now apply slice_0.
Qed.

Lemma getCesrValue_prefix_witness :
  exists (code : CesrDerivationCode) (table : CesrCodeTable) (cs : Z),
    8 <= len (input_selector (InUint8Array (salt_stream ++ str "MAAA")))
    /\ Sample.lookup (str "0AAAAAAA") = Ok table
    /\ codeSize table = Ok cs
    /\ cs <= len (input_selector (InUint8Array (salt_stream ++ str "MAAA")))
    /\ mapCodeHeader table (slice (str "0AAAAAAA") 0 cs) = Ok code
    /\ DerivationCode
         (mkDerivationCode (str "0A") (str "0A") (str "0A") None None
            None None None None None None None None)
       = DerivationCode code
    /\ getTotalLength table code = Ok 24
    /\ 24 <= len (salt_stream ++ str "MAAA")
    /\ salt_stream = firstn 24 (salt_stream ++ str "MAAA").
Proof.
  apply (@getCesrValue_prefix Sample.protocol
           (InUint8Array (salt_stream ++ str "MAAA"))
           (mkCesrValue
              (DerivationCode
                 (mkDerivationCode (str "0A") (str "0A") (str "0A") None None
                    None None None None None None None None))
              salt_stream)).
  reflexivity.
Defined.

(** X10.  Under a protocol whose selector size is the 8 of
    [CesrSchemaProtocol], [getCesrValue] refuses an input of fewer than 8
    bytes, whatever code it holds: the last value of a frame is read only
    when at least 8 bytes are left. *)
Theorem getCesrValue_short_input :
  forall (protocol : CesrProtocol) (input : bytes),
    (forall s, getSelectorSize protocol s
               = CesrSchemaProtocol_getSelectorSize s) ->
    len input < 8 ->
    Parser.getCesrValue protocol (InUint8Array input)
    = Throw (UnknownCodeError [FText "getCesrValue "; FStr (name protocol)]
               (FStr (Utf8.decode input))).
Proof.
  intros protocol input Hsel Hlen.
  unfold Parser.getCesrValue. cbn [bind]. cbv zeta.
  assert (Hs : slice input 0 8 = input).
  { rewrite slice_0 by lia. apply firstn_all2. unfold len in Hlen. lia. }
  rewrite Hs, Hsel. unfold CesrSchemaProtocol_getSelectorSize.
  pose proof (utf8_decode_len input) as Hd.
  replace (8 >? len (Utf8.decode input)) with true; [reflexivity|].
  symmetry. rewrite Z.gtb_ltb. apply Z.ltb_lt. lia.
Qed.

Lemma getCesrValue_short_input_witness :
  Parser.getCesrValue Sample.protocol (InUint8Array (str "MAAA"))
  = Throw (UnknownCodeError
             [FText "getCesrValue "; FStr (name Sample.protocol)]
             (FStr (Utf8.decode (str "MAAA"))))
  /\ Sample.lookup (str "M") = Ok (Sample.fixed_table 1 4 0).
Proof.
  split; [|reflexivity].
  apply (@getCesrValue_short_input Sample.protocol (str "MAAA")).
  - reflexivity.
  - reflexivity.
Defined.

(** X11.  The abstract [CesrProtocol] has no code table: over it
    [getCesrValue] throws an [UnknownCodeError] on every string and every
    byte array. *)
Theorem abstract_protocol_rejects :
  forall input : Input,
    input <> InOther ->
    exists e,
      Parser.getCesrValue CesrProtocol_base input = Throw e
      /\ is_UnknownCodeError e.
Proof.
  intros input Hin. unfold Parser.getCesrValue.
  destruct input as [s|b|]; [| |congruence]; cbn [bind]; cbv zeta;
    cbn [getSelectorSize getCodeTable CesrProtocol_base].
  - destruct (1 >? len (slice s 0 8));
      (eexists; split; [reflexivity|eexists; eexists; reflexivity]).
  - destruct (1 >? len (Utf8.decode (slice b 0 8)));
      (eexists; split; [reflexivity|eexists; eexists; reflexivity]).
Qed.

Lemma abstract_protocol_rejects_witness :
  exists e,
    Parser.getCesrValue CesrProtocol_base (InUint8Array salt_stream) = Throw e
    /\ is_UnknownCodeError e.
Proof.
  apply (@abstract_protocol_rejects (InUint8Array salt_stream)).
  discriminate.
Defined.

(** ** [fromMatterQB64b] *)

Lemma base64_toInt_from_url_safe (s : jsstring) :
  forall acc n,
    Base64.toInt_from acc s = Ok n -> forallb is_url_safe s = true.
Proof.
  induction s as [|c s IH]; intros acc n H; [reflexivity|].
  cbn [Base64.toInt_from] in H. unfold Base64.valueOf at 1 in H.
  cbv zeta in H. cbn [forallb]. unfold is_url_safe at 1.
  destruct (indexOf c Base64.BASE64 0 =? -1); [discriminate|].
  cbn [bind negb andb] in *. now apply IH in H.
Qed.

Lemma digits_value_nonneg (vs : list Z) :
  forall acc,
    Forall is_sextet vs -> 0 <= acc ->
    0 <= fold_left (fun a d => a * 64 + d) vs acc.
Proof.
  induction vs as [|v vs IH]; intros acc H Hacc; [exact Hacc|].
  inversion_clear H as [|? ? Hv Hvs]. cbn [fold_left].
  apply IH; [exact Hvs|]. unfold is_sextet in Hv. lia.
Qed.

Lemma base64_toInt_nonneg (s : jsstring) (n : Z) :
  len s <= 5 -> Base64.toInt s = Ok n -> 0 <= n.
Proof.
  intros Hlen H. pose proof (base64_toInt_from_url_safe _ _ H) as Hu.
  destruct (url_safe_digits s Hu) as (vs & Hvs & ->).
  assert (Hl : len (map b64_digit vs) = len vs)
    by (unfold len; now rewrite length_map).
  unfold Base64.toInt in H.
  rewrite base64_toInt_from_value in H; [|exact Hvs| |lia].
  - inversion H. apply digits_value_nonneg; [exact Hvs|lia].
  - pose proof (len_nonneg vs). split; [lia|]. apply Z.pow_pos_nonneg; lia.
Qed.

Lemma slice_app_within {A} (q rest : list A) (s e : Z) :
  0 <= s -> 0 <= e <= len q -> slice (q ++ rest) s e = slice q s e.
Proof.
  intros Hs He. unfold slice, rel_index. rewrite len_app.
  pose proof (len_nonneg q) as Hq. pose proof (len_nonneg rest) as Hr.
  destruct (s <? 0) eqn:E1; [apply Z.ltb_lt in E1; lia|].
  destruct (e <? 0) eqn:E2; [apply Z.ltb_lt in E2; lia|].
  rewrite (Z.min_l e (len q + len rest)), (Z.min_l e (len q)) by lia.
  destruct (Z.le_gt_cases s (len q)) as [Hle|Hgt].
  - rewrite (Z.min_l s (len q + len rest)), (Z.min_l s (len q)) by lia.
    rewrite skipn_app, firstn_app.
    replace (Z.to_nat (e - s) - List.length (skipn (Z.to_nat s) q))%nat
      with 0%nat by (rewrite length_skipn; unfold len in *; lia).
    cbn [firstn]. now rewrite app_nil_r.
  - replace (Z.to_nat (e - Z.min s (len q + len rest))) with 0%nat by lia.
    replace (Z.to_nat (e - Z.min s (len q))) with 0%nat by lia.
    reflexivity.
Qed.

Section Framing.

Variable MatterHards : jsstring -> option Z.
Variable CountCodeStart : jsstring.
Variable OpCodeStart : jsstring.

Let matter_frame := Parser.matter_frame MatterHards CountCodeStart OpCodeStart.
Let fromMatterQB64b :=
  Parser.fromMatterQB64b MatterHards CountCodeStart OpCodeStart.

Lemma matter_frame_ok (q : bytes) (protocol : CesrProtocol) (hard : jsstring)
    (cs fsz lsz : Z) (m : bytes) :
  matter_frame (InUint8Array q) protocol = Ok (hard, cs, fsz, lsz, m) ->
  exists (hardSize : Z) (table : CesrCodeTable),
    q <> []
    /\ MatterHards (Utf8.decode (slice q 0 1)) = Some hardSize
    /\ hardSize <= len q
    /\ hard = Utf8.decode (slice q 0 hardSize)
    /\ getCodeTable protocol hard = Ok table
    /\ cs = hs (sizes table) + ss (sizes table)
    /\ lsz = ls (sizes table)
    /\ Parser.matter_full_size table q = Ok fsz
    /\ fsz <= len q
    /\ m = slice q 0 fsz.
Proof.
  unfold matter_frame, Parser.matter_frame. cbn [bind]. intros H.
  destruct (len q =? 0) eqn:E0; [discriminate|].
  destruct (MatterHards _) as [hardSize|] eqn:Eh.
  2:{ destruct (streq _ CountCodeStart); [discriminate|].
      destruct (streq _ OpCodeStart); discriminate. }
  destruct (len q <? hardSize) eqn:El; [discriminate|].
  destruct (getCodeTable protocol _) as [table|] eqn:Et; [|discriminate].
  cbn [bind] in H. destruct (sizes table) as [h s f l] eqn:Es.
  destruct (Parser.matter_full_size table q) as [fs'|] eqn:Ef; [|discriminate].
  cbn [bind] in H. destruct (len q <? fs') eqn:Ef'; [discriminate|].
  inversion H; subst; clear H.
  exists hardSize, table. apply Z.ltb_ge in El, Ef'. rewrite Es.
  cbn [hs ss ls].
  repeat split; try assumption; try reflexivity.
  intros ->. discriminate E0.
Qed.

Lemma matter_frame_intro (q : bytes) (protocol : CesrProtocol)
    (hardSize : Z) (table : CesrCodeTable) (fsz : Z) :
  q <> [] ->
  MatterHards (Utf8.decode (slice q 0 1)) = Some hardSize ->
  hardSize <= len q ->
  getCodeTable protocol (Utf8.decode (slice q 0 hardSize)) = Ok table ->
  Parser.matter_full_size table q = Ok fsz ->
  fsz <= len q ->
  matter_frame (InUint8Array q) protocol
  = Ok (Utf8.decode (slice q 0 hardSize),
        hs (sizes table) + ss (sizes table), fsz, ls (sizes table),
        slice q 0 fsz).
Proof.
  intros Hq Hh Hge Ht Hf Hle.
  unfold matter_frame, Parser.matter_frame. cbn [bind].
  destruct (len q =? 0) eqn:E0.
  { apply Z.eqb_eq in E0. destruct q; [congruence|].
    rewrite len_cons in E0. pose proof (len_nonneg q). lia. }
  rewrite Hh. apply Z.ltb_ge in Hge. rewrite Hge.
  rewrite Ht. cbn [bind]. destruct (sizes table) as [h s f l].
  rewrite Hf. cbn [bind]. apply Z.ltb_ge in Hle. rewrite Hle. reflexivity.
Qed.

Lemma matter_raw_ok (hard : jsstring) (cs fsz lsz : Z) (m : bytes)
    (hard' : jsstring) (fs' : Z) (raw : bytes) :
  Parser.matter_raw hard cs fsz lsz m = Ok (hard', fs', raw) ->
  hard' = hard /\ fs' = fsz
  /\ len raw = (len m - cs) * 3 / 4 - lsz
  /\ Forall is_byte raw.
Proof.
  unfold Parser.matter_raw. cbv zeta. intros H.
  assert (Hc : forall r,
             Parser.matter_checked hard cs fsz lsz m r = Ok (hard', fs', raw) ->
             hard' = hard /\ fs' = fsz /\ r = raw
             /\ len raw = (len m - cs) * 3 / 4 - lsz).
  { intros r Hr. unfold Parser.matter_checked in Hr.
    destruct (len r =? _) eqn:E; [|discriminate]. cbn [negb] in Hr.
    inversion Hr; subst. apply Z.eqb_eq in E. auto. }
  destruct (js_rem cs 4 >? 0).
  - destruct (Base64.decodeBase64Url _) as [paw|] eqn:Ed; [|discriminate].
    cbn [bind] in H. destruct (negb _); [discriminate|]. cbn [bind] in H.
    apply Hc in H. destruct H as (-> & -> & <- & Hl).
    repeat split; try assumption.
    apply Forall_slice. now apply decodeBase64Url_bytes in Ed.
  - destruct (Base64.decodeBase64Url _) as [paw|] eqn:Ed; [|discriminate].
    cbn [bind] in H. destruct (_ >? 0).
    { destruct (lsz =? 1); discriminate. }
    cbn [bind] in H.
    apply Hc in H. destruct H as (-> & -> & <- & Hl).
    repeat split; try assumption.
    apply Forall_slice. now apply decodeBase64Url_bytes in Ed.
Qed.

(** X12.  What [fromMatterQB64b] returns: the hard code is the first
    characters of the input, as many as [MatterHards] gives for the first
    one, and it has a code table; the size returned is the full size of that
    table and is within the input; the raw bytes are bytes, and as many as
    three quarters of the characters behind the code less the lead bytes. *)
Theorem fromMatterQB64b_result :
  forall (q : bytes) (protocol : CesrProtocol) (hard : jsstring) (fsz : Z)
         (raw : bytes),
    fromMatterQB64b (InUint8Array q) protocol = Ok (hard, fsz, raw) ->
    exists (hardSize : Z) (table : CesrCodeTable),
      MatterHards (Utf8.decode (slice q 0 1)) = Some hardSize
      /\ hard = Utf8.decode (slice q 0 hardSize)
      /\ getCodeTable protocol hard = Ok table
      /\ Parser.matter_full_size table q = Ok fsz
      /\ fsz <= len q
      /\ Forall is_byte raw
      /\ len raw
         = (len (slice q 0 fsz) - (hs (sizes table) + ss (sizes table))) * 3 / 4
           - ls (sizes table).
Proof.
  intros q protocol hard fsz raw H.
  unfold fromMatterQB64b, Parser.fromMatterQB64b in H.
  fold matter_frame in H.
  destruct (matter_frame (InUint8Array q) protocol)
    as [[[[[hard0 cs] fs0] ls0] m]|] eqn:Ef; [|discriminate].
  cbn [bind] in H. apply matter_raw_ok in H.
  destruct H as (-> & -> & Hl & Hb).
  apply matter_frame_ok in Ef.
  destruct Ef as (hardSize & table & _ & Hh & _ & Hhard & Ht & -> & -> & Hfs
                  & Hle & ->).
  exists hardSize, table. repeat split; assumption.
Qed.

(** X13.  [fromMatterQB64b] is self-framing: with sizes as the code assumes
    them, what it returns for a primitive it returns for the primitive
    followed by any bytes. *)
Theorem fromMatterQB64b_self_framing :
  forall (q rest : bytes) (protocol : CesrProtocol) (hard : jsstring)
         (fsz : Z) (raw : bytes),
    (forall first h, MatterHards first = Some h -> 0 <= h) ->
    (forall sel table,
        getCodeTable protocol sel = Ok table -> sane_sizes (sizes table)) ->
    fromMatterQB64b (InUint8Array q) protocol = Ok (hard, fsz, raw) ->
    fromMatterQB64b (InUint8Array (q ++ rest)) protocol = Ok (hard, fsz, raw).
Proof.
  intros q rest protocol hard fsz raw Hhards Hsane H.
  unfold fromMatterQB64b, Parser.fromMatterQB64b in H |- *.
  fold matter_frame in H |- *.
  destruct (matter_frame (InUint8Array q) protocol)
    as [[[[[hard0 cs] fs0] ls0] m]|] eqn:Ef; [|discriminate].
  cbn [bind] in H.
  apply matter_frame_ok in Ef.
  destruct Ef as (hardSize & table & Hq & Hh & Hge & Hhard & Ht & Hcs & Hls
                  & Hfs & Hle & Hm).
  pose proof (Hhards _ _ Hh) as Hh0.
  destruct (Hsane _ _ Ht) as (Hhs & Hss & Hf).
  pose proof (len_nonneg q) as Hlq. pose proof (len_nonneg rest) as Hlr.
  (* the full size holds the code *)
  assert (Hcf : hs (sizes table) + ss (sizes table) <= fs0).
  { unfold Parser.matter_full_size in Hfs.
    destruct (sizes table) as [h s f l]. cbn [hs ss fs] in *.
    destruct f as [f|]; [inversion Hfs; subst; exact Hf|].
    destruct (negb _); [discriminate|].
    destruct (Base64.toInt _) as [size|] eqn:Esz; [|discriminate].
    cbn [bind] in Hfs. inversion Hfs; subst.
    apply base64_toInt_nonneg in Esz; [lia|].
    assert (Hsl : len (slice q h (h + s)) <= s).
    { unfold slice, rel_index, len. rewrite length_firstn.
      destruct (h <? 0) eqn:E1; [apply Z.ltb_lt in E1; lia|].
      destruct (h + s <? 0) eqn:E2; [apply Z.ltb_lt in E2; lia|]. lia. }
    pose proof (utf8_decode_len (slice q h (h + s))). lia. }
  assert (Hfull : Parser.matter_full_size table (q ++ rest) = Ok fs0).
  { unfold Parser.matter_full_size in *.
    destruct (sizes table) as [h s f l]. cbn [hs ss fs] in *.
    destruct f as [f|]; [exact Hfs|].
    rewrite slice_app_within by lia. exact Hfs. }
  rewrite (@matter_frame_intro (q ++ rest) protocol hardSize table fs0).
  - cbn [bind]. rewrite !slice_app_within by lia.
    rewrite <- Hhard, <- Hcs, <- Hls, <- Hm. exact H.
  - destruct q; [congruence|discriminate].
  - rewrite slice_app_first by exact Hq. exact Hh.
  - rewrite len_app. lia.
  - rewrite slice_app_within by lia. rewrite <- Hhard. exact Ht.
  - exact Hfull.
  - rewrite len_app. lia.
Qed.

End Framing.

Lemma sample_hards_nonneg (first : jsstring) (h : Z) :
  Sample.MatterHards first = Some h -> 0 <= h.
Proof.
  unfold Sample.MatterHards. destruct first as [|c [|d r]]; try discriminate.
  destruct (Sample.is_letter c); [intros H; inversion H; lia|].
  destruct ((c =? 48) || (c =? 52) || (c =? 53) || (c =? 54));
    [intros H; inversion H; lia|].
  destruct ((49 <=? c) && (c <=? 57)); [intros H; inversion H; lia|].
  discriminate.
Qed.

Lemma sample_sizes_sane (sel : jsstring) (table : CesrCodeTable) :
  getCodeTable Sample.protocol sel = Ok table -> sane_sizes (sizes table).
Proof.
  cbn [getCodeTable Sample.protocol]. unfold Sample.lookup.
  repeat (destruct (streq _ _);
          [intros H; inversion H; unfold sane_sizes; cbn; lia|]).
  discriminate.
Qed.

Lemma fromMatterQB64b_result_witness :
  exists (hardSize : Z) (table : CesrCodeTable),
    Sample.MatterHards (Utf8.decode (slice salt_stream 0 1)) = Some hardSize
    /\ str "0A" = Utf8.decode (slice salt_stream 0 hardSize)
    /\ getCodeTable Sample.protocol (str "0A") = Ok table
    /\ Parser.matter_full_size table salt_stream = Ok 24
    /\ 24 <= len salt_stream
    /\ Forall is_byte (repeat 0 16)
    /\ len (repeat 0 16)
       = (len (slice salt_stream 0 24)
          - (hs (sizes table) + ss (sizes table))) * 3 / 4
         - ls (sizes table).
Proof.
  apply (@fromMatterQB64b_result Sample.MatterHards Sample.CountCodeStart
           Sample.OpCodeStart salt_stream Sample.protocol).
  reflexivity.
Defined.

Lemma fromMatterQB64b_self_framing_witness :
  Sample.fromMatterQB64b (InUint8Array (salt_stream ++ str "MAAA-AAB"))
    Sample.protocol
  = Ok (str "0A", 24, repeat 0 16).
Proof.
  apply (@fromMatterQB64b_self_framing Sample.MatterHards
           Sample.CountCodeStart Sample.OpCodeStart salt_stream
           (str "MAAA-AAB") Sample.protocol).
  - exact sample_hards_nonneg.
  - exact sample_sizes_sane.
  - reflexivity.
Defined.

(** ** Counters and seal source triples *)

Lemma b64_digit_ascii (v : Z) : is_sextet v -> is_ascii (b64_digit v).
Proof.
  intros Hv. destruct (b64_digit_enc Hv) as (E & _ & _). rewrite E.
  apply plain_unit_spec. now apply enc_char_plain.
Qed.

Lemma slice_app_middle {A} (a b c : list A) :
  slice (a ++ b ++ c) (len a) (len a + len b) = b.
Proof.
  unfold slice, rel_index. rewrite !len_app.
  pose proof (len_nonneg a). pose proof (len_nonneg b).
  pose proof (len_nonneg c).
  destruct (len a <? 0) eqn:E1; [apply Z.ltb_lt in E1; lia|].
  destruct (len a + len b <? 0) eqn:E2; [apply Z.ltb_lt in E2; lia|].
  rewrite !Z.min_l by lia.
  replace (len a + len b - len a) with (len b) by lia.
  unfold len. rewrite !Nat2Z.id.
  rewrite skipn_app, skipn_all, Nat.sub_diag. cbn [app skipn].
  rewrite firstn_app, Nat.sub_diag, firstn_all. cbn [firstn].
  apply app_nil_r.
Qed.

Section Counters.

Variable MatterHards : jsstring -> option Z.
Variable CounterHards : jsstring -> option Z.
Variable CountCodeStart : jsstring.
Variable OpCodeStart : jsstring.

Let fromCounterQB64b := Parser.fromCounterQB64b CounterHards OpCodeStart.
Let triples_from :=
  Parser.triples_from MatterHards CountCodeStart OpCodeStart.

(** X15.  For a counter code of at least two characters followed by up to
    five characters of the alphabet, [fromCounterQB64b] returns the code and
    the number those characters make in base 64, first character the most
    significant, whatever follows them. *)
Theorem fromCounterQB64b_count :
  forall (protocol : CesrProtocol) (table : CesrCodeTable)
         (hard : jsstring) (vs : list Z) (rest : bytes),
    Forall is_ascii hard ->
    2 <= len hard ->
    CounterHards (slice hard 0 2) = Some (len hard) ->
    getCodeTable protocol hard = Ok table ->
    hs (sizes table) = len hard ->
    fs (sizes table) = Some (len hard + len vs) ->
    Forall is_sextet vs ->
    len vs <= 5 ->
    fromCounterQB64b (InUint8Array (hard ++ map b64_digit vs ++ rest)) protocol
    = Ok (hard, digits_value 64 vs).
Proof.
  intros protocol table hard vs rest Hascii Hlen Hh Ht Hhs Hfs Hvs Hn.
  unfold fromCounterQB64b, Parser.fromCounterQB64b. cbn [bind].
  set (d := map b64_digit vs).
  assert (Hd : len d = len vs) by (unfold d, len; now rewrite length_map).
  assert (Hda : Forall is_ascii d).
  { unfold d. apply Forall_map. eapply Forall_impl; [|exact Hvs].
    intros v Hv. now apply b64_digit_ascii. }
  pose proof (len_nonneg vs) as Hv0. pose proof (len_nonneg rest) as Hr0.
  assert (Hq : len (hard ++ d ++ rest) = len hard + len vs + len rest)
    by (rewrite !len_app; lia).
  rewrite Hq.
  replace (len hard + len vs + len rest =? 0) with false
    by (symmetry; apply Z.eqb_neq; lia).
  assert (H2 : slice (hard ++ d ++ rest) 0 2 = slice hard 0 2)
    by (apply slice_app_within; lia).
  rewrite H2, (utf8_decode_ascii (Forall_slice 0 2 Hascii)), Hh.
  replace (len hard + len vs + len rest <? len hard) with false
    by (symmetry; apply Z.ltb_ge; lia).
  rewrite slice_app_prefix, (utf8_decode_ascii Hascii), Ht. cbn [bind].
  destruct (sizes table) as [h s f l]. cbn [hs fs] in Hhs, Hfs. subst h f.
  replace (len hard + len vs + len rest <? len hard + len vs) with false
    by (symmetry; apply Z.ltb_ge; lia).
  rewrite <- Hd, slice_app_middle, (utf8_decode_ascii Hda).
  unfold d, Base64.toInt, digits_value.
  rewrite base64_toInt_from_value; [reflexivity|exact Hvs| |exact Hn].
  split; [lia|]. apply Z.pow_pos_nonneg; lia.
Qed.

(** X16.  The loop of [getSealSourceTriples] reads the first triple on
    every turn: when one turn gives a size, [n] turns give [n] times that
    size, whatever the triples behind the first are. *)
Theorem seal_source_triples_first :
  forall (protocol : CesrProtocol) (triple : bytes) (t : Z),
    triples_from protocol triple 0 1 = Ok t ->
    forall (n : nat) (tripleSize : Z),
      triples_from protocol triple tripleSize n
      = Ok (tripleSize + Z.of_nat n * t).
Proof.
  intros protocol triple t H1 n.
  unfold triples_from in *.
  induction n as [|n IH]; intros acc.
  - cbn [Parser.triples_from]. f_equal. lia.
  - cbn [Parser.triples_from] in H1 |- *.
    destruct (Parser.parsePrefixQB64 _ _ _ protocol (InUint8Array triple))
      as [[[h1 p] r1]|]; [|discriminate].
    cbn [bind] in H1 |- *.
    destruct (Parser.parseSeqnerQB64 _ _ _ protocol _)
      as [[[h2 s] r2]|]; [|discriminate].
    cbn [bind] in H1 |- *.
    destruct (Parser.parseSaider _ _ _ protocol _)
      as [[[h3 d] r3]|]; [|discriminate].
    cbn [bind] in H1 |- *. inversion H1; subst t.
    rewrite IH. f_equal. lia.
Qed.

End Counters.

Lemma fromCounterQB64b_count_witness :
  Parser.fromCounterQB64b Sample.CounterHards Sample.OpCodeStart
    (InUint8Array (str "-A" ++ str "AD" ++ salt_stream)) Sample.protocol
  = Ok (str "-A", 3).
Proof.
  apply (@fromCounterQB64b_count Sample.CounterHards Sample.OpCodeStart
           Sample.protocol (Sample.counter_table 2 2) (str "-A") [0; 3]
           salt_stream); try reflexivity.
  - repeat constructor; unfold is_ascii; lia.
  - repeat constructor; unfold is_sextet; lia.
  - vm_compute. discriminate.
Defined.

Lemma seal_source_triples_first_witness :
  Parser.triples_from Sample.MatterHards Sample.CountCodeStart
    Sample.OpCodeStart Sample.protocol
    (str "MAAA" ++ salt_stream ++ str "MAAB" ++ salt_stream) 0 3
  = Ok (0 + 3 * 32).
Proof.
  apply (@seal_source_triples_first Sample.MatterHards Sample.CountCodeStart
           Sample.OpCodeStart Sample.protocol
           (str "MAAA" ++ salt_stream ++ str "MAAB" ++ salt_stream) 32
           eq_refl 3%nat 0).
Defined.

(** ** The frames of the two parser modules *)

Lemma streq_eq (a b : jsstring) : streq a b = true -> a = b.
Proof. unfold streq. destruct (list_eq_dec Z.eq_dec a b); congruence. Qed.

Lemma streq_refl (a : jsstring) : streq a a = true.
Proof. unfold streq. destruct (list_eq_dec Z.eq_dec a a); congruence. Qed.

Section Modules.

Variable MatterHards : jsstring -> option Z.
Variable CounterHards : jsstring -> option Z.
Variable CountCodeStart : jsstring.
Variable OpCodeStart : jsstring.

Let getTextFrame :=
  Parser.getTextFrame MatterHards CounterHards CountCodeStart OpCodeStart.
Let getCesrFrame :=
  Parser.getCesrFrame MatterHards CounterHards CountCodeStart OpCodeStart.



End Modules.


(** ** JSON frames *)

Lemma hex_valueOf_range (c v : Z) : Hex.valueOf c = Ok v -> 0 <= v < 16.
Proof.
  unfold Hex.valueOf. cbv zeta.
  pose proof (indexOf_range c Hex.HEX 0) as R.
  change (len Hex.HEX) with 16 in R.
  remember (indexOf c Hex.HEX 0) as r eqn:Er. clear Er.
  destruct (r =? -1) eqn:E; [discriminate|].
  intros H. injection H as <-. apply Z.eqb_neq in E. lia.
Qed.

Lemma hex_valueOf_error (c : Z) (e : exn) :
  Hex.valueOf c = Throw e -> e = Error [].
Proof.
  unfold Hex.valueOf. cbv zeta.
  remember (indexOf c Hex.HEX 0) as r eqn:Er. clear Er.
  destruct (r =? -1); [|discriminate]. congruence.
Qed.

Lemma hex_toInt_from_bound (s : jsstring) :
  forall acc k n,
    0 <= k ->
    0 <= acc < 16 ^ k ->
    k + len s <= 7 ->
    Hex.toInt_from acc s = Ok n ->
    0 <= n < 16 ^ (k + len s).
Proof.
  induction s as [|c s IH]; intros acc k n Hk Hacc Hlen H.
  - cbn [Hex.toInt_from] in H. inversion H; subst.
    change (len (@nil Z)) with 0. now rewrite Z.add_0_r.
  - cbn [Hex.toInt_from] in H.
    destruct (Hex.valueOf c) as [v|] eqn:Ev; [|discriminate].
    cbn [bind] in H. apply hex_valueOf_range in Ev.
    rewrite len_cons in *. pose proof (len_nonneg s) as Hs.
    assert (Hp : 16 ^ (k + 1) = 16 * 16 ^ k)
      by (rewrite Z.pow_add_r by lia; lia).
    assert (Hle : 16 ^ (k + 1) <= 16 ^ 7) by (apply Z.pow_le_mono_r; lia).
    change (16 ^ 7) with 268435456 in Hle.
    rewrite (@js_or_shl acc v 4) in H; change (2 ^ 4) with 16; try lia.
    replace (k + (1 + len s)) with ((k + 1) + len s) by lia.
    apply IH with (acc := acc * 16 + v); try lia. exact H.
Qed.

Lemma hex_toInt_from_error (s : jsstring) :
  forall acc e, Hex.toInt_from acc s = Throw e -> e = Error [].
Proof.
  induction s as [|c s IH]; intros acc e H; [discriminate|].
  cbn [Hex.toInt_from] in H.
  destruct (Hex.valueOf c) as [v|] eqn:Ev.
  - cbn [bind] in H. now apply IH in H.
  - cbn [bind] in H. inversion H; subst. now apply hex_valueOf_error in Ev.
Qed.

Lemma versionStrPattern_exec_ok (s vs : jsstring) :
  versionStrPattern_exec s = Some vs ->
  len vs = 16
  /\ vs = slice vs 0 6 ++ slice vs 6 10 ++ slice vs 10 16
  /\ len (slice vs 10 16) = 6.
Proof.
  unfold versionStrPattern_exec. intros H.
  repeat match type of H with
         | (match ?z with _ => _ end) = _ =>
             is_var z; destruct z; try discriminate H
         end.
  cbv zeta in H.
  match type of H with
  | (if ?c then _ else _) = _ => destruct c eqn:E; [|discriminate]
  end.
  apply andb_prop in E as [E _]. apply andb_prop in E as [_ E].
  apply Nat.eqb_eq in E.
  assert (vs = firstn 16 s).
  { destruct (skipn 16 s) as [|a r]; [discriminate|].
    repeat match type of H with
           | (match ?z with _ => _ end) = _ =>
               is_var z; destruct z; try discriminate H
           end.
    now inversion H. }
  subst vs. clear H. set (w := firstn 16 s) in *. clearbody w.
  do 17 (destruct w as [|? w]; try discriminate E).
  repeat split.
Qed.

Lemma getJsonFrame_ok (input : bytes) (v : CesrValue) :
  Parser.getJsonFrame input = Ok v ->
  exists (h : CesrVersionHeader) (n : Z),
    header v = VersionHeader h
    /\ vh_serial h = Serials_json
    /\ vh_value h = vh_proto h ++ vh_serial h ++ vh_digits h
    /\ len (vh_value h) = 16
    /\ vh_size h = Ok n
    /\ 0 <= n < 16777216
    /\ cv_value v = slice input 0 n.
Proof.
  intros H. unfold Parser.getJsonFrame in H. cbv zeta in H.
  destruct (versionStrPattern_exec _) as [vs|] eqn:Em; [|discriminate].
  destruct (versionStrPattern_exec_ok _ Em) as (H16 & Hparts & H6).
  cbn [vh_serial] in H.
  destruct (streq Serials_json (slice vs 6 10)) eqn:Es.
  2:{ cbn [negb] in H. destruct (vh_size _); discriminate. }
  cbn [negb] in H. unfold vh_size in H. cbn [vh_digits] in H.
  destruct (Hex.toInt (slice vs 10 16)) as [n|] eqn:En; [|discriminate].
  cbn [bind] in H. inversion H; subst v; clear H.
  apply streq_eq in Es.
  eexists. exists n. cbn [header cv_value vh_serial vh_value vh_proto vh_digits].
  split; [reflexivity|]. split; [now symmetry|]. split; [exact Hparts|].
  split; [exact H16|]. split; [exact En|]. split; [|reflexivity].
  unfold Hex.toInt in En.
  apply hex_toInt_from_bound with (k := 0) in En; try lia.
  + unfold Hex.toUpperCase, len in En. rewrite length_map in En.
    unfold len in H6. rewrite H6 in En. exact En.
  + unfold Hex.toUpperCase, len. rewrite length_map. unfold len in H6. lia.
Qed.

(** X18.  A value that [getJsonFrame] returns has a version header whose
    serialization is JSON and whose 16 characters are the protocol, the
    serialization and six digits; the digits are hexadecimal, so the size is
    below 2^24, and the value is the first bytes of the input, as many as
    the size where the input has them.  When a digit is not hexadecimal the
    error is the bare [Error] of [Hex.valueOf], for every serialization. *)
Theorem getJsonFrame_result :
  (forall (input : bytes) (v : CesrValue),
      Parser.getJsonFrame input = Ok v ->
      exists (h : CesrVersionHeader) (n : Z),
        header v = VersionHeader h
        /\ vh_serial h = Serials_json
        /\ vh_value h = vh_proto h ++ vh_serial h ++ vh_digits h
        /\ len (vh_value h) = 16
        /\ vh_size h = Ok n
        /\ 0 <= n < 16777216
        /\ cv_value v = slice input 0 n)
  /\ (forall (input : bytes) (versionStr : jsstring) (e : exn),
         versionStrPattern_exec (Utf8.decode (slice input 0 24))
         = Some versionStr ->
         Hex.toInt (slice versionStr 10 16) = Throw e ->
         Parser.getJsonFrame input = Throw (Error [])).
Proof.
  split; [exact getJsonFrame_ok|].
  intros input vs e Hm He. unfold Parser.getJsonFrame. cbv zeta.
  rewrite Hm. cbn [vh_serial]. unfold vh_size. cbn [vh_digits].
  rewrite He. apply hex_toInt_from_error in He. subst e.
  destruct (negb _); reflexivity.
Qed.

Lemma getJsonFrame_result_witness :
  (exists (h : CesrVersionHeader) (n : Z),
      VersionHeader window_header = VersionHeader h
      /\ vh_serial h = Serials_json
      /\ vh_value h = vh_proto h ++ vh_serial h ++ vh_digits h
      /\ len (vh_value h) = 16
      /\ vh_size h = Ok n
      /\ 0 <= n < 16777216
      /\ Sample.version_window = slice Sample.version_window 0 n)
  /\ Parser.getJsonFrame
       ([123; 34; 118; 34; 58; 34] ++ str "KERI10JSON0000zz_" ++ [34])
     = Throw (Error []).
Proof.
  split.
  - apply (proj1 getJsonFrame_result Sample.version_window
             (mkCesrValue (VersionHeader window_header) Sample.version_window)).
    reflexivity.
  - apply (proj2 getJsonFrame_result
             ([123; 34; 118; 34; 58; 34] ++ str "KERI10JSON0000zz_" ++ [34])
             (str "KERI10JSON0000zz") (Error [])); reflexivity.
Defined.

(** ** The frames of the decoder *)

(** X19.  The frames are a stack: [popFrame] undoes [pushFrame], which
    keeps the cursor and leaves a state that is not empty; on the state that
    [new DecoderState] makes, [popFrame] throws. *)
Theorem frame_stack :
  forall (s : Decoder.DecoderState) (end_ : Z) (value : Decoder.object),
    Decoder.popFrame (Decoder.pushFrame end_ value s) = Ok s
    /\ Decoder.isEmpty (Decoder.pushFrame end_ value s) = false
    /\ Decoder.start (Decoder.pushFrame end_ value s) = Decoder.start s
    /\ Decoder.s_end (Decoder.pushFrame end_ value s) = Some end_
    /\ Decoder.isEmpty (Decoder.new_DecoderState value) = true
    /\ Decoder.popFrame (Decoder.new_DecoderState value)
       = Throw (Error [FText "DecoderState.popFrame"]).
Proof.
  intros [cur rest st] end_ value. repeat split.
Qed.

(** X20.  The loop of [nextSlice] returns within one turn more than there
    are frames below the current one, and it never throws: [popFrame] is
    called on a state that is not empty.  What it returns is the first slice
    that is not empty, or the slice of the last frame. *)
Theorem nextSlice_loop_returns :
  forall (state : Decoder.DecoderState) (input : bytes),
    nextSlice_loop (S (List.length (Decoder.next_frames state))) state input
    = Some (Ok (Decoder.nextSlice state input))
    /\ ((0 <? len (fst (Decoder.nextSlice state input)))
        || Decoder.isEmpty (snd (Decoder.nextSlice state input))) = true.
Proof.
  intros [cur rest st] input. unfold Decoder.nextSlice.
  cbn [Decoder.currentFrame Decoder.next_frames Decoder.start].
  revert cur. induction rest as [|f rest IH]; intros cur.
  - cbn [List.length nextSlice_loop Decoder.nextSlice_from].
    unfold Decoder.s_end, Decoder.isEmpty.
    cbn [Decoder.currentFrame Decoder.start Decoder.next_frames].
    destruct (len _ >? 0) eqn:E; cbn [fst snd Decoder.next_frames];
      (split; [reflexivity|]); [|apply orb_true_r].
    rewrite Z.gtb_ltb in E. now rewrite E.
  - cbn [List.length]. specialize (IH f).
    remember (S (List.length rest)) as n eqn:En.
    cbn [nextSlice_loop Decoder.nextSlice_from].
    unfold Decoder.s_end, Decoder.isEmpty, Decoder.popFrame.
    cbn [Decoder.currentFrame Decoder.start Decoder.next_frames].
    destruct (len _ >? 0) eqn:E.
    + cbn [fst snd]. split; [reflexivity|].
      rewrite Z.gtb_ltb in E. now rewrite E.
    + subst n. exact IH.
Qed.

Lemma last_cons_default {A} (rest : list A) (f cur : A) :
  last (f :: rest) cur = last rest f.
Proof.
  revert f cur. induction rest as [|g rest IH]; intros f cur; [reflexivity|].
  change (last (f :: g :: rest) cur) with (last (g :: rest) cur).
  now rewrite (IH g cur), (IH g f).
Qed.

Lemma nextSlice_from_empty (input : bytes) (st : Z)
    (rest : list Decoder.Frame) :
  forall cur : Decoder.Frame,
    0 <= st ->
    Decoder.f_end (last rest cur) = None ->
    len (fst (Decoder.nextSlice_from cur rest st input)) = 0 ->
    len input <= st.
Proof.
  induction rest as [|f rest IH]; intros cur Hst Hroot H.
  - cbn [last] in Hroot. cbn [Decoder.nextSlice_from] in H. rewrite Hroot in H.
    assert (Hs : len (slice_from input st) = 0)
      by (destruct (len (slice_from input st) >? 0); exact H).
    rewrite slice_from_nonneg in Hs by exact Hst.
    unfold len in *. rewrite length_skipn in Hs. lia.
  - cbn [Decoder.nextSlice_from] in H.
    destruct (len _ >? 0) eqn:E.
    + cbn [fst] in H. rewrite Z.gtb_ltb in E. apply Z.ltb_lt in E. lia.
    + apply (IH f); [exact Hst| |exact H].
      now rewrite <- (last_cons_default rest f cur).
Qed.

Lemma slice_past_end {A} (input : list A) (st e : Z) :
  len input <= st -> slice input st e = [].
Proof.
  intros H. unfold slice, rel_index. pose proof (len_nonneg input).
  destruct (st <? 0) eqn:E; [apply Z.ltb_lt in E; lia|].
  rewrite (Z.min_r st (len input)) by lia.
  unfold len. rewrite Nat2Z.id, skipn_all.
  apply firstn_nil.
Qed.

Lemma nextSlice_from_past_end (input : bytes) (st : Z)
    (rest : list Decoder.Frame) :
  forall cur : Decoder.Frame,
    len input <= st ->
    Decoder.nextSlice_from cur rest st input = ([], (last rest cur, [])).
Proof.
  induction rest as [|f rest IH]; intros cur H.
  - cbn [Decoder.nextSlice_from last]. unfold slice_from.
    destruct (Decoder.f_end cur); now rewrite slice_past_end.
  - cbn [Decoder.nextSlice_from]. unfold slice_from.
    replace (match Decoder.f_end cur with
             | Some e => slice input st e
             | None => slice input st (len input)
             end) with (@nil Z)
      by (destruct (Decoder.f_end cur); now rewrite slice_past_end).
    cbn [len List.length Z.of_nat Z.gtb Z.compare]. rewrite (IH f H).
    now rewrite (last_cons_default rest f cur).
Qed.

Section Turns.

Variable MatterHards : jsstring -> option Z.
Variable CounterHards : jsstring -> option Z.
Variable CountCodeStart : jsstring.
Variable OpCodeStart : jsstring.

Let values_turn :=
  Decoder.values_turn MatterHards CounterHards CountCodeStart OpCodeStart.
Let values :=
  Decoder.values MatterHards CounterHards CountCodeStart OpCodeStart.

Lemma values_turn_finished (this : Decoder.CesrDecoder)
    (state s' : Decoder.DecoderState) (serial version : jsstring)
    (input : bytes) :
  values_turn this state serial version input = Decoder.Finished s' ->
  len (fst (Decoder.nextSlice state input)) = 0
  /\ s' = snd (Decoder.nextSlice state input).
Proof.
  unfold values_turn, Decoder.values_turn.
  destruct (Decoder.nextSlice state input) as [sl s1]. cbn [fst snd].
  destruct (len sl =? 0) eqn:E.
  { apply Z.eqb_eq in E. intros H. inversion H. auto. }
  destruct (Decoder.popGroup _) as [g s2].
  destruct (Decoder.getValue _ _ _ _ _ _ _) as [fv|]; [|discriminate].
  destruct (header fv) as [h|c0]; cbn [Decoder.header_serial].
  - destruct (Decoder.truthy _); [|discriminate].
    destruct (streq _ _); discriminate.
  - destruct (Decoder.truthy _).
    + destruct (streq _ _); discriminate.
    + destruct (negb _); [|discriminate].
      destruct (isFrame _ _); [discriminate|].
      destruct (isGroup _ _); discriminate.
Qed.

(** X21.  With the last frame open-ended, as [new DecoderState] makes it,
    and the cursor not negative, the generator [values] ends exactly when the
    cursor has reached the end of the input; the state it leaves has the
    last frame only, and the cursor where it was. *)
Theorem values_finished :
  forall (this : Decoder.CesrDecoder) (state : Decoder.DecoderState)
         (serial version : jsstring) (input : bytes),
    0 <= Decoder.start state ->
    Decoder.f_end (last (Decoder.next_frames state)
                     (Decoder.currentFrame state)) = None ->
    ((exists s', values_turn this state serial version input
                 = Decoder.Finished s')
     <-> len input <= Decoder.start state)
    /\ (forall s', values_turn this state serial version input
                   = Decoder.Finished s' ->
                   s' = Decoder.mkState
                          (last (Decoder.next_frames state)
                             (Decoder.currentFrame state))
                          [] (Decoder.start state)).
Proof.
  intros this state serial version input Hst Hroot.
  pose proof (@nextSlice_from_empty input (Decoder.start state)
                (Decoder.next_frames state) (Decoder.currentFrame state)
                Hst Hroot) as He.
  pose proof (@nextSlice_from_past_end input (Decoder.start state)
                (Decoder.next_frames state) (Decoder.currentFrame state))
    as Hp.
  assert (Hfin : forall s',
             values_turn this state serial version input
             = Decoder.Finished s' ->
             len input <= Decoder.start state
             /\ s' = Decoder.mkState
                       (last (Decoder.next_frames state)
                          (Decoder.currentFrame state))
                       [] (Decoder.start state)).
  { intros s' H. apply values_turn_finished in H. destruct H as [H0 Hs].
    unfold Decoder.nextSlice in H0, Hs.
    destruct (Decoder.nextSlice_from _ _ _ _) as [sl [c r]].
    cbn [fst snd] in *. specialize (Hp (He H0)). inversion Hp; subst.
    auto. }
  split; [split|].
  - intros (s' & H). now apply Hfin in H.
  - intros Hle. unfold values_turn, Decoder.values_turn, Decoder.nextSlice.
    rewrite (Hp Hle). cbn [len List.length Z.of_nat Z.eqb].
    eexists. reflexivity.
  - intros s' H. now apply Hfin in H.
Qed.

(** X22.  Where the cursor is after a turn: a turn that ends or throws
    leaves it, and a turn that yields leaves it until the generator is
    resumed, which then advances it by the length of the value yielded, or,
    for the counter of a frame, by the length of its code only; the frame
    pushed ends where the whole value ends.  The cursor never goes back. *)
Theorem values_turn_cursor :
  forall (this : Decoder.CesrDecoder) (state : Decoder.DecoderState)
         (serial version : jsstring) (input : bytes),
    match values_turn this state serial version input with
    | Decoder.Finished s' => Decoder.start s' = Decoder.start state
    | Decoder.Thrown _ s' => Decoder.start s' = Decoder.start state
    | Decoder.Yielded hook code res length_ s' _ _ =>
        Decoder.start s' = Decoder.start state
        /\ length_ = match hook with
                     | Decoder.CesrFrame => header_length (header code)
                     | _ => cv_length code
                     end
        /\ Decoder.start state <= Decoder.start (Decoder.resume s' length_)
        /\ (hook = Decoder.CesrFrame ->
            Decoder.s_end s' = Some (Decoder.start state + cv_length code))
    end.
Proof.
  intros this state serial version input.
  unfold values_turn, Decoder.values_turn.
  pose proof (nextSlice_start state input) as H1.
  destruct (Decoder.nextSlice state input) as [sl s1]. cbn [snd] in H1.
  destruct (len sl =? 0); [exact H1|].
  pose proof (popGroup_start s1) as H2.
  destruct (Decoder.popGroup s1) as [g s2]. cbn [snd] in H2.
  rewrite H1 in H2. clear H1.
  destruct (Decoder.getValue _ _ _ _ _ _ _) as [fv|]; [|exact H2].
  assert (Hl : forall {A} (l : list A) z, z <= z + len l)
    by (intros A l z; pose proof (len_nonneg l); lia).
  destruct (header fv) as [h|c0] eqn:Eh; cbn [Decoder.header_serial].
  - destruct (Decoder.truthy _); [|exact H2].
    destruct (streq _ _); [|exact H2].
    cbn [Decoder.resume Decoder.start]. rewrite H2.
    repeat split; [apply Hl|discriminate].
  - destruct (Decoder.truthy _).
    + destruct (streq _ _); [|exact H2].
      cbn [Decoder.resume Decoder.start]. rewrite H2.
      repeat split; [apply Hl|discriminate].
    + destruct (negb _); [|exact H2].
      destruct (isFrame _ _).
      * cbn [Decoder.resume Decoder.start Decoder.pushFrame Decoder.s_end
             Decoder.currentFrame Decoder.f_end header header_length
             cv_length cv_value Decoder.set_serial_version value].
        rewrite H2. repeat split. apply Hl.
      * destruct (isGroup _ _).
        -- cbn [Decoder.resume Decoder.start Decoder.pushGroup
                Decoder.set_group cv_length cv_value].
           rewrite H2. repeat split; [apply Hl|discriminate].
        -- cbn [Decoder.resume Decoder.start cv_length cv_value].
           rewrite H2. repeat split; [apply Hl|discriminate].
Qed.

Lemma zero_size_turn (this : Decoder.CesrDecoder) (value : Decoder.object)
    (input : bytes) (fv : CesrValue) (serial version : jsstring) :
  Parser.tritet_of input = Parser.ColdDex_JSON ->
  Parser.getJsonFrame input = Ok fv ->
  exists serial' version',
    values_turn this (Decoder.new_DecoderState value) serial version input
    = Decoder.Yielded Decoder.JsonFrame fv
        (Decoder.mapJsonFrame (Decoder.d_hooks this) (root_frame value) None
           fv 0 (cv_length fv))
        (cv_length fv) (Decoder.new_DecoderState value) serial' version'.
Proof.
  intros Ht Hj. destruct (getJsonFrame_ok _ Hj) as (h & n & Hh & Hs & _).
  assert (Hne : (len input >? 0) = true).
  { destruct input as [|b l]; [discriminate Ht|].
    rewrite len_cons, Z.gtb_ltb. apply Z.ltb_lt. pose proof (len_nonneg l). lia. }
  unfold values_turn, Decoder.values_turn, Decoder.nextSlice,
    Decoder.new_DecoderState.
  cbn [Decoder.currentFrame Decoder.next_frames Decoder.start
       Decoder.nextSlice_from Decoder.f_end].
  rewrite slice_from_0, Hne.
  replace (len input =? 0) with false
    by (symmetry; apply Z.eqb_neq; rewrite Z.gtb_ltb in Hne;
        apply Z.ltb_lt in Hne; lia).
  cbn [Decoder.popGroup Decoder.currentGroup Decoder.currentFrame
       Decoder.group Decoder.valueGetter Decoder.getValue].
  unfold Parser.getCesrFrame. cbn [bind]. rewrite Ht.
  cbn [Parser.ColdDex_JSON Parser.ColdDex_CtB64 Z.eqb Pos.eqb].
  rewrite Hj, Hh. cbn [Decoder.header_serial]. rewrite Hs.
  cbn [Decoder.truthy Decoder.default_str].
  change (Decoder.truthy (Some Serials_json)) with true.
  rewrite streq_refl. cbv iota.
  eexists. eexists. reflexivity.
Qed.

(** X23.  A version string that declares a size of 0 stalls the decoder:
    the JSON frame has no bytes, the cursor does not advance, and every
    further turn yields the same frame again. *)
Theorem zero_size_header_repeats :
  forall (this : Decoder.CesrDecoder) (value : Decoder.object)
         (input : bytes) (fv : CesrValue),
    Parser.tritet_of input = Parser.ColdDex_JSON ->
    Parser.getJsonFrame input = Ok fv ->
    cv_length fv = 0 ->
    forall (n : nat) (serial version : jsstring),
      values n this (Decoder.new_DecoderState value) serial version input
      = (repeat
           (Decoder.mapJsonFrame (Decoder.d_hooks this) (root_frame value)
              None fv 0 0) n,
         Decoder.new_DecoderState value).
Proof.
  intros this value input fv Ht Hj H0 n.
  induction n as [|n IH]; intros serial version; [reflexivity|].
  unfold values in *. cbn [Decoder.values].
  destruct (@zero_size_turn this value input fv serial version Ht Hj)
    as (s' & v' & Hturn).
  unfold values_turn in Hturn. rewrite Hturn, H0.
  change (Decoder.resume (Decoder.new_DecoderState value) 0)
    with (Decoder.new_DecoderState value).
  rewrite IH. reflexivity.
Qed.

End Turns.

Lemma values_finished_witness :
  exists s',
    Sample.values_turn Sample.decoder
      (Decoder.mkState (root_frame (Decoder.OOther 0)) [] 24)
      (str "JSON") [] salt_stream
    = Decoder.Finished s'.
Proof.
  apply (proj1 (@values_finished Sample.MatterHards Sample.CounterHards
                  Sample.CountCodeStart Sample.OpCodeStart Sample.decoder
                  (Decoder.mkState (root_frame (Decoder.OOther 0)) [] 24)
                  (str "JSON") [] salt_stream
                  ltac:(vm_compute; discriminate) eq_refl)).
  vm_compute. discriminate.
Defined.

Lemma zero_size_header_repeats_witness :
  Sample.values 5 Sample.decoder (Decoder.new_DecoderState (Decoder.OOther 0))
    (str "JSON") [] (zero_window ++ salt_stream)
  = (repeat
       (Decoder.OValue
          (mkCesrValue
             (VersionHeader
                (mkVersionHeader (str "KERI10JSON000000") (str "JSON")
                   (str "KERI10") (str "000000")))
             []))
       5,
     Decoder.new_DecoderState (Decoder.OOther 0)).
Proof.
  apply (@zero_size_header_repeats Sample.MatterHards Sample.CounterHards
           Sample.CountCodeStart Sample.OpCodeStart Sample.decoder
           (Decoder.OOther 0) (zero_window ++ salt_stream)
           (mkCesrValue
              (VersionHeader
                 (mkVersionHeader (str "KERI10JSON000000") (str "JSON")
                    (str "KERI10") (str "000000")))
              [])); reflexivity.
Defined.

(** ** Frames of quadlets, variable sizes, and the end of a frame *)

Section Quadlets.

Variable MatterHards : jsstring -> option Z.
Variable CounterHards : jsstring -> option Z.
Variable CountCodeStart : jsstring.
Variable OpCodeStart : jsstring.

Let getTextFrame :=
  Parser.getTextFrame MatterHards CounterHards CountCodeStart OpCodeStart.

(** X24.  A frame that [getTextFrame] returns for a counter of quadlets,
    [-V] or [-0V], keeps the header that [getCesrValue] read and holds the
    first bytes of the input: the characters of the code and four bytes for
    each quadlet counted, all of which the input has.  A header without a
    count gives a frame of no bytes. *)
Theorem getTextFrame_quadlets :
  forall (protocol : CesrProtocol) (input : bytes) (v : CesrValue)
         (code : CesrDerivationCode),
    getTextFrame protocol input = Ok v ->
    header v = DerivationCode code ->
    selector code <> str "-I" ->
    (exists cv, Parser.getCesrValue protocol (InUint8Array input) = Ok cv
                /\ header cv = header v)
    /\ (selector code = str "-V" \/ selector code = str "-0V")
    /\ match count code with
       | Some n =>
           n * 4 + len (value code) <= len input
           /\ cv_value v = slice input 0 (n * 4 + len (value code))
       | None => cv_value v = []
       end.
Proof.
  intros protocol input v code H Hh Hsel.
  unfold getTextFrame, Parser.getTextFrame in H.
  destruct (Parser.getCesrValue protocol (InUint8Array input)) as [cv|];
    [|discriminate].
  cbn [bind] in H. destruct (header cv) as [h|c] eqn:Ec; [discriminate|].
  assert (Hq : Parser.getAttachedMaterialQuadlets input c (count c)
               (header_length (DerivationCode c)) = Ok v ->
             c = code
             /\ match count c with
                | Some n =>
                    n * 4 + len (value c) <= len input
                    /\ cv_value v = slice input 0 (n * 4 + len (value c))
                | None => cv_value v = []
                end).
  { intros Hq. unfold Parser.getAttachedMaterialQuadlets in Hq.
    cbn [header_length] in Hq. destruct (count c) as [n|].
    - destruct (_ >? _) eqn:Eg; [discriminate|].
      inversion Hq; subst v. cbn [header] in Hh. inversion Hh; subst c.
      rewrite Z.gtb_ltb in Eg. apply Z.ltb_ge in Eg. auto.
    - inversion Hq; subst v. cbn [header] in Hh. inversion Hh; subst c.
      split; [reflexivity|]. cbn [cv_value]. now rewrite slice_0 by lia. }
  destruct (streq (selector c) (str "-I")) eqn:EI.
  { exfalso. apply streq_eq in EI.
    unfold Parser.getSealSourceTriples in H.
    destruct (getCodeTable protocol _); [|discriminate]. cbn [bind] in H.
    destruct (getTotalLength _ _); [|discriminate]. cbn [bind] in H.
    destruct (Parser.fromCounterQB64b _ _ _ _) as [[hd cnt]|]; [|discriminate].
    cbn [bind] in H. destruct (Parser.triples_from _ _ _ _ _ _ _);
      [|discriminate].
    cbn [bind] in H. inversion H; subst v. cbn [header] in Hh.
    inversion Hh; subst code. cbn [selector] in Hsel. congruence. }
  destruct (streq (selector c) (str "-V")) eqn:EV.
  { apply Hq in H. destruct H as [-> Hc]. apply streq_eq in EV.
    split; [exists cv; split; [reflexivity|congruence]|]. auto. }
  destruct (streq (selector c) (str "-0V")) eqn:E0; [|discriminate].
  apply Hq in H. destruct H as [-> Hc]. apply streq_eq in E0.
  split; [exists cv; split; [reflexivity|congruence]|]. auto.
Qed.

End Quadlets.

Lemma getTextFrame_quadlets_witness :
  (exists cv,
      Parser.getCesrValue Sample.protocol (InUint8Array (str "-VABMAAA-AAB"))
      = Ok cv
      /\ header cv
         = DerivationCode
             (mkDerivationCode (str "-VAB") (str "-V") (str "-V")
                (Some (str "AB")) None None None (Some 1) None None None None
                None))
  /\ (str "-V" = str "-V" \/ str "-V" = str "-0V")
  /\ (1 * 4 + len (str "-VAB") <= len (str "-VABMAAA-AAB")
      /\ str "-VABMAAA"
         = slice (str "-VABMAAA-AAB") 0 (1 * 4 + len (str "-VAB"))).
Proof.
  apply (@getTextFrame_quadlets Sample.MatterHards Sample.CounterHards
           Sample.CountCodeStart Sample.OpCodeStart Sample.protocol
           (str "-VABMAAA-AAB")
           (mkCesrValue
              (DerivationCode
                 (mkDerivationCode (str "-VAB") (str "-V") (str "-V")
                    (Some (str "AB")) None None None (Some 1) None None None
                    None None))
              (str "-VABMAAA"))
           (mkDerivationCode (str "-VAB") (str "-V") (str "-V")
              (Some (str "AB")) None None None (Some 1) None None None None
              None)).
  - reflexivity.
  - reflexivity.
  - discriminate.
Defined.

(** X25.  The full size of a variable-size code: with a code size that is
    a multiple of 4 and at most five size characters, where [Base64.toInt]
    does not wrap, [fromMatterQB64b] reads the size characters behind the
    hard code as a number in base 64 and takes four characters for each unit
    and the code; with a code size that is no multiple of 4 it throws. *)
Theorem matter_variable_size :
  (forall (table : CesrCodeTable) (hard : jsstring) (vs : list Z)
          (rest : bytes) (lsz : Z),
      sizes table = mkSizes (len hard) (len vs) None lsz ->
      Forall is_sextet vs ->
      len vs <= 5 ->
      (len hard + len vs) mod 4 = 0 ->
      Parser.matter_full_size table (hard ++ map b64_digit vs ++ rest)
      = Ok (digits_value 64 vs * 4 + (len hard + len vs)))
  /\ (forall (table : CesrCodeTable) (q : bytes) (hsz ssz lsz : Z),
         sizes table = mkSizes hsz ssz None lsz ->
         0 <= hsz + ssz ->
         (hsz + ssz) mod 4 <> 0 ->
         Parser.matter_full_size table q
         = Throw (Error [FText "fromMatterQB64b: Code size not divisible by 4"])).
Proof.
  split.
  - intros table hard vs rest lsz Hs Hvs Hn Hm.
    unfold Parser.matter_full_size. rewrite Hs.
    pose proof (len_nonneg hard). pose proof (len_nonneg vs).
    unfold js_rem. rewrite Z.rem_mod_nonneg, Hm by lia.
    cbn [Z.eqb negb].
    assert (Hd : len (map b64_digit vs) = len vs)
      by (unfold len; now rewrite length_map).
    rewrite <- Hd, slice_app_middle.
    assert (Hda : Forall is_ascii (map b64_digit vs)).
    { apply Forall_map. eapply Forall_impl; [|exact Hvs].
      intros v Hv. now apply b64_digit_ascii. }
    rewrite (utf8_decode_ascii Hda). unfold Base64.toInt.
    rewrite base64_toInt_from_value; [|exact Hvs| |exact Hn].
    + cbn [bind]. rewrite Hd. reflexivity.
    + split; [lia|]. apply Z.pow_pos_nonneg; lia.
  - intros table q hsz ssz lsz Hs H0 Hm.
    unfold Parser.matter_full_size. rewrite Hs.
    unfold js_rem. rewrite Z.rem_mod_nonneg by lia.
    apply Z.eqb_neq in Hm. now rewrite Hm.
Qed.

Lemma matter_variable_size_witness :
  Parser.matter_full_size Sample.variable_table
    (str "4A" ++ str "AB" ++ str "AAAA")
  = Ok (1 * 4 + (2 + 2))
  /\ Parser.matter_full_size
       (mkCodeTable (Ok 3) (Sample.plain_header 2 true) (fun _ => Ok 3)
          (mkSizes 2 1 None 0))
       text_stream
     = Throw (Error [FText "fromMatterQB64b: Code size not divisible by 4"]).
Proof.
  split.
  - apply (proj1 matter_variable_size Sample.variable_table (str "4A") [0; 1]
             (str "AAAA") 0).
    + reflexivity.
    + repeat constructor; unfold is_sextet; lia.
    + vm_compute. discriminate.
    + reflexivity.
  - apply (proj2 matter_variable_size
             (mkCodeTable (Ok 3) (Sample.plain_header 2 true) (fun _ => Ok 3)
                (mkSizes 2 1 None 0))
             text_stream 2 1 0).
    + reflexivity.
    + lia.
    + vm_compute. discriminate.
Defined.

Lemma slice_within_len {A} (input : list A) (st e : Z) :
  0 <= st -> st < e -> st < len input ->
  len (slice input st e) = Z.min e (len input) - st.
Proof.
  intros H0 He Hl. unfold slice, rel_index.
  destruct (st <? 0) eqn:E1; [apply Z.ltb_lt in E1; lia|].
  destruct (e <? 0) eqn:E2; [apply Z.ltb_lt in E2; lia|].
  rewrite (Z.min_l st (len input)) by lia.
  unfold len at 1. rewrite length_firstn, length_skipn. unfold len in *. lia.
Qed.

(** X26.  The end of a frame.  While the cursor is before the end of the
    current frame and inside the input, [nextSlice] returns the bytes from
    the cursor to that end (or to the end of the input) and keeps the frame;
    once the cursor has reached the end of the frame, [nextSlice] drops the
    frame and goes on with the frame below. *)
Theorem nextSlice_frame_end :
  (forall (state : Decoder.DecoderState) (input : bytes) (e : Z),
      Decoder.s_end state = Some e ->
      0 <= Decoder.start state < e ->
      Decoder.start state < len input ->
      Decoder.nextSlice state input
      = (slice input (Decoder.start state) e, state)
      /\ len (slice input (Decoder.start state) e)
         = Z.min e (len input) - Decoder.start state)
  /\ (forall (cur f : Decoder.Frame) (rest : list Decoder.Frame)
             (st : Z) (input : bytes) (e : Z),
         Decoder.f_end cur = Some e ->
         0 <= e <= st ->
         Decoder.nextSlice (Decoder.mkState cur (f :: rest) st) input
         = Decoder.nextSlice (Decoder.mkState f rest st) input).
Proof.
  split.
  - intros [cur rest st] input e He Hst Hl.
    unfold Decoder.s_end in He.
    cbn [Decoder.currentFrame Decoder.start] in *.
    pose proof (@slice_within_len _ input st e ltac:(lia) ltac:(lia) Hl) as Hn.
    split; [|exact Hn].
    unfold Decoder.nextSlice.
    cbn [Decoder.currentFrame Decoder.next_frames Decoder.start].
    destruct rest as [|f rest]; cbn [Decoder.nextSlice_from]; rewrite He;
      (replace (len (slice input st e) >? 0) with true;
       [reflexivity|symmetry; rewrite Z.gtb_ltb; apply Z.ltb_lt; lia]).
  - intros cur f rest st input e He Hst.
    unfold Decoder.nextSlice.
    cbn [Decoder.currentFrame Decoder.next_frames Decoder.start
         Decoder.nextSlice_from].
    rewrite He.
    assert (Hs : slice input st e = []).
    { unfold slice, rel_index. pose proof (len_nonneg input).
      destruct (st <? 0) eqn:E1; [apply Z.ltb_lt in E1; lia|].
      destruct (e <? 0) eqn:E2; [apply Z.ltb_lt in E2; lia|].
      replace (Z.to_nat (Z.min e (len input) - Z.min st (len input)))
        with 0%nat by lia.
      reflexivity. }
    rewrite Hs. reflexivity.
Qed.

Lemma nextSlice_frame_end_witness :
  (Decoder.nextSlice group_state0 group_stream = (group_stream, group_state0)
   /\ len (slice group_stream 0 76) = Z.min 76 (len group_stream) - 0)
  /\ Decoder.nextSlice
       (Decoder.mkState (Decoder.currentFrame group_state0)
          (Decoder.next_frames group_state0) 76)
       (group_stream ++ salt_stream)
     = Decoder.nextSlice
         (Decoder.mkState (root_frame (Decoder.OOther 0)) [] 76)
         (group_stream ++ salt_stream).
Proof.
  split.
  - apply (proj1 nextSlice_frame_end group_state0 group_stream 76).
    + reflexivity.
    + cbn. lia.
    + reflexivity.
  - apply (proj2 nextSlice_frame_end (Decoder.currentFrame group_state0)
             (root_frame (Decoder.OOther 0)) [] 76
             (group_stream ++ salt_stream) 76).
    + reflexivity.
    + lia.
Defined.
